(** * NatureServe species report tool: a shallow embedding of [app.py]

    The program fetches one taxon record per identifier from a remote API,
    flattens the nested JSON record into a fixed set of fields
    ([extract_data]) and writes one CSV row per identifier ([fetch_data]).

    Python objects decoded from JSON are modelled by the inductive type
    [value]; a [str] is a list of Unicode code points; a [dict] is an
    association list in insertion order.  Python exceptions are values of
    type [exn], and code that may raise lives in the error monad [res].

    JSON numbers with a fraction or an exponent decode to Python floats;
    floats are outside this model: [value] has integers only.

    The data file loader ([load_species_from_csv]) and the main block are
    modelled over oracles for the file system, and the fetcher and the run
    driver a second time with their effects in order: lines printed,
    requests, rows written, flushes and pauses.  The writer and the reader
    of the [csv] module are modelled on text, for the default dialect; the
    encoding of files is outside the model. *)

From Stdlib Require Import ZArith String Ascii Lia.
From stdpp Require Import base tactics option list.

Local Open Scope Z_scope.

#[local] Set Default Proof Using "Type".

(** ** Python strings *)

(** A Python [str]: the sequence of its code points. *)
Definition pystr := list Z.

(** String literals of the source, as code points. *)
Definition py (s : string) : pystr :=
  (fun a => Z.of_N (N_of_ascii a)) <$> list_ascii_of_string s.
Arguments py : simpl never.

(** [sep.join(parts)] *)
Fixpoint join (sep : pystr) (parts : list pystr) : pystr :=
  match parts with
  | [] => []
  | [p] => p
  | p :: rest => p ++ sep ++ join sep rest
  end.

(** [s.startswith(prefix)], also giving the remainder. *)
Fixpoint strip_prefix (prefix s : pystr) : option pystr :=
  match prefix, s with
  | [], _ => Some s
  | p :: prefix', c :: s' => if bool_decide (p = c) then strip_prefix prefix' s' else None
  | _ :: _, [] => None
  end.

(** [s.replace(old, new)] for a non-empty [old]: leftmost non-overlapping
    occurrences, scanning left to right. *)
Fixpoint replace_fuel (fuel : nat) (old new s : pystr) : pystr :=
  match fuel with
  | O => s
  | S fuel' =>
      match s with
      | [] => []
      | c :: s' =>
          match strip_prefix old s with
          | Some rest => new ++ replace_fuel fuel' old new rest
          | None => c :: replace_fuel fuel' old new s'
          end
      end
  end.

Definition replace (old new s : pystr) : pystr :=
  replace_fuel (S (length s)) old new s.

(** [c.isspace()]: the white space of Unicode, which [strip()] removes. *)
Definition is_space (c : Z) : bool :=
  ((9 <=? c) && (c <=? 13)) || ((28 <=? c) && (c <=? 32))
  || (c =? 0x85) || (c =? 0xa0) || (c =? 0x1680)
  || ((0x2000 <=? c) && (c <=? 0x200a))
  || (c =? 0x2028) || (c =? 0x2029) || (c =? 0x202f) || (c =? 0x205f)
  || (c =? 0x3000).

(** [s.lstrip()] *)
Fixpoint lstrip (s : pystr) : pystr :=
  match s with
  | c :: r => if is_space c then lstrip r else s
  | [] => []
  end.

(** [s.rstrip()] *)
Definition rstrip (s : pystr) : pystr := reverse (lstrip (reverse s)).

(** [s.strip()] *)
Definition strip (s : pystr) : pystr := rstrip (lstrip s).

(** ** Decimal rendering of integers: [str(n)] for an [int] *)

Definition digit_char (d : Z) : Z := 48 + d.

Fixpoint digits_fuel (fuel : nat) (n : Z) : pystr :=
  match fuel with
  | O => []
  | S fuel' =>
      if n <? 10 then [digit_char n]
      else digits_fuel fuel' (n / 10) ++ [digit_char (n mod 10)]
  end.

(** The binary size of [n] bounds the number of its decimal digits. *)
Definition digits_bound (n : Z) : nat :=
  match n with
  | Zpos p => S (Pos.size_nat p)
  | _ => 1%nat
  end.

Definition nat_digits (n : Z) : pystr := digits_fuel (digits_bound n) n.

Definition int_str (n : Z) : pystr :=
  if n <? 0 then 45 :: nat_digits (- n) else nat_digits n.

(** [f"{n:0{w}d}"] for a non-negative [n]. *)
Definition zero_pad (w : nat) (n : Z) : pystr :=
  let ds := nat_digits n in
  replicate (w - length ds) 48 ++ ds.

(** ** Python values *)

(** The objects [json.loads] can build, floats excepted. *)
Unset Elimination Schemes.
Inductive value : Type :=
| PNone
| PBool (b : bool)
| PInt (n : Z)
| PStr (s : pystr)
| PList (items : list value)
| PDict (entries : list (pystr * value)).
Set Elimination Schemes.

Definition dict := list (pystr * value).

(** Truth value of an object, as [if x:], [not x] and [x or y] test it. *)
Definition truthy (v : value) : bool :=
  match v with
  | PNone => false
  | PBool b => b
  | PInt n => negb (n =? 0)
  | PStr s => negb (bool_decide (s = []))
  | PList xs => negb (bool_decide (xs = []))
  | PDict kvs => match kvs with [] => false | _ => true end
  end.

(** [x or y] *)
Definition py_or (x y : value) : value := if truthy x then x else y.

Definition is_dict (v : value) : bool :=
  match v with PDict _ => true | _ => false end.

Definition is_list (v : value) : bool :=
  match v with PList _ => true | _ => false end.

(** [type(v).__name__] *)
Definition type_name (v : value) : pystr :=
  match v with
  | PNone => py "NoneType"
  | PBool _ => py "bool"
  | PInt _ => py "int"
  | PStr _ => py "str"
  | PList _ => py "list"
  | PDict _ => py "dict"
  end.

(** ** Dictionaries *)

Fixpoint dict_lookup {V : Type} (d : list (pystr * V)) (k : pystr) : option V :=
  match d with
  | [] => None
  | (k', v) :: d' => if bool_decide (k' = k) then Some v else dict_lookup d' k
  end.

(** [d[k] = v]: an existing key keeps its position, a new key goes last. *)
Fixpoint dict_set {V : Type} (d : list (pystr * V)) (k : pystr) (v : V)
  : list (pystr * V) :=
  match d with
  | [] => [(k, v)]
  | (k', v') :: d' =>
      if bool_decide (k' = k) then (k', v) :: d' else (k', v') :: dict_set d' k v
  end.

Definition dict_keys {V : Type} (d : list (pystr * V)) : list pystr := fst <$> d.

(** ** Exceptions and the error monad *)

Inductive exn : Type :=
| AttributeError (msg : pystr)
| ValueError (msg : pystr)
| JSONDecodeError (msg : pystr)
| HTTPError (code : Z) (reason : pystr)
| OtherError (msg : pystr).

(** [str(error)] *)
Definition exn_str (e : exn) : pystr :=
  match e with
  | AttributeError msg => msg
  | ValueError msg => msg
  | JSONDecodeError msg => msg
  | HTTPError code reason => py "HTTP Error " ++ int_str code ++ py ": " ++ reason
  | OtherError msg => msg
  end.

Inductive res (A : Type) : Type :=
| Ok (a : A)
| Raise (e : exn).
Arguments Ok {A} a.
Arguments Raise {A} e.

#[global] Instance res_ret : MRet res := fun A a => Ok a.
#[global] Instance res_bind : MBind res := fun A B f m =>
  match m with
  | Ok a => f a
  | Raise e => Raise e
  end.

Definition raised {A} (m : res A) : Prop := exists e, m = Raise e.

Definition no_attribute (v : value) (attr : string) : exn :=
  AttributeError
    (py "'" ++ type_name v ++ py "' object has no attribute '" ++ py attr ++ py "'").

(** [o.get(k, default)]; only a dict has the method. *)
Definition py_get_default (o : value) (k : pystr) (default : value) : res value :=
  match o with
  | PDict d => Ok (match dict_lookup d k with Some v => v | None => default end)
  | _ => Raise (no_attribute o "get")
  end.

(** [o.get(k)] *)
Definition py_get (o : value) (k : pystr) : res value :=
  py_get_default o k PNone.

(** ** The [datetime] routines used by [format_last_modified]

    [datetime.fromisoformat] is modelled for its documented grammar
    [YYYY-MM-DD[*HH[:MM[:SS[.fff[fff]]]][+HH:MM[:SS[.ffffff]]]]] over ASCII
    digits, and [strftime] for the one format string the program uses, in the
    C locale. *)
Module Datetime.

Record datetime : Type := mk_datetime {
  year : Z; month : Z; day : Z;
  hour : Z; minute : Z; second : Z; microsecond : Z;
  (** UTC offset in microseconds; [None] for a naive datetime *)
  tzinfo : option Z
}.

Definition is_digit (c : Z) : bool := (48 <=? c) && (c <=? 57).

(** Exactly [n] decimal digits. *)
Fixpoint parse_digits (n : nat) (acc : Z) (s : pystr) : option (Z * pystr) :=
  match n with
  | O => Some (acc, s)
  | S n' =>
      match s with
      | c :: s' =>
          if is_digit c then parse_digits n' (acc * 10 + (c - 48)) s' else None
      | [] => None
      end
  end.

(** A literal character. *)
Definition expect (c : Z) (s : pystr) : option pystr :=
  match s with
  | c' :: s' => if bool_decide (c' = c) then Some s' else None
  | [] => None
  end.

(** The fraction after the dot: three or six digits, in microseconds. *)
Definition parse_fraction (allow3 : bool) (s : pystr) : option Z :=
  match length s with
  | 3%nat =>
      if allow3 then
        '(us, r) ← parse_digits 3 0 s;
        match r with [] => Some (us * 1000) | _ => None end
      else None
  | 6%nat =>
      '(us, r) ← parse_digits 6 0 s;
      match r with [] => Some us | _ => None end
  | _ => None
  end.

(** [HH[:MM[:SS[.fff[fff]]]]], the whole of [s]. *)
Definition parse_hh_mm_ss_ff (allow3 : bool) (s : pystr)
  : option (Z * Z * Z * Z) :=
  '(h, r) ← parse_digits 2 0 s;
  match r with
  | [] => Some (h, 0, 0, 0)
  | 58 :: r =>
      '(m, r) ← parse_digits 2 0 r;
      match r with
      | [] => Some (h, m, 0, 0)
      | 58 :: r =>
          '(sec, r) ← parse_digits 2 0 r;
          match r with
          | [] => Some (h, m, sec, 0)
          | 46 :: r => us ← parse_fraction allow3 r; Some (h, m, sec, us)
          | _ => None
          end
      | _ => None
      end
  | _ => None
  end.

(** Split the time string at the first sign character. *)
Fixpoint split_tz (s : pystr) : pystr * option (Z * pystr) :=
  match s with
  | [] => ([], None)
  | c :: s' =>
      if bool_decide (c = 43) then ([], Some (1, s'))
      else if bool_decide (c = 45) then ([], Some (-1, s'))
      else let '(t, tz) := split_tz s' in (c :: t, tz)
  end.

Definition is_leap (y : Z) : bool :=
  (y mod 4 =? 0) && (negb (y mod 100 =? 0) || (y mod 400 =? 0)).

Definition days_in_month (y m : Z) : Z :=
  if m =? 2 then (if is_leap y then 29 else 28)
  else if (m =? 4) || (m =? 6) || (m =? 9) || (m =? 11) then 30
  else 31.

Definition valid_date (y m d : Z) : bool :=
  (1 <=? y) && (y <=? 9999) && (1 <=? m) && (m <=? 12)
  && (1 <=? d) && (d <=? days_in_month y m).

Definition valid_time (h m s us : Z) : bool :=
  (h <? 24) && (m <? 60) && (s <? 60) && (us <? 1000000).

Definition day_us : Z := 24 * 3600 * 1000000.

(** The offset after the sign: [HH:MM], [HH:MM:SS] or [HH:MM:SS.ffffff];
    a [timezone] needs an offset strictly inside one day. *)
Definition parse_tz (sign : Z) (s : pystr) : option Z :=
  '(h, m, sec, us) ← parse_hh_mm_ss_ff false s;
  let off := sign * (((h * 3600 + m * 60 + sec) * 1000000) + us) in
  if (- day_us <? off) && (off <? day_us) then Some off else None.

Definition parse_time (s : pystr) : option (Z * Z * Z * Z * option Z) :=
  let '(t, tz) := split_tz s in
  '(h, m, sec, us) ← parse_hh_mm_ss_ff true t;
  match tz with
  | None => Some (h, m, sec, us, None)
  | Some (sign, z) => off ← parse_tz sign z; Some (h, m, sec, us, Some off)
  end.

(** [datetime.fromisoformat(s)]; [None] stands for the [ValueError]. *)
Definition parse_iso (s : pystr) : option datetime :=
  '(y, r) ← parse_digits 4 0 s;
  r ← expect 45 r;
  '(mo, r) ← parse_digits 2 0 r;
  r ← expect 45 r;
  '(d, r) ← parse_digits 2 0 r;
  '(h, mi, sec, us, tz) ←
    match r with
    | [] => Some (0, 0, 0, 0, None)
    | _ :: t => parse_time t
    end;
  if valid_date y mo d && valid_time h mi sec us
  then Some (mk_datetime y mo d h mi sec us tz)
  else None.

Definition fromisoformat (s : pystr) : res datetime :=
  match parse_iso s with
  | Some dt => Ok dt
  | None => Raise (ValueError (py "Invalid isoformat string"))
  end.

Definition month_name (m : Z) : pystr :=
  match m with
  | 1 => py "January" | 2 => py "February" | 3 => py "March"
  | 4 => py "April" | 5 => py "May" | 6 => py "June"
  | 7 => py "July" | 8 => py "August" | 9 => py "September"
  | 10 => py "October" | 11 => py "November" | _ => py "December"
  end.

(** [tzname()] of a fixed-offset [timezone]. *)
Definition name_from_offset (off : Z) : pystr :=
  if off =? 0 then py "UTC"
  else
    let sign := if off <? 0 then py "-" else py "+" in
    let delta := Z.abs off in
    let hours := delta / (3600 * 1000000) in
    let rest := delta mod (3600 * 1000000) in
    let minutes := rest / (60 * 1000000) in
    let rest := rest mod (60 * 1000000) in
    let seconds := rest / 1000000 in
    let microseconds := rest mod 1000000 in
    let hm := py "UTC" ++ sign ++ zero_pad 2 hours ++ py ":" ++ zero_pad 2 minutes in
    if negb (microseconds =? 0) then
      hm ++ py ":" ++ zero_pad 2 seconds ++ py "." ++ zero_pad 6 microseconds
    else if negb (seconds =? 0) then hm ++ py ":" ++ zero_pad 2 seconds
    else hm.

Definition tzname (dt : datetime) : pystr :=
  match tzinfo dt with
  | Some off => name_from_offset off
  | None => []
  end.

Definition hour12 (h : Z) : Z :=
  if h mod 12 =? 0 then 12 else h mod 12.

(** [dt.strftime("%B %d, %Y, %I:%M:%S %p %Z")] *)
Definition strftime (dt : datetime) : pystr :=
  month_name (month dt) ++ py " " ++ zero_pad 2 (day dt) ++ py ", "
  ++ zero_pad 4 (year dt) ++ py ", "
  ++ zero_pad 2 (hour12 (hour dt)) ++ py ":" ++ zero_pad 2 (minute dt)
  ++ py ":" ++ zero_pad 2 (second dt) ++ py " "
  ++ (if hour dt <? 12 then py "AM" else py "PM") ++ py " " ++ tzname dt.

End Datetime.

(** ** [format_last_modified] *)

(** [s.replace(old, new)] as a method call: only a [str] has it here. *)
Definition py_replace (o : value) (old new : pystr) : res pystr :=
  match o with
  | PStr s => Ok (replace old new s)
  | _ => Raise (no_attribute o "replace")
  end.

Definition format_last_modified (last_modified : value) : value :=
  if negb (truthy last_modified) then PNone
  else
    match
      (s ← py_replace last_modified (py "Z") (py "+00:00");
       dt ← Datetime.fromisoformat s;
       mret (Datetime.strftime dt))
    with
    | Ok formatted => PStr formatted
    | Raise _ => last_modified
    end.

(** ** The [json] routines: [json.dumps] and [json.loads]

    [dumps] with the default options of the program's call: ASCII-only
    output, item separator [", "], key separator [": "].  [loads] follows the
    decoder's scanner; its error messages are kept without their position
    suffix.  A float literal (also [NaN] and [Infinity]) is outside the model
    and is reported as [Unmodelled]. *)
Module Json.

Definition hex_digit (d : Z) : Z := if d <? 10 then 48 + d else 87 + d.

(** [format(n, "04x")] for [0 <= n < 0x10000] *)
Definition hex4 (n : Z) : pystr :=
  [hex_digit (n / 4096 mod 16); hex_digit (n / 256 mod 16);
   hex_digit (n / 16 mod 16); hex_digit (n mod 16)].

Definition u_escape (n : Z) : pystr := 92 :: 117 :: hex4 n.

(** The replacement of one character by [encode_basestring_ascii]. *)
Definition escape_char (c : Z) : pystr :=
  if c =? 34 then [92; 34]
  else if c =? 92 then [92; 92]
  else if c =? 8 then [92; 98]
  else if c =? 12 then [92; 102]
  else if c =? 10 then [92; 110]
  else if c =? 13 then [92; 114]
  else if c =? 9 then [92; 116]
  else if (32 <=? c) && (c <=? 126) then [c]
  else if c <? 0x10000 then u_escape c
  else
    let n := c - 0x10000 in
    let s1 := Z.lor 0xd800 (Z.land (Z.shiftr n 10) 0x3ff) in
    let s2 := Z.lor 0xdc00 (Z.land n 0x3ff) in
    u_escape s1 ++ u_escape s2.

Fixpoint escape (s : pystr) : pystr :=
  match s with
  | [] => []
  | c :: s' => escape_char c ++ escape s'
  end.

Definition encode_string (s : pystr) : pystr := 34 :: escape s ++ [34].

Fixpoint dumps (v : value) : pystr :=
  match v with
  | PNone => py "null"
  | PBool true => py "true"
  | PBool false => py "false"
  | PInt n => int_str n
  | PStr s => encode_string s
  | PList items => py "[" ++ join (py ", ") (dumps <$> items) ++ py "]"
  | PDict entries =>
      py "{"
      ++ join (py ", ")
           ((fun kv => encode_string kv.1 ++ py ": " ++ dumps kv.2) <$> entries)
      ++ py "}"
  end.

Definition err (msg : string) : exn := JSONDecodeError (py msg).

(** Not a Python exception: the input leaves the model (a float literal). *)
Definition Unmodelled : exn := OtherError (py "float literal: outside the model").

Definition is_ws (c : Z) : bool :=
  (c =? 32) || (c =? 9) || (c =? 10) || (c =? 13).

Fixpoint skip_ws (s : pystr) : pystr :=
  match s with
  | c :: r => if is_ws c then skip_ws r else s
  | [] => []
  end.

Definition hex_val (c : Z) : option Z :=
  if (48 <=? c) && (c <=? 57) then Some (c - 48)
  else if (97 <=? c) && (c <=? 102) then Some (c - 87)
  else if (65 <=? c) && (c <=? 70) then Some (c - 55)
  else None.

Definition decode_hex4 (a b c d : Z) : option Z :=
  x1 ← hex_val a; x2 ← hex_val b; x3 ← hex_val c; x4 ← hex_val d;
  Some (((x1 * 16 + x2) * 16 + x3) * 16 + x4).

(** The character a one-letter escape stands for. *)
Definition unescape (e : Z) : option Z :=
  if e =? 34 then Some 34
  else if e =? 92 then Some 92
  else if e =? 47 then Some 47
  else if e =? 98 then Some 8
  else if e =? 102 then Some 12
  else if e =? 110 then Some 10
  else if e =? 114 then Some 13
  else if e =? 116 then Some 9
  else None.

Definition is_high_surrogate (u : Z) : bool := (0xd800 <=? u) && (u <=? 0xdbff).
Definition is_low_surrogate (u : Z) : bool := (0xdc00 <=? u) && (u <=? 0xdfff).

Definition join_surrogates (u u2 : Z) : Z :=
  0x10000 + Z.lor (Z.shiftl (u - 0xd800) 10) (u2 - 0xdc00).

(** [scanstring], strict mode, from just after the opening quote: the
    decoded string and the input after the closing quote. *)
Fixpoint scanstring (s : pystr) : res (pystr * pystr) :=
  match s with
  | [] => Raise (err "Unterminated string starting at")
  | c :: r =>
      if c =? 34 then Ok ([], r)
      else if c =? 92 then
        match r with
        | [] => Raise (err "Unterminated string starting at")
        | e :: r1 =>
            if e =? 117 then
              match r1 with
              | h1 :: h2 :: h3 :: h4 :: r2 =>
                  match decode_hex4 h1 h2 h3 h4 with
                  | None => Raise (err "Invalid \uXXXX escape")
                  | Some uni =>
                      match r2 with
                      | b :: u :: r3 =>
                          if is_high_surrogate uni && (b =? 92) && (u =? 117) then
                            match r3 with
                            | g1 :: g2 :: g3 :: g4 :: r4 =>
                                match decode_hex4 g1 g2 g3 g4 with
                                | None => Raise (err "Invalid \uXXXX escape")
                                | Some uni2 =>
                                    if is_low_surrogate uni2 then
                                      '(str, rest) ← scanstring r4;
                                      Ok (join_surrogates uni uni2 :: str, rest)
                                    else
                                      '(str, rest) ← scanstring r2;
                                      Ok (uni :: str, rest)
                                end
                            | _ => Raise (err "Invalid \uXXXX escape")
                            end
                          else
                            '(str, rest) ← scanstring r2;
                            Ok (uni :: str, rest)
                      | _ =>
                          '(str, rest) ← scanstring r2;
                          Ok (uni :: str, rest)
                      end
                  end
              | _ => Raise (err "Invalid \uXXXX escape")
              end
            else
              match unescape e with
              | Some ch => '(str, rest) ← scanstring r1; Ok (ch :: str, rest)
              | None => Raise (err "Invalid \escape")
              end
        end
      else if c <? 32 then Raise (err "Invalid control character at")
      else '(str, rest) ← scanstring r; Ok (c :: str, rest)
  end.

Definition is_digit (c : Z) : bool := (48 <=? c) && (c <=? 57).

Fixpoint scan_digits (acc : Z) (s : pystr) : Z * pystr :=
  match s with
  | c :: r => if is_digit c then scan_digits (acc * 10 + (c - 48)) r else (acc, s)
  | [] => (acc, [])
  end.

(** The integer part of a number: [0], or a non-zero digit and more digits. *)
Definition scan_nat (s : pystr) : option (Z * pystr) :=
  match s with
  | c :: r =>
      if c =? 48 then Some (0, r)
      else if is_digit c then Some (scan_digits (c - 48) r)
      else None
  | [] => None
  end.

(** The integer part with its optional minus sign. *)
Definition scan_int (s : pystr) : option (Z * pystr) :=
  match s with
  | c :: r =>
      if c =? 45 then '(n, r') ← scan_nat r; Some (- n, r')
      else scan_nat s
  | [] => None
  end.

Definition starts_with_digit (s : pystr) : bool :=
  match s with c :: _ => is_digit c | [] => false end.

(** Does a fraction (a dot and a digit) or an exponent ([e] or [E], an
    optional sign, a digit) follow?  Then the literal is a float. *)
Definition float_follows (s : pystr) : bool :=
  match s with
  | c :: r =>
      if c =? 46 then starts_with_digit r
      else if (c =? 101) || (c =? 69) then
        match r with
        | d :: r' =>
            if (d =? 43) || (d =? 45) then starts_with_digit r'
            else is_digit d
        | [] => false
        end
      else false
  | [] => false
  end.

(** [s.startswith(p)] *)
Definition is_prefix_of (p s : pystr) : bool :=
  match strip_prefix p s with Some _ => true | None => false end.

Definition is_prefix (p : string) (s : pystr) : bool := is_prefix_of (py p) s.

(** [dict(pairs)]: a repeated key keeps its first position and its last value. *)
Definition dict_of_pairs (pairs : list (pystr * value)) : dict :=
  foldl (fun d kv => dict_set d kv.1 kv.2) [] pairs.

(** [scan_once]; the loops of [JSONArray] and [JSONObject] are
    [array_items] and [object_items].  [fuel] bounds the nesting and the
    number of items; [loads] gives enough for any input. *)
Fixpoint scan_once (fuel : nat) (s : pystr) : res (value * pystr) :=
  match fuel with
  | O => Raise (OtherError (py "maximum recursion depth exceeded"))
  | S fuel' =>
      match s with
      | [] => Raise (err "Expecting value")
      | c :: r =>
          if c =? 34 then
            '(str, rest) ← scanstring r; Ok (PStr str, rest)
          else if c =? 123 then
            match skip_ws r with
            | q :: r' =>
                if q =? 125 then Ok (PDict [], r')
                else if q =? 34 then
                  '(pairs, rest) ← object_items fuel' r';
                  Ok (PDict (dict_of_pairs pairs), rest)
                else Raise (err "Expecting property name enclosed in double quotes")
            | [] => Raise (err "Expecting property name enclosed in double quotes")
            end
          else if c =? 91 then
            match skip_ws r with
            | q :: r' =>
                if q =? 93 then Ok (PList [], r')
                else '(items, rest) ← array_items fuel' (q :: r'); Ok (PList items, rest)
            | [] => Raise (err "Expecting value")
            end
          else
            match strip_prefix (py "null") s with
            | Some rest => Ok (PNone, rest)
            | None =>
            match strip_prefix (py "true") s with
            | Some rest => Ok (PBool true, rest)
            | None =>
            match strip_prefix (py "false") s with
            | Some rest => Ok (PBool false, rest)
            | None =>
            match scan_int s with
            | Some (n, rest) =>
                if float_follows rest then Raise Unmodelled else Ok (PInt n, rest)
            | None =>
                if is_prefix "NaN" s || is_prefix "Infinity" s || is_prefix "-Infinity" s
                then Raise Unmodelled
                else Raise (err "Expecting value")
            end end end end
      end
  end
with array_items (fuel : nat) (s : pystr) : res (list value * pystr) :=
  match fuel with
  | O => Raise (OtherError (py "maximum recursion depth exceeded"))
  | S fuel' =>
      '(v, r) ← scan_once fuel' s;
      match skip_ws r with
      | c :: r' =>
          if c =? 93 then Ok ([v], r')
          else if c =? 44 then
            '(vs, rest) ← array_items fuel' (skip_ws r'); Ok (v :: vs, rest)
          else Raise (err "Expecting ',' delimiter")
      | [] => Raise (err "Expecting ',' delimiter")
      end
  end
with object_items (fuel : nat) (s : pystr) : res (list (pystr * value) * pystr) :=
  match fuel with
  | O => Raise (OtherError (py "maximum recursion depth exceeded"))
  | S fuel' =>
      '(key, r) ← scanstring s;
      match skip_ws r with
      | c :: r' =>
          if c =? 58 then
            '(v, r) ← scan_once fuel' (skip_ws r');
            match skip_ws r with
            | c :: r' =>
                if c =? 125 then Ok ([(key, v)], r')
                else if c =? 44 then
                  match skip_ws r' with
                  | q :: r'' =>
                      if q =? 34 then
                        '(kvs, rest) ← object_items fuel' r'';
                        Ok ((key, v) :: kvs, rest)
                      else Raise (err "Expecting property name enclosed in double quotes")
                  | [] => Raise (err "Expecting property name enclosed in double quotes")
                  end
                else Raise (err "Expecting ',' delimiter")
            | [] => Raise (err "Expecting ',' delimiter")
            end
          else Raise (err "Expecting ':' delimiter")
      | [] => Raise (err "Expecting ':' delimiter")
      end
  end.

(** [json.loads(s)] for a [str] argument. *)
Definition loads (s : pystr) : res value :=
  if is_prefix_of [0xfeff] s then
    Raise (err "Unexpected UTF-8 BOM (decode using utf-8-sig)")
  else
    '(v, rest) ← scan_once (S (length s)) (skip_ws s);
    match skip_ws rest with
    | [] => Ok v
    | _ => Raise (err "Extra data")
    end.

End Json.

(** ** The [csv] routines: [csv.writer] and [csv.reader]

    Both for the default dialect, [excel]: the comma as delimiter, the
    double quote as quote character, doubled inside a quoted field, minimal
    quoting, line terminator [\r\n], no escape character, not strict.  The reader is the
    state machine of the C module; the states of the escape character cannot
    be reached and are left out. *)
Module Csv.

(** [field] needs quotes: it holds the delimiter, the quote character or a
    character of the line terminator. *)
Definition needs_quotes (field : pystr) : bool :=
  existsb (λ c, (c =? 44) || (c =? 34) || (c =? 13) || (c =? 10)) field.

Fixpoint double_quotes (s : pystr) : pystr :=
  match s with
  | [] => []
  | c :: r => if c =? 34 then 34 :: 34 :: double_quotes r else c :: double_quotes r
  end.

Definition write_field (field : pystr) : pystr :=
  if needs_quotes field then 34 :: double_quotes field ++ [34] else field.

(** The line [writer.writerow(row)] writes, for a row of strings; a row that
    is one empty field is written as a pair of quotes. *)
Definition write_row (row : list pystr) : pystr :=
  match row with
  | [[]] => [34; 34]
  | _ => join [44] (write_field <$> row)
  end ++ [13; 10].

(** The text of a file to which the rows were written in turn. *)
Definition write_rows (rows : list (list pystr)) : pystr :=
  concat (write_row <$> rows).

(** [csv.Error] *)
Definition Error (msg : string) : exn := OtherError (py msg).

Definition field_limit : Z := 131072.

Inductive state : Type :=
| START_RECORD
| START_FIELD
| IN_FIELD
| IN_QUOTED_FIELD
| QUOTE_IN_QUOTED_FIELD
| EAT_CRNL.

(** The reader between two characters: its state, the field being read and
    the fields of the record read so far. *)
Record parser : Type := mk_parser {
  st : state;
  field : pystr;
  fields : list pystr
}.

Definition parse_reset : parser := mk_parser START_RECORD [] [].

Definition with_state (p : parser) (next : state) : parser :=
  mk_parser next (field p) (fields p).

Definition parse_save_field (p : parser) (next : state) : parser :=
  mk_parser next [] (fields p ++ [field p]).

Definition parse_add_char (p : parser) (c : Z) (next : state) : res parser :=
  if field_limit <=? Z.of_nat (length (field p))
  then Raise (Error "field larger than field limit (131072)")
  else Ok (mk_parser next (field p ++ [c]) (fields p)).

Definition is_newline (c : Z) : bool := (c =? 10) || (c =? 13).

(** The case [START_FIELD] of [parse_process_char]; [None] is the end of a
    line. *)
Definition start_field (p : parser) (c : option Z) : res parser :=
  match c with
  | None => Ok (parse_save_field p START_RECORD)
  | Some ch =>
      if is_newline ch then Ok (parse_save_field p EAT_CRNL)
      else if ch =? 34 then Ok (with_state p IN_QUOTED_FIELD)
      else if ch =? 44 then Ok (parse_save_field p START_FIELD)
      else parse_add_char p ch IN_FIELD
  end.

Definition parse_process_char (p : parser) (c : option Z) : res parser :=
  match st p with
  | START_RECORD =>
      match c with
      | None => Ok p
      | Some ch =>
          if is_newline ch then Ok (with_state p EAT_CRNL) else start_field p c
      end
  | START_FIELD => start_field p c
  | IN_FIELD =>
      match c with
      | None => Ok (parse_save_field p START_RECORD)
      | Some ch =>
          if is_newline ch then Ok (parse_save_field p EAT_CRNL)
          else if ch =? 44 then Ok (parse_save_field p START_FIELD)
          else parse_add_char p ch IN_FIELD
      end
  | IN_QUOTED_FIELD =>
      match c with
      | None => Ok p
      | Some ch =>
          if ch =? 34 then Ok (with_state p QUOTE_IN_QUOTED_FIELD)
          else parse_add_char p ch IN_QUOTED_FIELD
      end
  | QUOTE_IN_QUOTED_FIELD =>
      match c with
      | None => Ok (parse_save_field p START_RECORD)
      | Some ch =>
          if ch =? 34 then parse_add_char p ch IN_QUOTED_FIELD
          else if ch =? 44 then Ok (parse_save_field p START_FIELD)
          else if is_newline ch then Ok (parse_save_field p EAT_CRNL)
          else parse_add_char p ch IN_FIELD
      end
  | EAT_CRNL =>
      match c with
      | None => Ok (with_state p START_RECORD)
      | Some ch =>
          if is_newline ch then Ok p
          else Raise (Error "new-line character seen in unquoted field")
      end
  end.

(** The characters of a line, then the end of the line. *)
Fixpoint process_line (p : parser) (line : pystr) : res parser :=
  match line with
  | [] => parse_process_char p None
  | c :: r => p' ← parse_process_char p (Some c); process_line p' r
  end.

(** The end of the input: a record is pending when a field has been begun
    or the input ends inside quotes. *)
Definition at_end (p : parser) : option (list pystr) :=
  match st p, field p with
  | IN_QUOTED_FIELD, _ | _, _ :: _ =>
      Some (fields (parse_save_field p START_RECORD))
  | _, [] => None
  end.

(** [next(reader)], from the parser [p]: the record and the lines left, or
    [None] at the end of the input.  Lines are read until the parser is back
    at the start of a record; input that ends inside a quoted field gives
    the record read so far. *)
Fixpoint next_record (p : parser) (lines : list pystr)
  : res (option (list pystr * list pystr)) :=
  match lines with
  | [] =>
      Ok ((λ row, (row, [])) <$> at_end p)
  | line :: rest =>
      p' ← process_line p line;
      match st p' with
      | START_RECORD => Ok (Some (fields p', rest))
      | _ => next_record p' rest
      end
  end.

Fixpoint rows_fuel (fuel : nat) (lines : list pystr) : res (list (list pystr)) :=
  match fuel with
  | O => Ok []
  | S fuel' =>
      r ← next_record parse_reset lines;
      match r with
      | None => Ok []
      | Some (row, rest) => rows ← rows_fuel fuel' rest; Ok (row :: rows)
      end
  end.

(** [list(csv.reader(lines))] *)
Definition reader (lines : list pystr) : res (list (list pystr)) :=
  rows_fuel (S (length lines)) lines.

(** The lines of a text file opened with [newline=""], as iterating over
    the file gives them: a line ends after [\n], [\r\n] or a lone [\r], and
    keeps its ending. *)
Fixpoint lines_from (cur : pystr) (text : pystr) : list pystr :=
  match text with
  | [] => match cur with [] => [] | _ => [cur] end
  | c :: r =>
      if c =? 10 then (cur ++ [10]) :: lines_from [] r
      else if c =? 13 then
        match r with
        | c' :: r' =>
            if c' =? 10 then (cur ++ [13; 10]) :: lines_from [] r'
            else (cur ++ [13]) :: lines_from [] r
        | [] => (cur ++ [13]) :: lines_from [] r
        end
      else lines_from (cur ++ [c]) r
  end.

Definition split_lines (text : pystr) : list pystr := lines_from [] text.

(** The text of a file opened with the default [newline=None]: every line
    ending is read as [\n]. *)
Fixpoint universal_newlines (text : pystr) : pystr :=
  match text with
  | [] => []
  | c :: r =>
      if c =? 13 then
        match r with
        | c' :: r' =>
            if c' =? 10 then 10 :: universal_newlines r'
            else 10 :: universal_newlines r
        | [] => 10 :: universal_newlines r
        end
      else c :: universal_newlines r
  end.

End Csv.

(** ** Well-formed values

    What [json.loads] can return: strings of code points in which no high
    surrogate is directly followed by a low one (the decoder joins such a
    pair into one character), and dicts without repeated keys. *)

Definition valid_code_point (c : Z) : bool := (0 <=? c) && (c <? 0x110000).

Fixpoint wf_str (s : pystr) : bool :=
  match s with
  | [] => true
  | c :: r =>
      valid_code_point c
      && negb (Json.is_high_surrogate c
               && match r with c' :: _ => Json.is_low_surrogate c' | [] => false end)
      && wf_str r
  end.

Fixpoint wf_value (v : value) : bool :=
  match v with
  | PStr s => wf_str s
  | PList items => forallb wf_value items
  | PDict entries =>
      bool_decide (NoDup (dict_keys entries))
      && forallb (λ kv, wf_str kv.1 && wf_value kv.2) entries
  | _ => true
  end.

(** The fuel [scan_once] needs to read back the rendering of a value. *)
Fixpoint size (v : value) : nat :=
  match v with
  | PList items => S (sum_list_with (λ x, S (size x)) items)
  | PDict entries => S (sum_list_with (λ kv, S (size kv.2)) entries)
  | _ => 1
  end.

(** The input after a rendered value: its end, or a delimiter. *)
Definition terminated (rest : pystr) : bool :=
  match rest with
  | [] => true
  | c :: _ => (c =? 44) || (c =? 93) || (c =? 125)
  end.

(** The first character of a rendered value. *)
Definition starts_value (c : Z) : bool :=
  (c =? 110) || (c =? 116) || (c =? 102) || (c =? 45) || Json.is_digit c
  || (c =? 34) || (c =? 91) || (c =? 123).

(** *** Vocabulary of the round trip *)

(** Reading one more decimal digit. *)
Definition digit_step (acc c : Z) : Z := acc * 10 + (c - 48).

(** The scanned string, one character longer. *)
Definition cons_result (c : Z) (m : res (pystr * pystr)) : res (pystr * pystr) :=
  '(str, rest) ← m; Ok (c :: str, rest).

(** The escapes of one character, by shape. *)
Inductive escape_shape (c : Z) : pystr → Prop :=
| shape_plain : c ≠ 34 → c ≠ 92 → 32 ≤ c → escape_shape c [c]
| shape_letter e : e ≠ 117 → Json.unescape e = Some c → escape_shape c [92; e]
| shape_u a b x y :
    Json.decode_hex4 a b x y = Some c → c < 0x10000 →
    escape_shape c [92; 117; a; b; x; y]
| shape_pair a b x y a' b' x' y' s1 s2 :
    Json.decode_hex4 a b x y = Some s1 →
    Json.decode_hex4 a' b' x' y' = Some s2 →
    Json.is_high_surrogate s1 = true → Json.is_low_surrogate s2 = true →
    Json.join_surrogates s1 s2 = c →
    escape_shape c [92; 117; a; b; x; y; 92; 117; a'; b'; x'; y'].

(** Nothing that reads as the escape of a low surrogate comes next. *)
Definition no_low_ahead (tail : pystr) : Prop :=
  ∀ r3, tail = 92 :: 117 :: r3 →
    ∃ g1 g2 g3 g4 r4 y, r3 = g1 :: g2 :: g3 :: g4 :: r4
      ∧ Json.decode_hex4 g1 g2 g3 g4 = Some y
      ∧ Json.is_low_surrogate y = false.

(** What the induction proves for one value. *)
Definition reads_back (v : value) : Prop :=
  wf_value v = true → ∀ fuel rest,
    (size v ≤ fuel)%nat → terminated rest = true →
    Json.scan_once fuel (Json.dumps v ++ rest) = Ok (v, rest).

(** One entry of a rendered dict. *)
Definition entry_text (kv : pystr * value) : pystr :=
  Json.encode_string kv.1 ++ py ": " ++ Json.dumps kv.2.

(** ** The program *)

(** What [urlopen] hands back when it does not raise: the status line, and
    the outcome of [response.read().decode("utf-8")]. *)
Record http_response : Type := mk_response {
  status : Z;
  reason : pystr;
  body : res pystr
}.

(** ** A sample world

    A raw record, three identifiers, a network that answers the second with
    HTTP 404 and a fourth request with a record whose
    [speciesCharacteristics] is a text, and a disk that never fails.  The
    theorems below are instantiated at it. *)

(** [repr] of a string of printable ASCII without quote or backslash. *)
Definition sample_repr (s : pystr) : pystr := 39 :: s ++ [39].

Definition sample_dict : dict :=
  [ (py "elementGlobalId", PInt 100925);
    (py "uniqueId", PStr (py "ELEMENT_GLOBAL.2.100925"));
    (py "scientificName", PStr (py "Ursus americanus"));
    (py "primaryCommonName", PStr (py "American Black Bear"));
    (py "lastModified", PStr (py "2023-05-01T12:00:00Z"));
    (py "grankReasons", PList [PStr (py "Widespread"); PStr (py "Abundant")]);
    (py "speciesGlobal", PNone);
    (py "rankInfo", PDict [(py "rangeExtent",
        PDict [(py "rangeExtentDescEn", PStr (py ">2,500,000 square km"))])]);
    (py "speciesCharacteristics", PDict
       [ (py "habitatComments", PStr (py "Forests and swamps"));
         (py "speciesTerrestrialHabitats", PList
            [ PDict [(py "terrestrialHabitat",
                PDict [(py "terrestrialHabitatDescEn", PStr (py "Forest - Conifer"))])];
              PInt 7;
              PDict [(py "terrestrialHabitat", PDict [])];
              PDict [(py "terrestrialHabitat",
                PDict [(py "terrestrialHabitatDescEn", PStr (py "Woodland - Mixed"))])] ]);
         (py "speciesMarineHabitats", PList []) ]) ].

Definition sample_record : value := PDict sample_dict.

(** A record whose [speciesCharacteristics] is a text, not a mapping. *)
Definition mistyped_record : value :=
  PDict [ (py "elementGlobalId", PInt 7);
          (py "speciesCharacteristics", PStr (py "n/a")) ].

Definition sample_urlopen (i : nat) (u : pystr) : res http_response :=
  match i with
  | 1%nat => Raise (HTTPError 404 (py "Not Found"))
  | 3%nat => Ok (mk_response 200 (py "OK") (Ok (Json.dumps mistyped_record)))
  | _ => Ok (mk_response 200 (py "OK") (Ok (Json.dumps sample_record)))
  end.

Definition sample_disk (n : nat) : option exn := None.

Definition sample_set : list pystr :=
  [ py "ELEMENT_GLOBAL.2.100925"; py "ELEMENT_GLOBAL.2.000000";
    py "ELEMENT_GLOBAL.2.105212" ].


(** A data file of five rows: an identifier with blanks around it and a
    second column, an empty row, a blank row, and two more identifiers. *)
Definition sample_exists (p : pystr) : bool := bool_decide (p = py "animals.csv").

Definition sample_rows (p : pystr) : res (list (list pystr)) :=
  Ok [ [py " ELEMENT_GLOBAL.2.100925 "; py "bear"]; []; [py "  "];
       [py "ELEMENT_GLOBAL.2.000000"]; [py "ELEMENT_GLOBAL.2.105212"] ].

(** The text of a data file without quotes: blanks around the first
    identifier and a second column, line endings of the three kinds, an empty
    line, a blank line, and no line ending after the last identifier. *)
Definition sample_text : pystr :=
  py " ELEMENT_GLOBAL.2.100925 ,bear" ++ [13; 10; 10] ++ py "  " ++ [13]
  ++ py "ELEMENT_GLOBAL.2.000000" ++ [10] ++ py "ELEMENT_GLOBAL.2.105212".

(** The rows [csv.reader] gives for a file that holds [sample_text]. *)
Definition sample_reader (p : pystr) : res (list (list pystr)) :=
  Csv.reader (Csv.split_lines (Csv.universal_newlines sample_text)).

(** Rows for the writer: plain cells, a row with a cell that holds quotes, a
    comma and a line terminator, a row of one empty cell and an empty row. *)
Definition sample_output : list (list pystr) :=
  [ [py "url"; py "elementGlobalId"]; [py "u"; [34; 97; 34; 44; 13; 10; 98]; []];
    [[]]; [] ].

(** A disk on which no flush fails, and one on which the second does. *)
Definition sample_flush (i : nat) : option exn := None.

Definition sample_full_disk (i : nat) : option exn :=
  match i with
  | 1%nat => Some (OtherError (py "[Errno 28] No space left on device"))
  | _ => None
  end.

(** A network whose every failure has an empty description. *)
Definition silent_urlopen (i : nat) (u : pystr) : res http_response :=
  Raise (OtherError []).

(** A network that answers every request with the JSON text of a list. *)
Definition array_urlopen (i : nat) (u : pystr) : res http_response :=
  Ok (mk_response 200 (py "OK") (Ok (py "[1, 2]"))).

Definition sample_stem (p : pystr) : pystr := py "animals".
Definition sample_timestamp : pystr := py "20240501_120000".
Definition sample_not_found (e : exn) : bool := false.


Definition API_HOST : pystr := py "https://explorer.natureserve.org".
Definition API_PATH : pystr := py "/api/data/taxon/".

Section App.

(** [repr(s)] of a [str]: its quoting depends on the interpreter's table of
    printable characters, so it is kept abstract. *)
Variable str_repr : pystr -> pystr.

(** [repr(v)] *)
Fixpoint py_repr (v : value) : pystr :=
  match v with
  | PNone => py "None"
  | PBool true => py "True"
  | PBool false => py "False"
  | PInt n => int_str n
  | PStr s => str_repr s
  | PList items => py "[" ++ join (py ", ") (py_repr <$> items) ++ py "]"
  | PDict entries =>
      py "{"
      ++ join (py ", ") ((fun kv => str_repr kv.1 ++ py ": " ++ py_repr kv.2) <$> entries)
      ++ py "}"
  end.

(** [str(v)] *)
Definition py_str (v : value) : pystr :=
  match v with
  | PStr s => s
  | _ => py_repr v
  end.

(** [d.get(k)] on an object known to be a dict. *)
Definition dict_get (d : dict) (k : pystr) : value :=
  match dict_lookup d k with
  | Some v => v
  | None => PNone
  end.

(** One iteration of the loop of [extract_habitat_descriptions]. *)
Definition habitat_step (habitat_key desc_key : pystr)
    (descriptions : list pystr) (item : value) : list pystr :=
  match item with
  | PDict item_d =>
      match dict_get item_d habitat_key with
      | PDict habitat_obj =>
          let desc := dict_get habitat_obj desc_key in
          if truthy desc then descriptions ++ [py_str desc] else descriptions
      | _ => descriptions
      end
  | _ => descriptions
  end.

Definition extract_habitat_descriptions
    (habitat_list : value) (habitat_key desc_key : pystr) : value :=
  if negb (truthy habitat_list) || negb (is_list habitat_list) then PNone
  else
    match habitat_list with
    | PList items =>
        let descriptions := foldl (habitat_step habitat_key desc_key) [] items in
        match descriptions with
        | [] => PNone
        | _ => PStr (join (py ", ") descriptions)
        end
    | _ => PNone
    end.

(** The table [habitat_types]: (api_key, habitat_key, desc_key, output_key). *)
Definition habitat_types : list (pystr * pystr * pystr * pystr) :=
  [ (py "speciesMarineHabitats", py "marineHabitat",
     py "marineHabitatDescEn", py "marineHabitats");
    (py "speciesTerrestrialHabitats", py "terrestrialHabitat",
     py "terrestrialHabitatDescEn", py "terrestrialHabitats");
    (py "speciesRiverineHabitats", py "riverineHabitat",
     py "riverineHabitatDescEn", py "riverineHabitats");
    (py "speciesPalustrineHabitats", py "palustrineHabitat",
     py "palustrineHabitatDescEn", py "palustrineHabitats");
    (py "speciesLacustrineHabitats", py "lacustrineHabitat",
     py "lacustrineHabitatDescEn", py "lacustrineHabitats");
    (py "speciesSubterraneanHabitats", py "subterraneanHabitat",
     py "subterraneanHabitatDescEn", py "subterraneanHabitats");
    (py "speciesEstuarineHabitats", py "estuarineHabitat",
     py "estuarineHabitatDescEn", py "estuarineHabitats") ].

(** The body of the [for] loop over [habitat_types]. *)
Definition habitat_loop_body (species_chars : value) (extracted : dict)
    (row : pystr * pystr * pystr * pystr) : res dict :=
  let '(api_key, habitat_key, desc_key, output_key) := row in
  habitat_data ← py_get species_chars api_key;
  let descriptions := extract_habitat_descriptions habitat_data habitat_key desc_key in
  mret (dict_set extracted output_key descriptions).

(** A [for] loop whose body may raise. *)
Fixpoint for_each {A S : Type} (body : S -> A -> res S) (xs : list A) (s : S) : res S :=
  match xs with
  | [] => Ok s
  | x :: xs' => s' ← body s x; for_each body xs' s'
  end.

Definition extract_data (full_data : value) : res dict :=
  sc ← py_get_default full_data (py "speciesCharacteristics") (PDict []);
  let species_chars := py_or sc (PDict []) in
  sg ← py_get_default full_data (py "speciesGlobal") (PDict []);
  let species_global := py_or sg (PDict []) in
  ri ← py_get_default full_data (py "rankInfo") (PDict []);
  let rank_info := py_or ri (PDict []) in
  re ← py_get_default rank_info (py "rangeExtent") (PDict []);
  let range_extent := py_or re (PDict []) in
  lm ← py_get full_data (py "lastModified");
  let last_modified_readable := format_last_modified lm in
  v_elementGlobalId ← py_get full_data (py "elementGlobalId");
  v_uniqueId ← py_get full_data (py "uniqueId");
  v_speciesGlobal ← py_get species_global (py "elementGlobalId");
  v_primaryCommonName ← py_get full_data (py "primaryCommonName");
  v_scientificName ← py_get full_data (py "scientificName");
  v_grankReasons ← py_get full_data (py "grankReasons");
  v_habitatComments ← py_get species_chars (py "habitatComments");
  v_rangeExtent ← py_get range_extent (py "rangeExtentDescEn");
  let extracted : dict :=
    [ (py "elementGlobalId", v_elementGlobalId);
      (py "uniqueId", v_uniqueId);
      (py "speciesGlobalElementGlobalId", v_speciesGlobal);
      (py "primaryCommonName", v_primaryCommonName);
      (py "scientificName", v_scientificName);
      (py "lastModified", last_modified_readable);
      (py "grankReasons", v_grankReasons);
      (py "habitatComments", v_habitatComments);
      (py "rangeExtent", v_rangeExtent) ] in
  for_each (habitat_loop_body species_chars) habitat_types extracted.

Definition format_csv_value (v : value) : pystr :=
  match v with
  | PNone => []
  | PDict _ | PList _ => Json.dumps v
  | _ => py_str v
  end.

(** *** The fetcher *)

(** The network: the outcome of the [i]-th call of [urlopen], on its URL. *)
Variable urlopen : nat -> pystr -> res http_response.

(** The dict a fetch returns: [{"url", "error", "data"}] on failure,
    [{"url", "data"}] on success; [error] is [None] when the key is absent. *)
Record fetch_result : Type := mk_result {
  url : pystr;
  error : option pystr;
  data : value
}.

Definition failure (u msg : pystr) : fetch_result := mk_result u (Some msg) PNone.
Definition success (u : pystr) (extracted : dict) : fetch_result :=
  mk_result u None (PDict extracted).

(** The body of the [try] block of [fetch_taxon_data]. *)
Definition fetch_attempt (u : pystr) (i : nat) : res fetch_result :=
  response ← urlopen i u;
  if negb (status response =? 200) then
    let error_msg := int_str (status response) ++ py " " ++ reason response in
    mret (failure u error_msg)
  else
    text ← body response;
    full_data ← Json.loads text;
    extracted_data ← extract_data full_data;
    mret (success u extracted_data).

Definition fetch_taxon_data (route : pystr) (i : nat) : fetch_result :=
  let u := API_HOST ++ API_PATH ++ route in
  match fetch_attempt u i with
  | Ok result => result
  | Raise (HTTPError code why) => failure u (int_str code ++ py " " ++ why)
  | Raise e => failure u (exn_str e)
  end.

(** *** The run driver *)

Definition headers : list pystr :=
  [ py "url"; py "elementGlobalId"; py "uniqueId";
    py "speciesGlobalElementGlobalId"; py "primaryCommonName";
    py "scientificName"; py "lastModified"; py "grankReasons";
    py "habitatComments"; py "rangeExtent"; py "marineHabitats";
    py "terrestrialHabitats"; py "riverineHabitats"; py "palustrineHabitats";
    py "lacustrineHabitats"; py "subterraneanHabitats"; py "estuarineHabitats" ].

(** The keys read for a success row, in the order the row lists them. *)
Definition row_keys : list pystr :=
  [ py "elementGlobalId"; py "uniqueId"; py "speciesGlobalElementGlobalId";
    py "primaryCommonName"; py "scientificName"; py "lastModified";
    py "grankReasons"; py "habitatComments"; py "rangeExtent";
    py "marineHabitats"; py "terrestrialHabitats"; py "riverineHabitats";
    py "palustrineHabitats"; py "lacustrineHabitats";
    py "subterraneanHabitats"; py "estuarineHabitats" ].

Fixpoint row_cells (record : value) (keys : list pystr) : res (list pystr) :=
  match keys with
  | [] => Ok []
  | k :: keys' =>
      v ← py_get record k;
      cells ← row_cells record keys';
      mret (format_csv_value v :: cells)
  end.

(** [result.get("error")] as a condition. *)
Definition has_error (result : fetch_result) : bool :=
  match error result with
  | Some msg => negb (bool_decide (msg = []))
  | None => false
  end.

(** The row built from a fetch result; building a success row raises when
    [data] is not a dict. *)
Definition row_of_result (result : fetch_result) : res (list pystr) :=
  if has_error result then
    mret ([url result; default [] (error result)]
          ++ replicate (length headers - 2) [])
  else
    cells ← row_cells (data result) row_keys;
    mret (url result :: cells).

(** The output file: the rows written so far, header first.  [disk n] is the
    exception, if any, that writing and flushing row number [n] raises. *)
Variable disk : nat -> option exn.

Definition writerow (file : list (list pystr)) (row : list pystr)
  : res (list (list pystr)) :=
  match disk (length file) with
  | Some e => Raise e
  | None => Ok (file ++ [row])
  end.

Record run_state : Type := mk_state {
  file : list (list pystr);
  rows_written : nat
}.

(** How a run ends: the final state, and the exception re-raised from the
    [except] block if the loop was aborted. *)
Record run_report : Type := mk_report {
  final : run_state;
  total_routes : nat;
  aborted : option exn
}.

(** One iteration of the loop over [CURRENT_SET]. *)
Definition run_step (st : run_state) (i : nat) (route : pystr) : res run_state :=
  let result := fetch_taxon_data route i in
  row ← row_of_result result;
  file' ← writerow (file st) row;
  mret (mk_state file' (S (rows_written st))).

Fixpoint run_loop (i : nat) (routes : list pystr) (st : run_state)
  : run_state * option exn :=
  match routes with
  | [] => (st, None)
  | route :: routes' =>
      match run_step st i route with
      | Ok st' => run_loop (S i) routes' st'
      | Raise e => (st, Some e)
      end
  end.

(** [fetch_data], for the identifier list [CURRENT_SET]. *)
Definition fetch_data (CURRENT_SET : list pystr) : run_report :=
  let total := length CURRENT_SET in
  match writerow [] headers with
  | Raise e => mk_report (mk_state [] 0) total (Some e)
  | Ok file0 =>
      let '(st, exc) := run_loop 0 CURRENT_SET (mk_state file0 0) in
      mk_report st total exc
  end.


(** *** The store: lists and dicts as shared objects

    [extract_data] once more, now on objects with identity: a list or a dict
    lives in a store and is held by its address, so that a mutation is seen
    through every reference to it.  The objects the function creates (the
    [{}] defaults, the [descriptions] lists, the [extracted] dict) are
    allocated in the store, and [append] and item assignment update it in
    place. *)

(** What a name or a container slot holds: an immutable object, by value, or
    the address of a list or a dict. *)
Inductive ref : Type :=
| RNone
| RBool (b : bool)
| RInt (n : Z)
| RStr (s : pystr)
| RObj (a : nat).

Inductive obj : Type :=
| OList (items : list ref)
| ODict (entries : list (pystr * ref)).

(** The store: the object at address [a] is the [a]-th element. *)
Abbreviation store := (list obj).

(** The value a reference stands for, given the values of the objects. *)
Definition ref_value (vs : list value) (r : ref) : value :=
  match r with
  | RNone => PNone
  | RBool b => PBool b
  | RInt n => PInt n
  | RStr s => PStr s
  | RObj a => default PNone (vs !! a)
  end.

Definition obj_value (vs : list value) (o : obj) : value :=
  match o with
  | OList items => PList (ref_value vs <$> items)
  | ODict entries => PDict (prod_map id (ref_value vs) <$> entries)
  end.

(** The values of the objects of a store, in address order: an object is
    read with the values of the objects before it. *)
Fixpoint values_from (acc : list value) (h : store) : list value :=
  match h with
  | [] => acc
  | o :: h' => values_from (acc ++ [obj_value acc o]) h'
  end.

Definition values (h : store) : list value := values_from [] h.

(** The value of a reference in a store. *)
Definition denote (h : store) (r : ref) : value := ref_value (values h) r.

(** [r] is immutable, or an address below [n]. *)
Definition ref_below (n : nat) (r : ref) : Prop :=
  match r with
  | RObj a => (a < n)%nat
  | _ => True
  end.

Definition obj_refs (o : obj) : list ref :=
  match o with
  | OList items => items
  | ODict entries => snd <$> entries
  end.

(** A store of trees, numbered children first: the object at address [a]
    holds addresses below [a] only. *)
Definition store_ok (h : store) : Prop :=
  ∀ a o, h !! a = Some o → Forall (ref_below a) (obj_refs o).

(** Computations on the store that may raise. *)
Definition st (A : Type) : Type := store → res A * store.

Definition st_ret {A : Type} (a : A) : st A := λ h, (Ok a, h).

Definition st_bind {A B : Type} (m : st A) (f : A → st B) : st B :=
  λ h, match m h with
       | (Ok a, h') => f a h'
       | (Raise e, h') => (Raise e, h')
       end.

(** A computation that only reads the store. *)
Definition st_read {A : Type} (f : store → res A) : st A := λ h, (f h, h).

(** A new list or dict. *)
Definition new_obj (o : obj) : st ref := λ h, (Ok (RObj (length h)), h ++ [o]).

Definition ref_truthy (h : store) (r : ref) : bool :=
  match r with
  | RNone => false
  | RBool b => b
  | RInt n => negb (n =? 0)
  | RStr s => negb (bool_decide (s = []))
  | RObj a =>
      match h !! a with
      | Some (OList items) => negb (bool_decide (items = []))
      | Some (ODict entries) => match entries with [] => false | _ => true end
      | None => false
      end
  end.

Definition ref_is_list (h : store) (r : ref) : bool :=
  match r with
  | RObj a => match h !! a with Some (OList _) => true | _ => false end
  | _ => false
  end.

Definition ref_is_dict (h : store) (r : ref) : bool :=
  match r with
  | RObj a => match h !! a with Some (ODict _) => true | _ => false end
  | _ => false
  end.

(** [o.get(k, default)] *)
Definition ref_get_default (o : ref) (k : pystr) (default : ref) (h : store)
  : res ref :=
  match o with
  | RObj a =>
      match h !! a with
      | Some (ODict entries) =>
          Ok (match dict_lookup entries k with Some r => r | None => default end)
      | _ => Raise (no_attribute (denote h o) "get")
      end
  | _ => Raise (no_attribute (denote h o) "get")
  end.

Definition st_get_default (o : ref) (k : pystr) (default : ref) : st ref :=
  st_read (ref_get_default o k default).

Definition st_get (o : ref) (k : pystr) : st ref := st_get_default o k RNone.

(** [x or <new dict>]: the dict is created only when [x] is falsy. *)
Definition st_or_new (x : ref) : st ref :=
  λ h, if ref_truthy h x then (Ok x, h) else new_obj (ODict []) h.

(** The items of a list, as a [for] loop over it reads them. *)
Definition ref_items (h : store) (r : ref) : list ref :=
  match r with
  | RObj a => match h !! a with Some (OList items) => items | _ => [] end
  | _ => []
  end.

(** [l.append(x)] *)
Definition st_append (l : ref) (x : ref) : st unit :=
  λ h, match l with
       | RObj a =>
           match h !! a with
           | Some (OList items) => (Ok (), <[a := OList (items ++ [x])]> h)
           | _ => (Raise (no_attribute (denote h l) "append"), h)
           end
       | _ => (Raise (no_attribute (denote h l) "append"), h)
       end.

(** [d[k] = x] *)
Definition st_setitem (d : ref) (k : pystr) (x : ref) : st unit :=
  λ h, match d with
       | RObj a =>
           match h !! a with
           | Some (ODict entries) => (Ok (), <[a := ODict (dict_set entries k x)]> h)
           | _ => (Raise (OtherError (py "object does not support item assignment")), h)
           end
       | _ => (Raise (OtherError (py "object does not support item assignment")), h)
       end.

(** The text of a [str] object. *)
Definition ref_text (r : ref) : pystr :=
  match r with RStr s => s | _ => [] end.

(** [for x in xs: body(x)] *)
Fixpoint st_for_each {A : Type} (body : A → st unit) (xs : list A) : st unit :=
  match xs with
  | [] => st_ret ()
  | x :: xs' => st_bind (body x) (λ _, st_for_each body xs')
  end.

Definition format_last_modified_st (last_modified : ref) : st ref :=
  st_read (λ h,
    if negb (ref_truthy h last_modified) then Ok RNone
    else
      match last_modified with
      | RStr s =>
          match Datetime.fromisoformat (replace (py "Z") (py "+00:00") s) with
          | Ok dt => Ok (RStr (Datetime.strftime dt))
          | Raise _ => Ok last_modified
          end
      | _ => Ok last_modified
      end).

(** The body of the loop of [extract_habitat_descriptions]. *)
Definition habitat_step_st (habitat_key desc_key : pystr) (descriptions : ref)
    (item : ref) : st unit :=
  λ h,
    if ref_is_dict h item then
      st_bind (st_get item habitat_key) (λ habitat_obj h,
        if ref_is_dict h habitat_obj then
          st_bind (st_get habitat_obj desc_key) (λ desc h,
            if ref_truthy h desc
            then st_append descriptions (RStr (py_str (denote h desc))) h
            else (Ok (), h)) h
        else (Ok (), h)) h
    else (Ok (), h).

Definition extract_habitat_descriptions_st
    (habitat_list : ref) (habitat_key desc_key : pystr) : st ref :=
  λ h,
    if negb (ref_truthy h habitat_list) || negb (ref_is_list h habitat_list)
    then (Ok RNone, h)
    else
      st_bind (new_obj (OList [])) (λ descriptions,
        st_bind
          (st_for_each (habitat_step_st habitat_key desc_key descriptions)
             (ref_items h habitat_list))
          (λ _, st_read (λ h,
             match ref_items h descriptions with
             | [] => Ok RNone
             | ds => Ok (RStr (join (py ", ") (ref_text <$> ds)))
             end))) h.

Definition habitat_loop_body_st (species_chars extracted : ref)
    (row : pystr * pystr * pystr * pystr) : st unit :=
  let '(api_key, habitat_key, desc_key, output_key) := row in
  st_bind (st_get species_chars api_key) (λ habitat_data,
  st_bind (extract_habitat_descriptions_st habitat_data habitat_key desc_key)
    (λ descriptions, st_setitem extracted output_key descriptions)).

Definition extract_data_st (full_data : ref) : st ref :=
  st_bind (new_obj (ODict [])) (λ d1,
  st_bind (st_get_default full_data (py "speciesCharacteristics") d1) (λ sc,
  st_bind (st_or_new sc) (λ species_chars,
  st_bind (new_obj (ODict [])) (λ d2,
  st_bind (st_get_default full_data (py "speciesGlobal") d2) (λ sg,
  st_bind (st_or_new sg) (λ species_global,
  st_bind (new_obj (ODict [])) (λ d3,
  st_bind (st_get_default full_data (py "rankInfo") d3) (λ ri,
  st_bind (st_or_new ri) (λ rank_info,
  st_bind (new_obj (ODict [])) (λ d4,
  st_bind (st_get_default rank_info (py "rangeExtent") d4) (λ re,
  st_bind (st_or_new re) (λ range_extent,
  st_bind (st_get full_data (py "lastModified")) (λ lm,
  st_bind (format_last_modified_st lm) (λ last_modified_readable,
  st_bind (st_get full_data (py "elementGlobalId")) (λ v_elementGlobalId,
  st_bind (st_get full_data (py "uniqueId")) (λ v_uniqueId,
  st_bind (st_get species_global (py "elementGlobalId")) (λ v_speciesGlobal,
  st_bind (st_get full_data (py "primaryCommonName")) (λ v_primaryCommonName,
  st_bind (st_get full_data (py "scientificName")) (λ v_scientificName,
  st_bind (st_get full_data (py "grankReasons")) (λ v_grankReasons,
  st_bind (st_get species_chars (py "habitatComments")) (λ v_habitatComments,
  st_bind (st_get range_extent (py "rangeExtentDescEn")) (λ v_rangeExtent,
  st_bind (new_obj (ODict
    [ (py "elementGlobalId", v_elementGlobalId);
      (py "uniqueId", v_uniqueId);
      (py "speciesGlobalElementGlobalId", v_speciesGlobal);
      (py "primaryCommonName", v_primaryCommonName);
      (py "scientificName", v_scientificName);
      (py "lastModified", last_modified_readable);
      (py "grankReasons", v_grankReasons);
      (py "habitatComments", v_habitatComments);
      (py "rangeExtent", v_rangeExtent) ])) (λ extracted,
  st_bind (st_for_each (habitat_loop_body_st species_chars extracted) habitat_types)
    (λ _, st_ret extracted)))))))))))))))))))))))).

(** A value laid out in the store, children first: the objects [json.loads]
    builds for it. *)
Fixpoint alloc (v : value) (h : store) : ref * store :=
  match v with
  | PNone => (RNone, h)
  | PBool b => (RBool b, h)
  | PInt n => (RInt n, h)
  | PStr s => (RStr s, h)
  | PList items =>
      let '(refs, h') :=
        (fix go (xs : list value) (h : store) : list ref * store :=
           match xs with
           | [] => ([], h)
           | x :: xs' =>
               let '(r, h1) := alloc x h in
               let '(rs, h2) := go xs' h1 in
               (r :: rs, h2)
           end) items h in
      (RObj (length h'), h' ++ [OList refs])
  | PDict entries =>
      let '(refs, h') :=
        (fix go (xs : list (pystr * value)) (h : store)
           : list (pystr * ref) * store :=
           match xs with
           | [] => ([], h)
           | (k, x) :: xs' =>
               let '(r, h1) := alloc x h in
               let '(rs, h2) := go xs' h1 in
               ((k, r) :: rs, h2)
           end) entries h in
      (RObj (length h'), h' ++ [ODict refs])
  end.

(** *** Vocabulary of the store properties *)

(** An object that holds no address. *)
Definition flat_obj (o : obj) : Prop := Forall (ref_below 0) (obj_refs o).

(** The reference that holds an immutable value. *)
Definition scalar_ref (v : value) : ref :=
  match v with
  | PBool b => RBool b
  | PInt n => RInt n
  | PStr s => RStr s
  | _ => RNone
  end.

(** The entries of a dict object, as values. *)
Definition denote_entries (h : store) (es : list (pystr * ref)) : dict :=
  prod_map id (denote h) <$> es.

(** [m], run in the store [h], behaves as [p]: it only adds objects, keeps the
    store a store of trees, raises what [p] raises, and returns a new dict
    whose value is the record [p] returns. *)
Definition refines (h : store) (m : st ref) (p : res dict) : Prop :=
  ∃ ext, (m h).2 = h ++ ext ∧ store_ok (h ++ ext) ∧
    match p with
    | Ok flat =>
        ∃ a, (m h).1 = Ok (RObj a) ∧ (length h ≤ a < length (h ++ ext))%nat
             ∧ denote (h ++ ext) (RObj a) = PDict flat
    | Raise e => (m h).1 = Raise e
    end.

(** [h'] extends [h]: what is below [length h] is there, with the same value. *)
Definition extends (h h' : store) : Prop :=
  ∃ ext, h' = h ++ ext.

(** A record whose fields are all absent or scalar: no list, no mapping. *)
Definition scalar_fields (flat : dict) : Prop :=
  Forall (λ kv, is_list kv.2 || is_dict kv.2 = false) flat.

(** [ref_below] and [store_ok], as tests on a concrete store. *)
Definition ref_belowb (n : nat) (r : ref) : bool :=
  match r with
  | RObj a => Nat.ltb a n
  | _ => true
  end.

(** [store_ok], as a test on a concrete store whose first address is [a]. *)
Fixpoint store_okb_from (a : nat) (h : store) : bool :=
  match h with
  | [] => true
  | o :: h' => forallb (ref_belowb a) (obj_refs o) && store_okb_from (S a) h'
  end.

Definition store_okb (h : store) : bool := store_okb_from 0 h.

(** The sample record laid out in an empty store. *)
Definition sample_store : store := (alloc sample_record []).2.
Definition sample_ref : ref := (alloc sample_record []).1.

(** *** Vocabulary of the specification *)

(** The English description of one list entry, when it has a non-empty one:
    the entry is a mapping, its category object is a mapping, and the
    description in it is truthy. *)
Definition entry_description (habitat_key desc_key : pystr) (item : value)
  : option pystr :=
  match item with
  | PDict item_d =>
      match dict_get item_d habitat_key with
      | PDict habitat_obj =>
          let desc := dict_get habitat_obj desc_key in
          if truthy desc then Some (py_str desc) else None
      | _ => None
      end
  | _ => None
  end.

(** The descriptions collected from a habitat list, in list order. *)
Definition collected_descriptions (habitat_key desc_key : pystr)
    (items : list value) : list pystr :=
  omap (entry_description habitat_key desc_key) items.

(** An intermediate value that is absent, falsy or a mapping resolves to the
    mapping the lookups below it read; a truthy non-mapping does not. *)
Definition resolve (v : value) : option dict :=
  if truthy v then
    match v with
    | PDict d => Some d
    | _ => None
    end
  else Some [].

(** The mappings behind [speciesCharacteristics], [speciesGlobal] and
    [rankInfo.rangeExtent], when all four intermediates resolve. *)
Definition intermediates (d : dict) : option (dict * dict * dict) :=
  sc ← resolve (dict_get d (py "speciesCharacteristics"));
  sg ← resolve (dict_get d (py "speciesGlobal"));
  ri ← resolve (dict_get d (py "rankInfo"));
  re ← resolve (dict_get ri (py "rangeExtent"));
  Some (sc, sg, re).

(** The habitat field of a record whose species characteristics are [sc]. *)
Definition habitat_field (sc : dict) (row : pystr * pystr * pystr * pystr)
  : pystr * value :=
  let '(api_key, habitat_key, desc_key, output_key) := row in
  (output_key, extract_habitat_descriptions (dict_get sc api_key) habitat_key desc_key).

(** The flat record of the raw record [d], field by field. *)
Definition flat_record (d sc sg re : dict) : dict :=
  [ (py "elementGlobalId", dict_get d (py "elementGlobalId"));
    (py "uniqueId", dict_get d (py "uniqueId"));
    (py "speciesGlobalElementGlobalId", dict_get sg (py "elementGlobalId"));
    (py "primaryCommonName", dict_get d (py "primaryCommonName"));
    (py "scientificName", dict_get d (py "scientificName"));
    (py "lastModified", format_last_modified (dict_get d (py "lastModified")));
    (py "grankReasons", dict_get d (py "grankReasons"));
    (py "habitatComments", dict_get sc (py "habitatComments"));
    (py "rangeExtent", dict_get re (py "rangeExtentDescEn")) ]
  ++ (habitat_field sc <$> habitat_types).

(** The message the [except] clauses of [fetch_taxon_data] record. *)
Definition handler_message (e : exn) : pystr :=
  match e with
  | HTTPError code why => int_str code ++ py " " ++ why
  | _ => exn_str e
  end.

(** An exception whose recorded message is its description, and not empty. *)
Definition described (e : exn) : Prop :=
  handler_message e = exn_str e ∧ exn_str e ≠ [].

(** *** The data file: [load_species_from_csv] *)

(** The file system as [load_species_from_csv] reads it: whether a path
    exists, and the rows [csv.reader] yields for the file at a path, or the
    exception that opening or reading it raises. *)
Variable path_exists : pystr → bool.
Variable read_rows : pystr → res (list (list pystr)).

(** What [load_species_from_csv] raises: the [FileNotFoundError] of its own,
    or what opening and reading the file raised. *)
Inductive load_exn : Type :=
| FileNotFoundError (msg : pystr)
| ReadError (e : exn).

(** The body of the loop over the rows. *)
Definition load_step (species_ids : list pystr) (row : list pystr) : list pystr :=
  match row with
  | [] => species_ids
  | first :: _ =>
      if truthy (PStr (strip first)) then species_ids ++ [strip first]
      else species_ids
  end.

Definition load_species_from_csv (file_path : pystr) : load_exn + list pystr :=
  if negb (path_exists file_path) then
    inl (FileNotFoundError (py "Data file not found: " ++ file_path))
  else
    match read_rows file_path with
    | Raise e => inl (ReadError e)
    | Ok rows => inr (foldl load_step [] rows)
    end.

(** *** The program with its effects

    The same functions, with what they do to the outside, in order: the lines
    printed, the requests issued, the rows handed to the CSV writer, the
    flushes and the pauses.  [Requested] records the call of [urlopen],
    whatever its outcome; [Wrote] and [Flushed] record a [writerow] and a
    [flush] that returned.  Printing, sleeping, creating the [results]
    directory and closing the file are taken not to raise, and the path is
    rendered as on POSIX. *)
Inductive event : Type :=
| Printed (line : pystr)
| Requested (i : nat) (u : pystr)
| Wrote (row : list pystr)
| Flushed
| Slept.

(** The body of the [try] block of [fetch_taxon_data]; [total] is
    [len(CURRENT_SET)]. *)
Definition fetch_attempt_io (u : pystr) (i total : nat)
  : list event * res fetch_result :=
  match urlopen i u with
  | Raise e => ([], Raise e)
  | Ok response =>
      if negb (status response =? 200) then
        let error_msg := int_str (status response) ++ py " " ++ reason response in
        ([Printed (py "Failed to fetch " ++ u ++ py ": " ++ error_msg)],
         Ok (failure u error_msg))
      else
        match (text ← body response;
               full_data ← Json.loads text;
               extract_data full_data) with
        | Raise e => ([], Raise e)
        | Ok extracted_data =>
            ([Printed ([10003] ++ py " Successfully fetched ("
                       ++ int_str (Z.of_nat i + 1) ++ py "/"
                       ++ int_str (Z.of_nat total) ++ py ") " ++ u)],
             Ok (success u extracted_data))
        end
  end.

Definition fetch_taxon_data_io (route : pystr) (i total : nat)
  : list event * fetch_result :=
  let u := API_HOST ++ API_PATH ++ route in
  let '(said, outcome) := fetch_attempt_io u i total in
  let before := [Printed (py "Fetching: " ++ u); Requested i u] ++ said in
  match outcome with
  | Ok result => (before, result)
  | Raise (HTTPError code why) =>
      let error_msg := int_str code ++ py " " ++ why in
      (before ++ [Printed (py "Failed to fetch " ++ u ++ py ": " ++ error_msg)],
       failure u error_msg)
  | Raise e =>
      let error_msg := exn_str e in
      (before ++ [Printed (py "Error fetching " ++ u ++ py ": " ++ error_msg)],
       failure u error_msg)
  end.

(** The exception, if any, that [csvfile.flush()] raises after data row [i];
    [disk] is then the exception that [writerow] itself raises. *)
Variable flush_error : nat → option exn.

(** [Path(datafile_name).stem], and the time stamp
    [datetime.now().strftime("%Y%m%d_%H%M%S")] of the run. *)
Variable path_stem : pystr → pystr.
Variable timestamp : pystr.

Definition output_path (datafile_name : pystr) : pystr :=
  let output_filename := path_stem datafile_name ++ py "_" ++ timestamp ++ py ".csv" in
  py "results/" ++ output_filename.

(** The loop over [enumerate(CURRENT_SET)]: the counter is incremented after
    [writerow] and before [flush]. *)
Fixpoint run_loop_io (total i : nat) (routes : list pystr) (st : run_state)
  : list event * (run_state * option exn) :=
  match routes with
  | [] => ([], (st, None))
  | route :: routes' =>
      let '(fetched, result) := fetch_taxon_data_io route i total in
      match row_of_result result with
      | Raise e => (fetched, (st, Some e))
      | Ok row =>
          match writerow (file st) row with
          | Raise e => (fetched, (st, Some e))
          | Ok file' =>
              let st' := mk_state file' (S (rows_written st)) in
              match flush_error i with
              | Some e => (fetched ++ [Wrote row], (st', Some e))
              | None =>
                  let pause :=
                    if Z.of_nat i <? Z.of_nat total - 1
                    then [Printed (py "Rate limiting..."); Slept] else [] in
                  let '(rest, out) := run_loop_io total (S i) routes' st' in
                  (fetched ++ [Wrote row; Flushed] ++ pause ++ rest, out)
              end
          end
      end
  end.

Definition fetch_data_io (datafile_name : pystr) (CURRENT_SET : list pystr)
  : list event * run_report :=
  let total := length CURRENT_SET in
  let path := output_path datafile_name in
  let '(effects, (st, exc)) :=
    match writerow [] headers with
    | Raise e => ([], (mk_state [] 0, Some e))
    | Ok file0 =>
        let '(evs, out) := run_loop_io total 0 CURRENT_SET (mk_state file0 0) in
        (Wrote headers :: evs, out)
    end in
  let counts :=
    int_str (Z.of_nat (rows_written st)) ++ py "/" ++ int_str (Z.of_nat total) in
  let said :=
    match exc with
    | None =>
        [Printed ([10; 10003] ++ py " Complete: Successfully wrote all "
                  ++ counts ++ py " rows to " ++ path)]
    | Some e =>
        [Printed ([10; 10007] ++ py " Incomplete: Only " ++ counts
                  ++ py " rows written to " ++ path);
         Printed (py "Error: " ++ exn_str e);
         Printed (py "Partial results have been saved and can be found at: "
                  ++ path)]
    end in
  (effects ++ said, mk_report st total exc).

(** *** The main block *)

(** Whether an exception raised by the file system is a
    [FileNotFoundError], the one class the main block handles. *)
Variable file_not_found : exn → bool.

(** How the process ends: normally, by [exit(code)], or on an exception
    nothing handles. *)
Inductive exit : Type :=
| Completed
| Exit (code : Z)
| Uncaught (e : exn).

(** The main block, for the value of [--datafile]. *)
Definition main_io (datafile : pystr) : list event * exit :=
  match load_species_from_csv datafile with
  | inl (FileNotFoundError msg) => ([Printed (py "Error: " ++ msg)], Exit 1)
  | inl (ReadError e) =>
      if file_not_found e then ([Printed (py "Error: " ++ exn_str e)], Exit 1)
      else ([], Uncaught e)
  | inr CURRENT_SET =>
      let loaded :=
        Printed (py "Loaded " ++ int_str (Z.of_nat (length CURRENT_SET))
                 ++ py " routes from " ++ datafile ++ [10]) in
      let '(evs, report) := fetch_data_io datafile CURRENT_SET in
      match aborted report with
      | None => (loaded :: evs, Completed)
      | Some e =>
          if file_not_found e
          then (loaded :: evs ++ [Printed (py "Error: " ++ exn_str e)], Exit 1)
          else (loaded :: evs, Uncaught e)
      end
  end.

(** The keys [extract_data] reads from the raw record itself. *)
Definition keys_read : list pystr :=
  [ py "speciesCharacteristics"; py "speciesGlobal"; py "rankInfo";
    py "lastModified"; py "elementGlobalId"; py "uniqueId";
    py "primaryCommonName"; py "scientificName"; py "grankReasons" ].

(** A printable character of ASCII: no control character, no line break,
    nothing beyond [~]. *)
Definition printable_ascii (c : Z) : Prop := 32 ≤ c ≤ 126.

(** The items of a list; nothing for any other value. *)
Definition list_items (v : value) : list value :=
  match v with
  | PList items => items
  | _ => []
  end.

(** An identifier as the loader keeps it: not empty, and with no white space
    at either end. *)
Definition clean (s : pystr) : Prop :=
  s ≠ []
  ∧ (∀ c, head s = Some c → is_space c = false)
  ∧ (∀ c, last s = Some c → is_space c = false).

(** The identifier a row of the data file gives, if any: its first cell
    stripped, when that is not empty. *)
Definition row_id (row : list pystr) : option pystr :=
  match row with
  | first :: _ => if bool_decide (strip first = []) then None else Some (strip first)
  | [] => None
  end.

(** A text as [bytes.decode("utf-8")] returns it: code points, none of them
    a surrogate. *)
Definition is_surrogate (c : Z) : bool := (0xd800 <=? c) && (c <=? 0xdfff).

Definition decoded_text (s : pystr) : bool :=
  forallb (λ c, valid_code_point c && negb (is_surrogate c)) s.

(** *** Vocabulary of the CSV properties *)

(** The characters of part of a line, without the end of the line. *)
Fixpoint run_chars (p : Csv.parser) (s : pystr) : res Csv.parser :=
  match s with
  | [] => Ok p
  | c :: r => p' ← Csv.parse_process_char p (Some c); run_chars p' r
  end.

(** What [end_of_line] leaves: the record, when the parser is back at the
    start of a record. *)
Definition record_done (q : Csv.parser) : bool :=
  match Csv.st q with
  | Csv.START_RECORD => true
  | _ => false
  end.

(** [next(reader)] read off the text of the file rather than off its lines:
    the parser takes the characters one by one, and the end of a line after
    each line ending; [pending] says that a line has been begun. *)
Fixpoint stream (q : Csv.parser) (pending : bool) (text : pystr)
  : res (option (list pystr * pystr)) :=
  match text with
  | [] =>
      if pending then
        q' ← Csv.parse_process_char q None;
        if record_done q' then Ok (Some (Csv.fields q', []))
        else Ok ((λ row, (row, [])) <$> Csv.at_end q')
      else Ok ((λ row, (row, [])) <$> Csv.at_end q)
  | c :: r =>
      q1 ← Csv.parse_process_char q (Some c);
      if c =? 10 then
        q' ← Csv.parse_process_char q1 None;
        if record_done q' then Ok (Some (Csv.fields q', r)) else stream q' false r
      else if c =? 13 then
        match r with
        | c' :: r' =>
            if c' =? 10 then
              q2 ← Csv.parse_process_char q1 (Some 10);
              q' ← Csv.parse_process_char q2 None;
              if record_done q' then Ok (Some (Csv.fields q', r'))
              else stream q' false r'
            else
              q' ← Csv.parse_process_char q1 None;
              if record_done q' then Ok (Some (Csv.fields q', r))
              else stream q' false r
        | [] =>
            q' ← Csv.parse_process_char q1 None;
            if record_done q' then Ok (Some (Csv.fields q', r))
            else stream q' false r
        end
      else stream q1 true r
  end.

(** The records of a text, one after the other. *)
Inductive unrolls : pystr → list (list pystr) → Prop :=
| unrolls_end text :
    stream Csv.parse_reset false text = Ok None → unrolls text []
| unrolls_row text row rest rows :
    text ≠ [] →
    stream Csv.parse_reset false text = Ok (Some (row, rest)) →
    unrolls rest rows → unrolls text (row :: rows).

(** The parts of a line between its commas. *)
Fixpoint split_commas (cur : pystr) (s : pystr) : list pystr :=
  match s with
  | [] => [cur]
  | c :: r => if c =? 44 then cur :: split_commas [] r else split_commas (cur ++ [c]) r
  end.

(** The row of a line without quotes: no cell for an empty line, the parts
    between the commas otherwise. *)
Definition line_row (content : pystr) : list pystr :=
  match content with
  | [] => []
  | _ => split_commas [] content
  end.

(** The lines of a text whose line endings are all [\n], without them. *)
Fixpoint text_lines (cur : pystr) (text : pystr) : list pystr :=
  match text with
  | [] => match cur with [] => [] | _ => [cur] end
  | c :: r => if c =? 10 then cur :: text_lines [] r else text_lines (cur ++ [c]) r
  end.

(** A character that is neither the delimiter, the quote nor a character of
    the line terminator: a field of such characters is written as it is. *)
Definition plain_char (c : Z) : bool :=
  negb ((c =? 44) || (c =? 34) || (c =? 13) || (c =? 10)).

(** The states of the reader before the first character of a field. *)
Definition begins_field (s : Csv.state) : bool :=
  match s with
  | Csv.START_RECORD | Csv.START_FIELD => true
  | _ => false
  end.

(** The states in which a field has been read and its delimiter is due. *)
Definition field_read (s : Csv.state) : bool :=
  match s with
  | Csv.IN_FIELD | Csv.QUOTE_IN_QUOTED_FIELD => true
  | _ => false
  end.

(** A character of a line without quotes. *)
Definition line_char (c : Z) : bool :=
  negb ((c =? 34) || (c =? 13) || (c =? 10)).

(** The reader inside a line without quotes, after its first character:
    in a field, or just after a comma. *)
Definition within_field (s : Csv.state) (cur : pystr) : Prop :=
  s = Csv.IN_FIELD ∨ (s = Csv.START_FIELD ∧ cur = []).

(** The part of a line before its first comma. *)
Fixpoint before_comma (s : pystr) : pystr :=
  match s with
  | [] => []
  | c :: r => if c =? 44 then [] else c :: before_comma r
  end.

(** The identifier a line of a data file without quotes gives, if any: the
    part before the first comma, stripped, when that is not empty. *)
Definition line_id (line : pystr) : option pystr :=
  let id := strip (before_comma line) in
  if bool_decide (id = []) then None else Some id.

(** *** Vocabulary of the effects *)

(** The requests of a trace, in order. *)
Definition requests (t : list event) : list (nat * pystr) :=
  omap (λ e, match e with Requested i u => Some (i, u) | _ => None end) t.

(** The rows handed to the writer, and the number of flushes. *)
Definition written (t : list event) : list (list pystr) :=
  omap (λ e, match e with Wrote row => Some row | _ => None end) t.

Definition is_request (e : event) : bool :=
  match e with Requested _ _ => true | _ => false end.

Definition is_pause (e : event) : bool :=
  match e with Slept => true | _ => false end.

Definition is_flush (e : event) : bool :=
  match e with Flushed => true | _ => false end.

(** The requests and the pauses of a trace, in order. *)
Definition schedule (t : list event) : list event :=
  List.filter (λ e, is_request e || is_pause e) t.

(** The number of flushes. *)
Definition flushes (t : list event) : nat := length (List.filter is_flush t).

(** The request made for each identifier: its index in the list and its URL. *)
Definition urls (CURRENT_SET : list pystr) : list (nat * pystr) :=
  imap (λ i route, (i, API_HOST ++ API_PATH ++ route)) CURRENT_SET.

(** Where a run stands: before the header, with every row fetched so far
    flushed, with a record fetched and its row not written, with a row
    written and not flushed. *)
Inductive phase : Type :=
| Start
| Ready
| Fetched
| Written.

(** The cycle of a run: the header, then for each identifier a request, the
    write of its row and a flush; a pause only between two cycles; a line is
    printed at any time. *)
Definition cycle_step (p : phase) (e : event) : option phase :=
  match e, p with
  | Printed _, _ => Some p
  | Wrote _, Start => Some Ready
  | Requested _ _, Ready => Some Fetched
  | Wrote _, Fetched => Some Written
  | Flushed, Written => Some Ready
  | Slept, Ready => Some Ready
  | _, _ => None
  end.

Fixpoint cycle (p : phase) (t : list event) : option phase :=
  match t with
  | [] => Some p
  | e :: t' =>
      match cycle_step p e with
      | Some p' => cycle p' t'
      | None => None
      end
  end.

(** The runs of the loop of [fetch_data], case by case: the list is
    exhausted; building the row raises; [writerow] raises; [flush] raises;
    the iteration completes and the loop goes on. *)
Inductive loop_run (total : nat)
  : nat → list pystr → run_state → list event → run_state → option exn → Prop :=
| run_done i st : loop_run total i [] st [] st None
| run_no_row i route routes st e :
    row_of_result (fetch_taxon_data route i) = Raise e →
    loop_run total i (route :: routes) st
      (fetch_taxon_data_io route i total).1 st (Some e)
| run_no_write i route routes st row e :
    row_of_result (fetch_taxon_data route i) = Ok row →
    disk (length (file st)) = Some e →
    loop_run total i (route :: routes) st
      (fetch_taxon_data_io route i total).1 st (Some e)
| run_no_flush i route routes st row e :
    row_of_result (fetch_taxon_data route i) = Ok row →
    disk (length (file st)) = None →
    flush_error i = Some e →
    loop_run total i (route :: routes) st
      ((fetch_taxon_data_io route i total).1 ++ [Wrote row])
      (mk_state (file st ++ [row]) (S (rows_written st))) (Some e)
| run_next i route routes st row rest st' exc :
    row_of_result (fetch_taxon_data route i) = Ok row →
    disk (length (file st)) = None →
    flush_error i = None →
    loop_run total (S i) routes
      (mk_state (file st ++ [row]) (S (rows_written st))) rest st' exc →
    loop_run total i (route :: routes) st
      ((fetch_taxon_data_io route i total).1 ++ [Wrote row; Flushed]
       ++ (if Z.of_nat i <? Z.of_nat total - 1
           then [Printed (py "Rate limiting..."); Slept] else [])
       ++ rest)
      st' exc.

(** [l] with [sep] between any two neighbours. *)
Fixpoint between {A : Type} (sep : A) (l : list A) : list A :=
  match l with
  | [] => []
  | [x] => [x]
  | x :: l' => x :: sep :: between sep l'
  end.

(** ** Properties *)

(** *** Strings and integers *)

Lemma py_cons_inv (a : ascii) (s : string) :
  py (String a s) = Z.of_N (N_of_ascii a) :: py s.
Proof. reflexivity. Qed.

Lemma digits_fuel_nonempty (fuel : nat) (n : Z) :
  digits_fuel (S fuel) n ≠ [].
Proof.
  simpl. destruct (n <? 10); [done|].
  intros H. by apply app_eq_nil in H as [_ ?].
Qed.

Lemma nat_digits_nonempty (n : Z) : nat_digits n ≠ [].
Proof.
  unfold nat_digits, digits_bound.
  destruct n; apply digits_fuel_nonempty.
Qed.

Lemma int_str_nonempty (n : Z) : int_str n ≠ [].
Proof.
  unfold int_str. destruct (n <? 0); [done|]. apply nat_digits_nonempty.
Qed.

Lemma join_nonempty (sep p : pystr) (rest : list pystr) :
  p ≠ [] → join sep (p :: rest) ≠ [].
Proof.
  intros Hp. simpl. destruct rest; [done|].
  intros H. by apply app_eq_nil in H as [? _].
Qed.

(** [str(v)] of a truthy object is never empty. *)
Lemma py_str_truthy (v : value) : truthy v = true → py_str v ≠ [].
Proof.
  destruct v as [|b|n|s|items|entries]; simpl; try done.
  - by destruct b.
  - intros _. apply int_str_nonempty.
  - intros H. by apply negb_true_iff, bool_decide_eq_false in H.
Qed.

(** *** [format_last_modified] *)

Lemma format_last_modified_falsy (v : value) :
  truthy v = false → format_last_modified v = PNone.
Proof. intros H. unfold format_last_modified. by rewrite H. Qed.

Lemma format_last_modified_str (s : pystr) :
  s ≠ [] →
  format_last_modified (PStr s) =
    match Datetime.parse_iso (replace (py "Z") (py "+00:00") s) with
    | Some dt => PStr (Datetime.strftime dt)
    | None => PStr s
    end.
Proof.
  intros Hs. unfold format_last_modified. simpl truthy.
  rewrite bool_decide_eq_false_2 by done. simpl.
  unfold Datetime.fromisoformat. by destruct Datetime.parse_iso.
Qed.


Lemma replace_fuel_trailing (fuel : nat) (old new t : pystr) (c : Z) :
  old = [c] → c ∉ t → (length t < fuel)%nat →
  replace_fuel fuel old new (t ++ [c]) = t ++ new.
Proof.
  intros -> Hc. revert fuel. induction t as [|x t IH]; intros fuel Hf.
  - destruct fuel as [|fuel]; [simpl in Hf; lia|]. simpl.
    rewrite bool_decide_eq_true_2 by done.
    destruct fuel; simpl; by rewrite app_nil_r.
  - destruct fuel as [|fuel]; [simpl in Hf; lia|].
    apply not_elem_of_cons in Hc as [Hx Hc].
    simpl. rewrite bool_decide_eq_false_2 by done.
    f_equal. apply IH; [done|]. simpl in Hf. lia.
Qed.

(** C10: [format_last_modified] treats every falsy input as absent; the
    present but empty string [""] gives [None], an empty CSV field, and is
    not passed through as a string. *)
Theorem format_last_modified_falsy_is_absent :
  (∀ v, truthy v = false → format_last_modified v = PNone)
  ∧ truthy (PStr []) = false
  ∧ format_last_modified (PStr []) = PNone
  ∧ format_csv_value (format_last_modified (PStr [])) = [].
Proof.
  split; [apply format_last_modified_falsy|]. by repeat split.
Qed.

(** C4 (amended): an absent timestamp resolves to absent; a timestamp that
    parses as ISO-8601 once every [Z] is rewritten to [+00:00] (so a trailing
    [Z] reads as the UTC offset) resolves to the reformatted string, and
    ["2023-05-01T12:00:00Z"] to ["May 01, 2023, 12:00:00 PM UTC"]; a present
    non-empty string that fails to parse is passed through unchanged. *)
Theorem format_last_modified_spec :
  format_last_modified PNone = PNone
  ∧ (∀ t, 90 ∉ t →
       replace (py "Z") (py "+00:00") (t ++ py "Z") = t ++ py "+00:00")
  ∧ (∀ s dt,
       Datetime.parse_iso (replace (py "Z") (py "+00:00") s) = Some dt →
       format_last_modified (PStr s) = PStr (Datetime.strftime dt))
  ∧ format_last_modified (PStr (py "2023-05-01T12:00:00Z"))
    = PStr (py "May 01, 2023, 12:00:00 PM UTC")
  ∧ (∀ s, s ≠ [] →
       Datetime.parse_iso (replace (py "Z") (py "+00:00") s) = None →
       format_last_modified (PStr s) = PStr s).
Proof.
  split; [done|]. split.
  { intros t Ht. unfold replace. apply replace_fuel_trailing; [done..|].
    rewrite length_app. simpl. lia. }
  split.
  { intros s dt Hparse. destruct s as [|c s]; [done|].
    rewrite format_last_modified_str by done. by rewrite Hparse. }
  split; [by vm_compute|].
  intros s Hs Hparse. rewrite format_last_modified_str by done. by rewrite Hparse.
Qed.

(** *** [extract_habitat_descriptions] *)

Lemma dict_get_head (k : pystr) (v : value) (d : dict) :
  dict_get ((k, v) :: d) k = v.
Proof. unfold dict_get. simpl. by rewrite bool_decide_eq_true_2. Qed.

Lemma entry_description_present (hk dk : pystr) (v : value) :
  entry_description hk dk (PDict [(hk, PDict [(dk, v)])])
  = if truthy v then Some (py_str v) else None.
Proof. unfold entry_description. by rewrite !dict_get_head. Qed.

Lemma entry_description_missing (hk dk : pystr) :
  entry_description hk dk (PDict [(hk, PDict [])]) = None.
Proof. unfold entry_description. by rewrite dict_get_head. Qed.

Lemma habitat_step_entry (hk dk : pystr) (acc : list pystr) (item : value) :
  habitat_step hk dk acc item
  = acc ++ option_list (entry_description hk dk item).
Proof.
  unfold habitat_step, entry_description.
  destruct item; try by rewrite app_nil_r.
  destruct (dict_get entries hk); try by rewrite app_nil_r.
  simpl. destruct (truthy _); simpl; by rewrite ?app_nil_r.
Qed.

Lemma habitat_loop_collects (hk dk : pystr) (items : list value) (acc : list pystr) :
  foldl (habitat_step hk dk) acc items = acc ++ collected_descriptions hk dk items.
Proof.
  revert acc. induction items as [|item items IH]; intros acc; simpl.
  - by rewrite app_nil_r.
  - rewrite IH, habitat_step_entry. unfold collected_descriptions. simpl.
    rewrite <- app_assoc. by destruct (entry_description hk dk item).
Qed.

Lemma entry_description_nonempty (hk dk : pystr) (item : value) (desc : pystr) :
  entry_description hk dk item = Some desc → desc ≠ [].
Proof.
  unfold entry_description. intros H.
  destruct item; try done. destruct (dict_get entries hk); try done.
  simpl in H. destruct (truthy _) eqn:Ht; [|done].
  injection H as <-. by apply py_str_truthy.
Qed.

Lemma extract_habitat_descriptions_list (hk dk : pystr) (items : list value) :
  extract_habitat_descriptions (PList items) hk dk =
    match collected_descriptions hk dk items with
    | [] => PNone
    | ds => PStr (join (py ", ") ds)
    end.
Proof.
  unfold extract_habitat_descriptions. cbn [truthy is_list].
  case_bool_decide as Hitems; [by subst|]. cbn [negb orb].
  rewrite habitat_loop_collects, app_nil_l.
  by destruct (collected_descriptions hk dk items).
Qed.

Lemma extract_habitat_descriptions_not_list (hk dk : pystr) (v : value) :
  is_list v = false → extract_habitat_descriptions v hk dk = PNone.
Proof.
  intros H. unfold extract_habitat_descriptions. rewrite H. simpl.
  by rewrite orb_true_r.
Qed.

(** C3: habitat description extraction skips the entries that are not
    mappings, collects every non-empty English description in list order and
    joins them with [", "]; a missing list, a value that is not a list, or an
    empty collection gives [None], never the empty string; the list
    [[{cat:{descEn:"A"}}, {cat:{}}, {cat:{descEn:"B"}}]] gives ["A, B"]. *)
Theorem extract_habitat_descriptions_spec (hk dk : pystr) :
  (∀ items,
     extract_habitat_descriptions (PList items) hk dk =
       match collected_descriptions hk dk items with
       | [] => PNone
       | ds => PStr (join (py ", ") ds)
       end)
  ∧ (∀ v, is_list v = false → extract_habitat_descriptions v hk dk = PNone)
  ∧ (∀ v, extract_habitat_descriptions v hk dk ≠ PStr [])
  ∧ extract_habitat_descriptions
      (PList [ PDict [(hk, PDict [(dk, PStr (py "A"))])];
               PDict [(hk, PDict [])];
               PDict [(hk, PDict [(dk, PStr (py "B"))])] ]) hk dk
    = PStr (py "A, B").
Proof.
  split; [apply extract_habitat_descriptions_list|].
  split; [apply extract_habitat_descriptions_not_list|].
  split.
  - intros v. destruct (is_list v) eqn:Hl.
    + destruct v; try done. rewrite extract_habitat_descriptions_list.
      destruct (collected_descriptions hk dk items) as [|p ps] eqn:Hc; [done|].
      intros H.
      assert (Hj : join (py ", ") (p :: ps) = []) by congruence.
      revert Hj. apply join_nonempty.
      assert (Hin : p ∈ collected_descriptions hk dk items)
        by (rewrite Hc; left).
      apply list_elem_of_omap in Hin as (item & _ & Hitem).
      by eapply entry_description_nonempty.
    + by rewrite extract_habitat_descriptions_not_list.
  - rewrite extract_habitat_descriptions_list.
    unfold collected_descriptions. cbn [omap list_omap].
    by rewrite !entry_description_present, entry_description_missing.
Qed.


(** *** [extract_data] *)

Lemma dict_set_fresh {V : Type} (d : list (pystr * V)) (k : pystr) (v : V) :
  k ∉ dict_keys d → dict_set d k v = d ++ [(k, v)].
Proof.
  induction d as [|[k' v'] d IH]; intros Hk; [done|].
  apply not_elem_of_cons in Hk as [Hne Hk]. simpl.
  rewrite bool_decide_eq_false_2 by done. by rewrite IH.
Qed.

Lemma py_get_dict (d : dict) (k : pystr) : py_get (PDict d) k = Ok (dict_get d k).
Proof. done. Qed.

Lemma resolve_or_empty (d : dict) (k : pystr) :
  py_or (match dict_lookup d k with Some v => v | None => PDict [] end) (PDict [])
  = match resolve (dict_get d k) with
    | Some m => PDict m
    | None => dict_get d k
    end.
Proof.
  unfold py_or, resolve, dict_get. destruct (dict_lookup d k) as [v|]; [|done].
  destruct (truthy v) eqn:Hv; [|done]. by destruct v.
Qed.

Lemma unresolved_get (v : value) (k : pystr) (default : value) :
  resolve v = None → py_get_default v k default = Raise (no_attribute v "get").
Proof.
  unfold resolve. destruct (truthy v); [|done]. by destruct v.
Qed.

Lemma unresolved_value (v : value) :
  resolve v = None → is_dict v = false ∧ truthy v = true.
Proof.
  unfold resolve. destruct (truthy v); [|done]. by destruct v.
Qed.

Lemma habitat_loop_fields (sc : dict) (rows : list (pystr * pystr * pystr * pystr))
    (acc : dict) :
  NoDup (dict_keys acc ++ ((λ row, row.2) <$> rows)) →
  for_each (habitat_loop_body (PDict sc)) rows acc
  = Ok (acc ++ (habitat_field sc <$> rows)).
Proof.
  revert acc. induction rows as [|[[[api hk] dk] out] rows IH]; intros acc Hnd.
  - simpl. by rewrite app_nil_r.
  - cbn [for_each habitat_loop_body]. rewrite py_get_dict. cbn [mbind res_bind mret res_ret].
    rewrite dict_set_fresh.
    + rewrite IH.
      * by rewrite <- app_assoc.
      * unfold dict_keys in *. rewrite fmap_app, <- app_assoc. exact Hnd.
    + apply NoDup_app in Hnd as (_ & Hdisj & _). intros Hin.
      apply (Hdisj _ Hin). left.
Qed.

(** The whole of [extract_data] on a mapping: the flat record when the four
    intermediates resolve, an [AttributeError] otherwise. *)
Lemma extract_data_dict (d : dict) :
  match intermediates d with
  | Some (sc, sg, re) => extract_data (PDict d) = Ok (flat_record d sc sg re)
  | None =>
      ∃ v, is_dict v = false ∧ truthy v = true
           ∧ extract_data (PDict d) = Raise (no_attribute v "get")
  end.
Proof.
  unfold intermediates, extract_data.
  cbn [py_get_default mbind res_bind option_bind].
  rewrite !resolve_or_empty.
  destruct (resolve (dict_get d (py "speciesCharacteristics"))) as [sc|] eqn:Hsc;
  destruct (resolve (dict_get d (py "speciesGlobal"))) as [sg|] eqn:Hsg;
  destruct (resolve (dict_get d (py "rankInfo"))) as [ri|] eqn:Hri;
    cbn [mbind option_bind];
    rewrite ?(unresolved_get _ _ _ Hri);
    cbn [py_get_default mbind res_bind]; rewrite ?resolve_or_empty;
    try destruct (resolve (dict_get ri (py "rangeExtent"))) as [re|] eqn:Hre;
    rewrite ?py_get_dict; cbn [mbind res_bind];
    unfold py_get;
    rewrite ?(unresolved_get _ _ _ Hsg), ?(unresolved_get _ _ _ Hsc),
      ?(unresolved_get _ _ _ Hre);
    cbn [py_get_default mbind res_bind];
    rewrite ?(unresolved_get _ _ _ Hsg), ?(unresolved_get _ _ _ Hsc),
      ?(unresolved_get _ _ _ Hre);
    first
      [ by rewrite habitat_loop_fields by compute_done
      | eexists; split_and!; [ | | reflexivity]; by eapply unresolved_value ].
Qed.


Lemma extract_data_not_dict (v : value) :
  is_dict v = false → extract_data v = Raise (no_attribute v "get").
Proof. by destruct v. Qed.

Lemma no_attribute_message (v : value) (attr : string) :
  ∃ msg, no_attribute v attr = AttributeError msg ∧ msg ≠ [].
Proof. by eexists. Qed.

(** Whatever [extract_data] raises is an [AttributeError] with a message. *)
Lemma extract_data_raises (v : value) (e : exn) :
  extract_data v = Raise e → ∃ msg, e = AttributeError msg ∧ msg ≠ [].
Proof.
  destruct (is_dict v) eqn:Hv.
  - destruct v as [| | | | |d]; try done. intros H.
    pose proof (extract_data_dict d) as Hd.
    destruct (intermediates d) as [[[sc sg] re]|]; [congruence|].
    destruct Hd as (w & _ & _ & Hw). rewrite Hw in H. injection H as <-.
    apply no_attribute_message.
  - rewrite extract_data_not_dict by done. intros [= <-].
    apply no_attribute_message.
Qed.

Lemma flat_record_keys (d sc sg re : dict) :
  dict_keys (flat_record d sc sg re) = row_keys.
Proof. done. Qed.

(** C1 (amended): on a mapping, [extract_data] returns the flat record
    without raising exactly when each of [speciesCharacteristics],
    [speciesGlobal], [rankInfo] and [rankInfo.rangeExtent] is absent, falsy
    or a mapping; an absent or falsy one resolves the fields read from it to
    absent; a truthy value that is not a mapping makes [extract_data] raise
    [AttributeError]. *)
Theorem extract_data_total_on_mappings (d : dict) :
  match intermediates d with
  | Some (sc, sg, re) =>
      extract_data (PDict d) = Ok (flat_record d sc sg re)
      ∧ dict_keys (flat_record d sc sg re) = row_keys
  | None =>
      ∃ v, is_dict v = false ∧ truthy v = true
           ∧ extract_data (PDict d) = Raise (no_attribute v "get")
  end
  ∧ (∀ v, truthy v = false → resolve v = Some [])
  ∧ (∀ m, resolve (PDict m) = Some m)
  ∧ (∀ v, is_dict v = false → truthy v = true → resolve v = None)
  ∧ (∀ sg re,
       dict_get (flat_record d [] sg re) (py "habitatComments") = PNone
       ∧ ∀ row, row ∈ habitat_types →
           dict_get (flat_record d [] sg re) row.2 = PNone)
  ∧ (∀ sc re,
       dict_get (flat_record d sc [] re) (py "speciesGlobalElementGlobalId") = PNone)
  ∧ (∀ sc sg, dict_get (flat_record d sc sg []) (py "rangeExtent") = PNone).
Proof.
  split_and!.
  - pose proof (extract_data_dict d) as Hd.
    destruct (intermediates d) as [[[sc sg] re]|]; [|done]. by split.
  - intros v Hv. unfold resolve. by rewrite Hv.
  - intros m. unfold resolve. by destruct m.
  - intros v Hd Ht. unfold resolve. rewrite Ht. by destruct v.
  - intros sg re. split; [done|]. intros row Hrow.
    unfold habitat_types in Hrow.
    repeat (apply elem_of_cons in Hrow as [->|Hrow]; [done|]).
    by apply elem_of_nil in Hrow.
  - done.
  - done.
Qed.


(** *** The errors of [json.loads] *)

Lemma bind_raises {A B : Type} (m : res A) (f : A → res B) (e : exn) :
  m ≫= f = Raise e → m = Raise e ∨ ∃ a, m = Ok a ∧ f a = Raise e.
Proof.
  destruct m as [a|e']; cbn [mbind res_bind]; intros H.
  - right. by exists a.
  - left. by injection H as ->.
Qed.

Lemma scanstring_raises (s : pystr) (e : exn) :
  Json.scanstring s = Raise e → described e.
Proof.
  remember (length s) as n eqn:Hn. revert s e Hn.
  induction n as [n IH] using lt_wf_ind. intros s e Hn H.
  destruct s as [|c r]; simpl in H; [by simplify_eq|].
  repeat case_match; simplify_eq; try (by split);
    apply bind_raises in H as [H|([str rest] & _ & H)]; try done;
    (eapply IH; [|reflexivity|exact H]); simpl; lia.
Qed.


Ltac raise_inv :=
  repeat first
    [ progress simplify_eq
    | match goal with
      | H : _ ≫= _ = Raise _ |- _ =>
          apply bind_raises in H as [H|([? ?] & ? & H)]; cbv beta iota in H
      end
    | case_match ].

Lemma scan_raises (fuel : nat) :
  (∀ s e, Json.scan_once fuel s = Raise e → described e)
  ∧ (∀ s e, Json.array_items fuel s = Raise e → described e)
  ∧ (∀ s e, Json.object_items fuel s = Raise e → described e).
Proof.
  induction fuel as [|fuel (IHv & IHa & IHo)].
  { split_and!; intros s e H; simpl in H; simplify_eq; by split. }
  split_and!; intros s e H; simpl in H; raise_inv;
    first [ by split | by eapply scanstring_raises | by eapply IHv
          | by eapply IHa | by eapply IHo ].
Qed.

Lemma loads_raises (s : pystr) (e : exn) :
  Json.loads s = Raise e → described e.
Proof.
  unfold Json.loads. intros H. raise_inv;
    first [ by split | by eapply (proj1 (scan_raises _)) ].
Qed.


(** *** Rows *)

Lemma bind_ok {A B : Type} (m : res A) (f : A → res B) (b : B) :
  m ≫= f = Ok b → ∃ a, m = Ok a ∧ f a = Ok b.
Proof.
  destruct m as [a|e']; cbn [mbind res_bind]; intros H; [|done]. by exists a.
Qed.

Lemma row_cells_dict (flat : dict) (keys : list pystr) :
  row_cells (PDict flat) keys
  = Ok ((λ k, format_csv_value (dict_get flat k)) <$> keys).
Proof.
  induction keys as [|k keys IH]; [done|].
  cbn [row_cells]. rewrite py_get_dict. cbn [mbind res_bind]. by rewrite IH.
Qed.

Lemma row_cells_length (record : value) (keys : list pystr) (cells : list pystr) :
  row_cells record keys = Ok cells → length cells = length keys.
Proof.
  revert cells. induction keys as [|k keys IH]; intros cells H.
  - by injection H as <-.
  - cbn [row_cells] in H.
    apply bind_ok in H as (v & _ & H). apply bind_ok in H as (cs & Hcs & H).
    injection H as <-. simpl. f_equal. by apply IH.
Qed.

Lemma row_of_failure (u msg : pystr) :
  msg ≠ [] → row_of_result (failure u msg) = Ok (u :: msg :: replicate 15 []).
Proof.
  intros Hmsg. unfold row_of_result, has_error. simpl.
  by rewrite bool_decide_eq_false_2.
Qed.

Lemma row_of_success (u : pystr) (flat : dict) :
  row_of_result (success u flat)
  = Ok (u :: ((λ k, format_csv_value (dict_get flat k)) <$> tail headers)).
Proof.
  unfold row_of_result, has_error. cbn [error data url success negb].
  by rewrite row_cells_dict.
Qed.

Lemma row_of_result_length (result : fetch_result) (row : list pystr) :
  row_of_result result = Ok row → length row = length headers.
Proof.
  unfold row_of_result. destruct (has_error result).
  - by intros [= <-].
  - intros H. apply bind_ok in H as (cells & Hcells & H). injection H as <-.
    apply row_cells_length in Hcells. simpl. by rewrite Hcells.
Qed.

(** C2 (amended): every row has the column count and order of the header,
    which has 17 columns: the source URL and 16 extracted values; a failure
    row is the URL, the error message in the second column, and 15 empty
    columns; a success row is the URL and the 16 serialized fields in header
    order, whichever upstream fields were present. *)
Theorem rows_follow_header :
  length headers = 17%nat
  ∧ tail headers = row_keys
  ∧ (∀ result row, row_of_result result = Ok row → length row = length headers)
  ∧ (∀ u msg, msg ≠ [] →
       row_of_result (failure u msg) = Ok (u :: msg :: replicate 15 []))
  ∧ (∀ u flat,
       row_of_result (success u flat)
       = Ok (u :: ((λ k, format_csv_value (dict_get flat k)) <$> tail headers))).
Proof.
  split_and!; [done|done|..].
  - apply row_of_result_length.
  - apply row_of_failure.
  - apply row_of_success.
Qed.

(** *** The fetcher *)

Lemma fetch_attempt_raises (route : pystr) (i : nat) (e : exn) :
  fetch_attempt (API_HOST ++ API_PATH ++ route) i = Raise e →
  fetch_taxon_data route i
  = failure (API_HOST ++ API_PATH ++ route) (handler_message e).
Proof. unfold fetch_taxon_data. intros ->. by destruct e. Qed.

Lemma fetch_attempt_returns (route : pystr) (i : nat) (r : fetch_result) :
  fetch_attempt (API_HOST ++ API_PATH ++ route) i = Ok r →
  fetch_taxon_data route i = r.
Proof. unfold fetch_taxon_data. by intros ->. Qed.

(** What a fetch attempt that returns has seen. *)
Lemma fetch_attempt_ok (u : pystr) (i : nat) (r : fetch_result) :
  fetch_attempt u i = Ok r →
  ∃ resp, urlopen i u = Ok resp ∧
    ((status resp ≠ 200
      ∧ r = failure u (int_str (status resp) ++ py " " ++ reason resp))
     ∨ (status resp = 200 ∧ ∃ text full flat,
          body resp = Ok text ∧ Json.loads text = Ok full
          ∧ extract_data full = Ok flat ∧ r = success u flat)).
Proof.
  unfold fetch_attempt. intros H.
  apply bind_ok in H as (resp & Hresp & H). exists resp. split; [done|].
  destruct (status resp =? 200) eqn:Hs; cbn [negb] in H.
  - right. apply Z.eqb_eq in Hs. split; [done|].
    apply bind_ok in H as (text & Htext & H).
    apply bind_ok in H as (full & Hfull & H).
    apply bind_ok in H as (flat & Hflat & H).
    injection H as <-. by exists text, full, flat.
  - left. apply Z.eqb_neq in Hs. split; [done|]. by injection H as <-.
Qed.

Lemma status_message_nonempty (code : Z) (why : pystr) :
  int_str code ++ py " " ++ why ≠ [].
Proof.
  intros H. apply app_eq_nil in H as [H _]. by apply int_str_nonempty in H.
Qed.



(** C9: when extraction raises on the decoded body of a 200 response, the
    catch-all of [fetch_taxon_data] turns the exception into the failure
    outcome [{url, error: <description>, data: None}]; the record gives a
    failure row and the run goes on. *)
Theorem extraction_failure_is_recorded (route : pystr) (i : nat)
    (resp : http_response) (text : pystr) (full : value) (e : exn) :
  let u := API_HOST ++ API_PATH ++ route in
  urlopen i u = Ok resp → status resp = 200 → body resp = Ok text →
  Json.loads text = Ok full → extract_data full = Raise e →
  fetch_taxon_data route i = mk_result u (Some (exn_str e)) PNone
  ∧ exn_str e ≠ []
  ∧ row_of_result (fetch_taxon_data route i)
    = Ok (u :: exn_str e :: replicate 15 [])
  ∧ ∀ st, disk (length (file st)) = None →
      run_step st i route
      = Ok (mk_state (file st ++ [u :: exn_str e :: replicate 15 []])
              (S (rows_written st))).
Proof.
  intros u Hresp Hs Hbody Hloads Hextract. subst u.
  destruct (extract_data_raises _ _ Hextract) as (msg & -> & Hmsg).
  assert (Hfetch : fetch_taxon_data route i
    = failure (API_HOST ++ API_PATH ++ route) msg).
  { rewrite (fetch_attempt_raises route i (AttributeError msg)); [done|].
    unfold fetch_attempt. rewrite Hresp. cbn [mbind res_bind].
    rewrite Hs, Hbody. cbn [negb mbind res_bind Z.eqb Pos.eqb].
    rewrite Hloads. cbn [mbind res_bind]. by rewrite Hextract. }
  split_and!; [done|done|..].
  - rewrite Hfetch. by apply row_of_failure.
  - intros st Hdisk. unfold run_step. rewrite Hfetch, row_of_failure by done.
    cbn [mbind res_bind]. unfold writerow. by rewrite Hdisk.
Qed.

(** *** The run driver *)

Lemma run_step_ok (st st' : run_state) (i : nat) (route : pystr) :
  run_step st i route = Ok st' →
  ∃ row, row_of_result (fetch_taxon_data route i) = Ok row
         ∧ file st' = file st ++ [row]
         ∧ rows_written st' = S (rows_written st).
Proof.
  unfold run_step. intros H.
  apply bind_ok in H as (row & Hrow & H).
  apply bind_ok in H as (file' & Hfile & H). injection H as <-.
  exists row. split; [done|]. unfold writerow in Hfile.
  destruct (disk (length (file st))); [done|]. by injection Hfile as <-.
Qed.

(** The loop, when it runs to its end: one row per route, in order. *)
Lemma run_loop_complete (routes : list pystr) (i : nat) (st st' : run_state) :
  run_loop i routes st = (st', None) →
  ∃ rows, file st' = file st ++ rows
    ∧ length rows = length routes
    ∧ rows_written st' = (rows_written st + length routes)%nat
    ∧ ∀ j route, routes !! j = Some route →
        ∃ row, rows !! j = Some row
               ∧ row_of_result (fetch_taxon_data route (i + j)) = Ok row.
Proof.
  revert i st. induction routes as [|route routes IH]; intros i st H.
  - injection H as <-. exists []. rewrite app_nil_r.
    split_and!; try done; simpl; lia.
  - cbn [run_loop] in H. destruct (run_step st i route) as [st1|e] eqn:Hstep; [|done].
    apply run_step_ok in Hstep as (row & Hrow & Hfile & Hcount).
    apply IH in H as (rows & Hrows & Hlen & Hwritten & Hall).
    exists (row :: rows). split_and!.
    + rewrite Hrows, Hfile. by rewrite <- app_assoc.
    + simpl. by rewrite Hlen.
    + rewrite Hwritten, Hcount. simpl. lia.
    + intros [|j] r Hr; simpl in Hr.
      * injection Hr as <-. exists row. split; [done|]. by rewrite Nat.add_0_r.
      * destruct (Hall j r Hr) as (row' & ? & Hrow'). exists row'. split; [done|].
        by replace (i + S j)%nat with (S i + j)%nat by lia.
Qed.

(** C6: in a run whose write loop is not aborted, exactly one data row is
    written per requested identifier, failures included: the count of rows
    written equals the count requested, and the file holds the header and
    then, for each identifier in order, the row of its fetch outcome; an
    identifier answered with HTTP 404 gets the row of its URL, the message
    ["404 Not Found"] and empty columns. *)
Theorem fetch_data_one_row_per_identifier (CURRENT_SET : list pystr) :
  aborted (fetch_data CURRENT_SET) = None →
  let report := fetch_data CURRENT_SET in
  rows_written (final report) = length CURRENT_SET
  ∧ total_routes report = length CURRENT_SET
  ∧ length (file (final report)) = S (length CURRENT_SET)
  ∧ file (final report) !! 0%nat = Some headers
  ∧ (∀ i route, CURRENT_SET !! i = Some route →
       ∃ row, file (final report) !! S i = Some row
              ∧ row_of_result (fetch_taxon_data route i) = Ok row)
  ∧ (∀ i route, CURRENT_SET !! i = Some route →
       urlopen i (API_HOST ++ API_PATH ++ route)
         = Raise (HTTPError 404 (py "Not Found")) →
       file (final report) !! S i
       = Some ((API_HOST ++ API_PATH ++ route) :: py "404 Not Found"
               :: replicate 15 [])).
Proof.
  intros Hdone report. subst report. revert Hdone.
  unfold fetch_data, writerow. cbn [length].
  destruct (disk 0) as [e|]; [done|]. rewrite app_nil_l.
  destruct (run_loop 0 CURRENT_SET (mk_state [headers] 0)) as [st exc] eqn:Hloop.
  cbn [aborted final total_routes]. intros ->.
  apply run_loop_complete in Hloop as (rows & Hfile & Hlen & Hwritten & Hall).
  cbn [file rows_written] in Hfile, Hwritten.
  assert (Hrows : ∀ i route, CURRENT_SET !! i = Some route →
    ∃ row, file st !! S i = Some row
           ∧ row_of_result (fetch_taxon_data route i) = Ok row).
  { intros i route Hi. destruct (Hall i route Hi) as (row & Hrow & Hres).
    exists row. by rewrite Hfile. }
  split_and!.
  - done.
  - done.
  - rewrite Hfile. simpl. by rewrite Hlen.
  - by rewrite Hfile.
  - done.
  - intros i route Hi H404. destruct (Hrows i route Hi) as (row & Hrow & Hres).
    rewrite (fetch_attempt_raises route i (HTTPError 404 (py "Not Found"))) in Hres
      by (unfold fetch_attempt; by rewrite H404).
    rewrite row_of_failure in Hres by done. injection Hres as <-. exact Hrow.
Qed.

(** *** The JSON round trip *)

(** *** Decimal digits read back *)


Lemma pos_size_bound (p : positive) : Z.pos p < 2 ^ Z.of_nat (Pos.size_nat p).
Proof.
  induction p as [p IH|p IH|]; cbn [Pos.size_nat];
    rewrite ?Nat2Z.inj_succ, ?Z.pow_succ_r by lia; lia.
Qed.

Lemma digits_bound_enough (n : Z) : 0 ≤ n → n < 2 ^ Z.of_nat (digits_bound n).
Proof.
  intros Hn. destruct n as [|p|p]; [done| |lia].
  unfold digits_bound. rewrite Nat2Z.inj_succ, Z.pow_succ_r by lia.
  pose proof (pos_size_bound p). lia.
Qed.

Lemma digits_fuel_value (fuel : nat) (n : Z) :
  0 ≤ n < 2 ^ Z.of_nat fuel → foldl digit_step 0 (digits_fuel fuel n) = n.
Proof.
  revert n. induction fuel as [|fuel IH]; intros n Hn.
  - simpl in *. lia.
  - cbn [digits_fuel]. destruct (n <? 10) eqn:Hlt.
    + unfold digit_step, digit_char. simpl. lia.
    + apply Z.ltb_ge in Hlt. rewrite foldl_app. cbn [foldl].
      rewrite IH.
      * unfold digit_step, digit_char. pose proof (Z.div_mod n 10). lia.
      * rewrite Nat2Z.inj_succ, Z.pow_succ_r in Hn by lia.
        split; [apply Z.div_pos; lia|].
        apply Z.div_lt_upper_bound; lia.
Qed.

Lemma digits_fuel_digits (fuel : nat) (n : Z) :
  0 ≤ n → Forall (λ c, Json.is_digit c = true) (digits_fuel fuel n).
Proof.
  revert n. induction fuel as [|fuel IH]; intros n Hn; [constructor|].
  cbn [digits_fuel]. destruct (n <? 10) eqn:Hlt.
  - apply Z.ltb_lt in Hlt. constructor; [|constructor].
    unfold Json.is_digit, digit_char. lia.
  - apply Forall_app. split; [apply IH, Z.div_pos; lia|].
    constructor; [|constructor]. unfold Json.is_digit, digit_char.
    pose proof (Z.mod_pos_bound n 10). lia.
Qed.

Lemma digits_fuel_head (fuel : nat) (n : Z) :
  0 < n < 2 ^ Z.of_nat fuel →
  ∃ d ds, digits_fuel fuel n = d :: ds ∧ 49 ≤ d ≤ 57.
Proof.
  revert n. induction fuel as [|fuel IH]; intros n Hn.
  - simpl in Hn. lia.
  - cbn [digits_fuel]. destruct (n <? 10) eqn:Hlt.
    + apply Z.ltb_lt in Hlt. eexists _, []. split; [done|]. unfold digit_char. lia.
    + apply Z.ltb_ge in Hlt.
      destruct (IH (n / 10)) as (d & ds & -> & Hd).
      * rewrite Nat2Z.inj_succ, Z.pow_succ_r in Hn by lia.
        split; [apply Z.div_str_pos; lia|].
        apply Z.div_lt_upper_bound; lia.
      * by eexists _, _.
Qed.

Lemma scan_digits_all (ds rest : pystr) (acc : Z) :
  Forall (λ c, Json.is_digit c = true) ds →
  Json.starts_with_digit rest = false →
  Json.scan_digits acc (ds ++ rest) = (foldl digit_step acc ds, rest).
Proof.
  intros Hds Hrest. revert acc. induction Hds as [|c ds Hc _ IH]; intros acc.
  - destruct rest as [|c r]; [done|]. simpl in *. by rewrite Hrest.
  - simpl. by rewrite Hc, IH.
Qed.

Lemma scan_nat_digits (n : Z) (rest : pystr) :
  0 ≤ n → Json.starts_with_digit rest = false →
  Json.scan_nat (nat_digits n ++ rest) = Some (n, rest).
Proof.
  intros Hn Hrest. unfold nat_digits.
  pose proof (digits_bound_enough n Hn) as Hb.
  destruct (decide (n = 0)) as [->|Hn0]; [done|].
  destruct (digits_fuel_head (digits_bound n) n) as (d & ds & Hds & Hd); [lia|].
  pose proof (digits_fuel_digits (digits_bound n) n Hn) as Hall.
  pose proof (digits_fuel_value (digits_bound n) n) as Hval.
  rewrite Hds in *. cbn [app Json.scan_nat].
  rewrite (proj2 (Z.eqb_neq d 48)) by lia.
  apply Forall_cons in Hall as [Hd1 Hall]. rewrite Hd1.
  rewrite scan_digits_all by done. do 2 f_equal.
  rewrite <- Hval by lia. done.
Qed.

Lemma nat_digits_head (n : Z) :
  0 ≤ n → ∃ d ds, nat_digits n = d :: ds ∧ Json.is_digit d = true.
Proof.
  intros Hn. pose proof (nat_digits_nonempty n) as Hne.
  pose proof (digits_fuel_digits (digits_bound n) n Hn) as Hall.
  unfold nat_digits in *.
  destruct (digits_fuel (digits_bound n) n) as [|d ds]; [done|].
  apply Forall_cons in Hall as [Hd _]. by exists d, ds.
Qed.

Lemma scan_int_str (n : Z) (rest : pystr) :
  Json.starts_with_digit rest = false →
  Json.scan_int (int_str n ++ rest) = Some (n, rest).
Proof.
  intros Hrest. unfold int_str. destruct (n <? 0) eqn:Hneg.
  - apply Z.ltb_lt in Hneg. cbn [app Json.scan_int]. simpl (45 =? 45).
    cbv iota. rewrite scan_nat_digits by (done || lia).
    simpl. do 2 f_equal. lia.
  - apply Z.ltb_ge in Hneg.
    pose proof (scan_nat_digits n rest Hneg Hrest) as H.
    destruct (nat_digits_head n Hneg) as (d & ds & Hds & Hd).
    rewrite Hds in *. cbn [app Json.scan_int] in *.
    unfold Json.is_digit in Hd.
    by rewrite (proj2 (Z.eqb_neq d 45)) by lia.
Qed.

Lemma int_str_head (n : Z) :
  ∃ c r, int_str n = c :: r ∧ ((c =? 45) || Json.is_digit c = true).
Proof.
  unfold int_str. destruct (n <? 0) eqn:Hneg.
  - by eexists _, _.
  - apply Z.ltb_ge in Hneg.
    destruct (nat_digits_head n Hneg) as (d & ds & -> & Hd).
    exists d, ds. split; [done|]. rewrite Hd. by rewrite orb_true_r.
Qed.

(** *** Escapes read back *)

Lemma hex_val_digit (d : Z) :
  0 ≤ d < 16 → Json.hex_val (Json.hex_digit d) = Some d.
Proof.
  intros Hd. unfold Json.hex_val, Json.hex_digit.
  destruct (d <? 10) eqn:H10.
  - apply Z.ltb_lt in H10.
    rewrite (proj2 (andb_true_iff _ _)) by (split; lia). f_equal. lia.
  - apply Z.ltb_ge in H10.
    rewrite (proj2 (andb_false_iff _ _)) by (right; lia).
    rewrite (proj2 (andb_true_iff _ _)) by (split; lia). f_equal. lia.
Qed.

Lemma decode_hex4_hex4 (n : Z) :
  0 ≤ n < 65536 →
  ∃ a b c d, Json.hex4 n = [a; b; c; d] ∧ Json.decode_hex4 a b c d = Some n.
Proof.
  intros Hn. eexists _, _, _, _. split; [reflexivity|].
  unfold Json.decode_hex4.
  rewrite !hex_val_digit by (apply Z.mod_pos_bound; lia).
  cbn [mbind option_bind]. f_equal. clear -Hn.
  Z.to_euclidean_division_equations. lia.
Qed.

Lemma lor_disjoint (a b : Z) :
  0 ≤ b < 1024 → Z.lor (a * 1024) b = a * 1024 + b.
Proof.
  intros Hb. rewrite <- Z.add_lor_land.
  assert (Z.land (a * 1024) b = 0) as ->; [|lia].
  apply Z.bits_inj'. intros i Hi. rewrite Z.land_spec, Z.bits_0.
  destruct (decide (i < 10)) as [Hlt|Hge].
  - change 1024 with (2 ^ 10). by rewrite Z.mul_pow2_bits_low.
  - destruct (decide (b = 0)) as [->|Hb0]; [by rewrite Z.bits_0, andb_false_r|].
    rewrite (Z.bits_above_log2 b i); [by rewrite andb_false_r|lia|].
    assert (Z.log2 b < 10); [|lia]. apply Z.log2_lt_pow2; lia.
Qed.

Lemma surrogate_pair (c : Z) :
  0x10000 ≤ c < 0x110000 →
  let n := c - 0x10000 in
  let s1 := Z.lor 0xd800 (Z.land (Z.shiftr n 10) 0x3ff) in
  let s2 := Z.lor 0xdc00 (Z.land n 0x3ff) in
  Json.is_high_surrogate s1 = true ∧ Json.is_low_surrogate s2 = true
  ∧ Json.join_surrogates s1 s2 = c.
Proof.
  intros Hc n s1 s2.
  assert (Hs1 : s1 = 0xd800 + n / 1024).
  { subst s1. change 0x3ff with (Z.ones 10). rewrite Z.land_ones by lia.
    rewrite Z.shiftr_div_pow2 by lia. change (2 ^ 10) with 1024.
    change 0xd800 with (54 * 1024). rewrite lor_disjoint.
    - rewrite Z.mod_small; [done|]. subst n. split; [apply Z.div_pos; lia|].
      apply Z.div_lt_upper_bound; lia.
    - apply Z.mod_pos_bound. lia. }
  assert (Hs2 : s2 = 0xdc00 + n mod 1024).
  { subst s2. change 0x3ff with (Z.ones 10). rewrite Z.land_ones by lia.
    change (2 ^ 10) with 1024. change 0xdc00 with (55 * 1024).
    apply lor_disjoint. apply Z.mod_pos_bound. lia. }
  assert (Hq : 0 ≤ n / 1024 < 1024).
  { subst n. split; [apply Z.div_pos; lia|]. apply Z.div_lt_upper_bound; lia. }
  pose proof (Z.mod_pos_bound n 1024 ltac:(lia)) as Hr.
  split_and!.
  - unfold Json.is_high_surrogate. rewrite Hs1. lia.
  - unfold Json.is_low_surrogate. rewrite Hs2. lia.
  - unfold Json.join_surrogates. rewrite Hs1, Hs2.
    rewrite Z.shiftl_mul_pow2 by lia. change (2 ^ 10) with 1024.
    replace (0xd800 + n / 1024 - 0xd800) with (n / 1024) by lia.
    replace (0xdc00 + n mod 1024 - 0xdc00) with (n mod 1024) by lia.
    rewrite lor_disjoint by done. pose proof (Z.div_mod n 1024). subst n. lia.
Qed.

(** *** Strings read back *)


Lemma scanstring_quote (r : pystr) : Json.scanstring (34 :: r) = Ok ([], r).
Proof. done. Qed.

Lemma scanstring_plain (c : Z) (r : pystr) :
  c ≠ 34 → c ≠ 92 → 32 ≤ c →
  Json.scanstring (c :: r) = cons_result c (Json.scanstring r).
Proof.
  intros H1 H2 H3. cbn [Json.scanstring].
  rewrite (proj2 (Z.eqb_neq c 34)), (proj2 (Z.eqb_neq c 92)) by done.
  by rewrite (proj2 (Z.ltb_ge c 32)) by done.
Qed.

Lemma scanstring_letter (e ch : Z) (r : pystr) :
  e ≠ 117 → Json.unescape e = Some ch →
  Json.scanstring (92 :: e :: r) = cons_result ch (Json.scanstring r).
Proof.
  intros H1 H2. cbn [Json.scanstring]. simpl (92 =? 34). simpl (92 =? 92).
  cbv iota. rewrite (proj2 (Z.eqb_neq e 117)) by done. by rewrite H2.
Qed.


Lemma escape_char_shape (c : Z) :
  valid_code_point c = true → escape_shape c (Json.escape_char c).
Proof.
  unfold valid_code_point. intros Hc. unfold Json.escape_char.
  repeat match goal with
  | |- context [if c =? ?k then _ else _] =>
      destruct (Z.eqb_spec c k) as [->|?]; [by apply shape_letter|]
  end.
  destruct ((32 <=? c) && (c <=? 126)) eqn:Hprint.
  { apply shape_plain; lia. }
  destruct (c <? 65536) eqn:Hbmp.
  - apply Z.ltb_lt in Hbmp.
    destruct (decode_hex4_hex4 c ltac:(lia)) as (a & b & x & y & Hh & Hd).
    unfold Json.u_escape. rewrite Hh. by apply shape_u.
  - apply Z.ltb_ge in Hbmp.
    destruct (surrogate_pair c ltac:(lia)) as (Hhi & Hlo & Hjoin).
    cbv zeta in Hhi, Hlo, Hjoin.
    set (s1 := Z.lor 55296 _) in *. set (s2 := Z.lor 56320 _) in *.
    assert (0 ≤ s1 < 65536) by (unfold Json.is_high_surrogate in Hhi; lia).
    assert (0 ≤ s2 < 65536) by (unfold Json.is_low_surrogate in Hlo; lia).
    destruct (decode_hex4_hex4 s1 ltac:(done)) as (a & b & x & y & Hh & Hd).
    destruct (decode_hex4_hex4 s2 ltac:(done)) as (a' & b' & x' & y' & Hh' & Hd').
    unfold Json.u_escape. rewrite Hh, Hh'.
    by eapply shape_pair.
Qed.

Lemma scanstring_u (a b x y : Z) (tail : pystr) :
  Json.scanstring (92 :: 117 :: a :: b :: x :: y :: tail) =
    match Json.decode_hex4 a b x y with
    | None => Raise (Json.err "Invalid \uXXXX escape")
    | Some uni =>
        match tail with
        | b' :: u' :: r3 =>
            if Json.is_high_surrogate uni && (b' =? 92) && (u' =? 117) then
              match r3 with
              | g1 :: g2 :: g3 :: g4 :: r4 =>
                  match Json.decode_hex4 g1 g2 g3 g4 with
                  | None => Raise (Json.err "Invalid \uXXXX escape")
                  | Some uni2 =>
                      if Json.is_low_surrogate uni2
                      then cons_result (Json.join_surrogates uni uni2) (Json.scanstring r4)
                      else cons_result uni (Json.scanstring tail)
                  end
              | _ => Raise (Json.err "Invalid \uXXXX escape")
              end
            else cons_result uni (Json.scanstring tail)
        | _ => cons_result uni (Json.scanstring tail)
        end
    end.
Proof. reflexivity. Qed.


Lemma scanstring_shape (c : Z) (esc tail s' rest : pystr) :
  escape_shape c esc →
  Json.scanstring tail = Ok (s', rest) →
  (Json.is_high_surrogate c = true → no_low_ahead tail) →
  Json.scanstring (esc ++ tail) = Ok (c :: s', rest).
Proof.
  intros Hshape Htail Hahead. destruct Hshape.
  - cbn [app]. rewrite scanstring_plain by done. by rewrite Htail.
  - cbn [app]. erewrite scanstring_letter by done. by rewrite Htail.
  - cbn [app]. rewrite scanstring_u, H.
    destruct (Json.is_high_surrogate c) eqn:Hhigh.
    + specialize (Hahead eq_refl).
      destruct tail as [|b' [|u' r3]]; try by rewrite Htail.
      destruct (Z.eqb_spec b' 92) as [->|?]; [|by rewrite Htail].
      destruct (Z.eqb_spec u' 117) as [->|?]; [|by rewrite Htail].
      destruct (Hahead r3 eq_refl) as (g1 & g2 & g3 & g4 & r4 & y' & -> & Hd & Hlow).
      cbn [andb]. rewrite Hd, Hlow. by rewrite Htail.
    + destruct tail as [|b' [|u' r3]]; by rewrite Htail.
  - cbn [app]. rewrite scanstring_u, H. rewrite H1. simpl (92 =? 92). simpl (117 =? 117).
    cbn [andb]. rewrite H0, H2, H3. by rewrite Htail.
Qed.

Lemma surrogates_disjoint (c : Z) :
  Json.is_high_surrogate c = true → Json.is_low_surrogate c = false.
Proof. unfold Json.is_high_surrogate, Json.is_low_surrogate. lia. Qed.

Lemma no_low_ahead_escape (s rest : pystr) :
  wf_str s = true →
  match s with c :: _ => Json.is_low_surrogate c = false | [] => True end →
  no_low_ahead (Json.escape s ++ 34 :: rest).
Proof.
  intros Hwf Hhead r3 Heq. destruct s as [|c s]; [done|].
  cbn [wf_str] in Hwf. apply andb_true_iff in Hwf as [Hwf _].
  apply andb_true_iff in Hwf as [Hvalid _].
  cbn [Json.escape] in Heq. rewrite <- app_assoc in Heq.
  destruct (escape_char_shape c Hvalid); cbn [app] in Heq; simplify_eq.
  - by eexists _, _, _, _, _, _.
  - eexists _, _, _, _, _, _. split_and!; [done..|].
    by apply surrogates_disjoint.
Qed.

Lemma scanstring_escape (s rest : pystr) :
  wf_str s = true →
  Json.scanstring (Json.escape s ++ 34 :: rest) = Ok (s, rest).
Proof.
  induction s as [|c s IH]; intros Hwf; [done|].
  pose proof Hwf as Hwf'.
  cbn [wf_str] in Hwf. apply andb_true_iff in Hwf as [Hwf Hs].
  apply andb_true_iff in Hwf as [Hvalid Hpair].
  cbn [Json.escape]. rewrite <- app_assoc.
  apply scanstring_shape; [by apply escape_char_shape|by apply IH|].
  intros Hhigh. apply no_low_ahead_escape; [done|].
  rewrite Hhigh in Hpair. destruct s; [done|]. by apply negb_true_iff in Hpair.
Qed.

Lemma scanstring_encode (s rest : pystr) :
  wf_str s = true →
  ∃ body, Json.encode_string s ++ rest = 34 :: body
          ∧ Json.scanstring body = Ok (s, rest).
Proof.
  intros Hwf. exists (Json.escape s ++ 34 :: rest). split.
  - unfold Json.encode_string. cbn [app]. by rewrite <- app_assoc.
  - by apply scanstring_escape.
Qed.

(** *** Values read back *)

Lemma value_ind' (P : value → Prop) :
  P PNone → (∀ b, P (PBool b)) → (∀ n, P (PInt n)) → (∀ s, P (PStr s)) →
  (∀ items, Forall P items → P (PList items)) →
  (∀ entries, Forall (λ kv, P kv.2) entries → P (PDict entries)) →
  ∀ v, P v.
Proof.
  intros HNone HBool HInt HStr HList HDict.
  fix IH 1. intros [|b|n|s|items|entries].
  - exact HNone.
  - apply HBool.
  - apply HInt.
  - apply HStr.
  - apply HList. induction items as [|x items IHitems]; constructor.
    + apply IH.
    + exact IHitems.
  - apply HDict. induction entries as [|[k x] entries IHentries]; constructor.
    + apply IH.
    + exact IHentries.
Qed.

Lemma terminated_rest (rest : pystr) :
  terminated rest = true →
  Json.starts_with_digit rest = false ∧ Json.float_follows rest = false
  ∧ Json.skip_ws rest = rest.
Proof.
  destruct rest as [|c r]; [done|]. unfold terminated. intros H.
  assert (Hc : c = 44 ∨ c = 93 ∨ c = 125) by lia.
  by destruct Hc as [->| [->| ->]].
Qed.

Lemma skip_ws_value (c : Z) (r : pystr) :
  starts_value c = true → Json.skip_ws (c :: r) = c :: r.
Proof.
  intros H. cbn [Json.skip_ws].
  assert (Json.is_ws c = false) as ->; [|done].
  unfold starts_value, Json.is_digit, Json.is_ws in *. lia.
Qed.

Lemma dumps_head (v : value) :
  ∃ c r, Json.dumps v = c :: r ∧ starts_value c = true.
Proof.
  destruct v as [|[]|n|s|items|entries]; try by eexists _, _.
  destruct (int_str_head n) as (c & r & Hn & Hc). exists c, r.
  split; [done|]. unfold starts_value. 
  destruct (c =? 45) eqn:H45; [by rewrite !orb_true_r|].
  cbn [orb] in Hc. rewrite Hc. by rewrite !orb_true_r.
Qed.

Lemma join_cons2 (sep x y : pystr) (rest : list pystr) :
  join sep (x :: y :: rest) = x ++ sep ++ join sep (y :: rest).
Proof. done. Qed.

Lemma scan_once_int (fuel : nat) (c : Z) (r : pystr) :
  (c =? 45) || Json.is_digit c = true →
  Json.scan_once (S fuel) (c :: r) =
    match Json.scan_int (c :: r) with
    | Some (n, rest) =>
        if Json.float_follows rest then Raise Json.Unmodelled else Ok (PInt n, rest)
    | None =>
        if Json.is_prefix "NaN" (c :: r) || Json.is_prefix "Infinity" (c :: r)
           || Json.is_prefix "-Infinity" (c :: r)
        then Raise Json.Unmodelled
        else Raise (Json.err "Expecting value")
    end.
Proof.
  intros Hc. unfold Json.is_digit in Hc. cbn [Json.scan_once].
  rewrite (proj2 (Z.eqb_neq c 34)), (proj2 (Z.eqb_neq c 123)),
    (proj2 (Z.eqb_neq c 91)) by lia.
  assert (Hnull : strip_prefix (py "null") (c :: r) = None).
  { change (py "null") with (110 :: py "ull"). cbn [strip_prefix].
    rewrite bool_decide_eq_false_2; [done|lia]. }
  assert (Htrue : strip_prefix (py "true") (c :: r) = None).
  { change (py "true") with (116 :: py "rue"). cbn [strip_prefix].
    rewrite bool_decide_eq_false_2; [done|lia]. }
  assert (Hfalse : strip_prefix (py "false") (c :: r) = None).
  { change (py "false") with (102 :: py "alse"). cbn [strip_prefix].
    rewrite bool_decide_eq_false_2; [done|lia]. }
  by rewrite Hnull, Htrue, Hfalse.
Qed.

Lemma scan_once_str_int (fuel : nat) (n : Z) (rest : pystr) :
  terminated rest = true →
  Json.scan_once (S fuel) (int_str n ++ rest) = Ok (PInt n, rest).
Proof.
  intros Hrest. destruct (terminated_rest rest Hrest) as (Hd & Hf & _).
  pose proof (scan_int_str n rest Hd) as Hscan.
  destruct (int_str_head n) as (c & r & Hn & Hc). rewrite Hn in *.
  cbn [app] in *. rewrite scan_once_int by done. by rewrite Hscan, Hf.
Qed.

Lemma dict_of_pairs_nodup (entries acc : dict) :
  NoDup (dict_keys acc ++ dict_keys entries) →
  foldl (λ d kv, dict_set d kv.1 kv.2) acc entries = acc ++ entries.
Proof.
  revert acc. induction entries as [|[k v] entries IH]; intros acc Hnd.
  - by rewrite app_nil_r.
  - cbn [foldl fst snd]. rewrite dict_set_fresh.
    + rewrite IH; [by rewrite <- app_assoc|].
      unfold dict_keys in *. rewrite fmap_app, <- app_assoc. exact Hnd.
    + apply NoDup_app in Hnd as (_ & Hdisj & _). intros Hin.
      apply (Hdisj _ Hin). left.
Qed.


Lemma array_items_step (fuel : nat) (s : pystr) :
  Json.array_items (S fuel) s =
    '(v, r) ← Json.scan_once fuel s;
    match Json.skip_ws r with
    | c :: r' =>
        if c =? 93 then Ok ([v], r')
        else if c =? 44 then
          '(vs, rest) ← Json.array_items fuel (Json.skip_ws r'); Ok (v :: vs, rest)
        else Raise (Json.err "Expecting ',' delimiter")
    | [] => Raise (Json.err "Expecting ',' delimiter")
    end.
Proof. reflexivity. Qed.

Lemma object_items_step (fuel : nat) (s : pystr) :
  Json.object_items (S fuel) s =
    '(key, r) ← Json.scanstring s;
    match Json.skip_ws r with
    | c :: r' =>
        if c =? 58 then
          '(v, r) ← Json.scan_once fuel (Json.skip_ws r');
          match Json.skip_ws r with
          | c :: r' =>
              if c =? 125 then Ok ([(key, v)], r')
              else if c =? 44 then
                match Json.skip_ws r' with
                | q :: r'' =>
                    if q =? 34 then
                      '(kvs, rest) ← Json.object_items fuel r'';
                      Ok ((key, v) :: kvs, rest)
                    else Raise (Json.err "Expecting property name enclosed in double quotes")
                | [] => Raise (Json.err "Expecting property name enclosed in double quotes")
                end
              else Raise (Json.err "Expecting ',' delimiter")
          | [] => Raise (Json.err "Expecting ',' delimiter")
          end
        else Raise (Json.err "Expecting ':' delimiter")
    | [] => Raise (Json.err "Expecting ':' delimiter")
    end.
Proof. reflexivity. Qed.

Lemma join_dumps_head (x : value) (items : list value) :
  ∃ c r, join (py ", ") (Json.dumps <$> x :: items) = c :: r
         ∧ starts_value c = true.
Proof.
  destruct (dumps_head x) as (c & r & Hx & Hc).
  destruct items as [|y items]; cbn [fmap list_fmap join].
  - by exists c, r.
  - rewrite Hx. by eexists _, _.
Qed.

Lemma join_fmap_cons2 {A : Type} (f : A → pystr) (sep : pystr) (x y : A) (l : list A) :
  join sep (f <$> x :: y :: l) = f x ++ sep ++ join sep (f <$> y :: l).
Proof. done. Qed.

Lemma array_items_dumps (items : list value) :
  Forall reads_back items → items ≠ [] → forallb wf_value items = true →
  ∀ fuel rest,
    (sum_list_with (λ x, S (size x)) items ≤ fuel)%nat →
    Json.array_items fuel (join (py ", ") (Json.dumps <$> items) ++ 93 :: rest)
    = Ok (items, rest).
Proof.
  induction items as [|x items IH]; [done|].
  intros Hall _ Hwf fuel rest Hfuel.
  apply Forall_cons in Hall as [Hx Hall].
  cbn [forallb] in Hwf. apply andb_true_iff in Hwf as [Hwfx Hwf].
  cbn [sum_list_with] in Hfuel.
  destruct fuel as [|fuel]; [lia|]. rewrite array_items_step.
  destruct items as [|y items].
  - cbn [fmap list_fmap join].
    rewrite (Hx Hwfx fuel (93 :: rest)) by (done || lia). done.
  - destruct (join_dumps_head y items) as (c & r & Hj & Hc).
    rewrite join_fmap_cons2, <- !app_assoc.
    change (py ", " ++ ?t) with (44 :: 32 :: t).
    rewrite (Hx Hwfx fuel) by (done || lia).
    cbn [mbind res_bind]. cbv beta iota.
    change (Json.skip_ws (44 :: ?t)) with (44 :: t). cbv iota beta.
    simpl (44 =? 93). simpl (44 =? 44). cbv iota.
    change (Json.skip_ws (32 :: ?t)) with (Json.skip_ws t).
    rewrite Hj. cbn [app]. rewrite skip_ws_value by done.
    change (c :: r ++ 93 :: rest) with ((c :: r) ++ 93 :: rest). rewrite <- Hj.
    rewrite IH; [done|done|done|done|].
    cbn [sum_list_with] in *. lia.
Qed.


Lemma object_items_dumps (entries : dict) :
  Forall (λ kv, reads_back kv.2) entries → entries ≠ [] →
  forallb (λ kv, wf_str kv.1 && wf_value kv.2) entries = true →
  ∀ fuel rest,
    (sum_list_with (λ kv, S (size kv.2)) entries ≤ fuel)%nat →
    ∃ tail, join (py ", ") (entry_text <$> entries) ++ 125 :: rest = 34 :: tail
            ∧ Json.object_items fuel tail = Ok (entries, rest).
Proof.
  induction entries as [|[k v] entries IH]; [done|].
  intros Hall _ Hwf fuel rest Hfuel.
  apply Forall_cons in Hall as [Hv Hall]. cbn [snd] in Hv.
  cbn [forallb fst snd] in Hwf. apply andb_true_iff in Hwf as [Hkv Hwf].
  apply andb_true_iff in Hkv as [Hwfk Hwfv].
  cbn [sum_list_with snd] in Hfuel.
  destruct fuel as [|fuel]; [lia|].
  destruct (dumps_head v) as (c & r & Hd & Hc).
  destruct entries as [|kv' entries].
  - cbn [fmap list_fmap join]. unfold entry_text. cbn [fst snd].
    unfold Json.encode_string. cbn [app]. rewrite <- !app_assoc. cbn [app].
    eexists. split; [reflexivity|].
    rewrite object_items_step, scanstring_escape by done.
    cbn [mbind res_bind]. cbv beta iota.
    change (py ": " ++ ?t) with (58 :: 32 :: t).
    change (Json.skip_ws (58 :: ?t)) with (58 :: t). cbv iota beta.
    simpl (58 =? 58). cbv iota.
    change (Json.skip_ws (32 :: ?t)) with (Json.skip_ws t).
    rewrite Hd. cbn [app]. rewrite skip_ws_value by done.
    change (c :: r ++ 125 :: rest) with ((c :: r) ++ 125 :: rest). rewrite <- Hd.
    rewrite (Hv Hwfv fuel (125 :: rest)) by (done || lia). done.
  - destruct (IH Hall ltac:(done) Hwf fuel rest) as (tail' & Htail' & Hitems').
    { cbn [sum_list_with] in *. lia. }
    rewrite join_fmap_cons2. unfold entry_text at 1. cbn [fst snd].
    unfold Json.encode_string. cbn [app]. rewrite <- !app_assoc. cbn [app].
    eexists. split; [reflexivity|].
    rewrite object_items_step, scanstring_escape by done.
    cbn [mbind res_bind]. cbv beta iota.
    change (py ": " ++ ?t) with (58 :: 32 :: t).
    change (Json.skip_ws (58 :: ?t)) with (58 :: t). cbv iota beta.
    simpl (58 =? 58). cbv iota.
    change (Json.skip_ws (32 :: ?t)) with (Json.skip_ws t).
    rewrite Hd. cbn [app]. rewrite skip_ws_value by done.
    change (c :: r ++ ?t) with ((c :: r) ++ t). rewrite <- Hd.
    change (py ", " ++ ?t) with (44 :: 32 :: t).
    rewrite (Hv Hwfv fuel) by (done || lia).
    cbn [mbind res_bind]. cbv beta iota.
    change (Json.skip_ws (44 :: ?t)) with (44 :: t). cbv iota beta.
    simpl (44 =? 125). simpl (44 =? 44). cbv iota.
    change (Json.skip_ws (32 :: ?t)) with (Json.skip_ws t).
    rewrite Htail'. change (Json.skip_ws (34 :: ?t)) with (34 :: t). cbv iota beta.
    simpl (34 =? 34). cbv iota. by rewrite Hitems'.
Qed.

Lemma scan_once_array (fuel : nat) (r : pystr) :
  Json.scan_once (S fuel) (91 :: r) =
    match Json.skip_ws r with
    | q :: r' =>
        if q =? 93 then Ok (PList [], r')
        else '(items, rest) ← Json.array_items fuel (q :: r'); Ok (PList items, rest)
    | [] => Raise (Json.err "Expecting value")
    end.
Proof. reflexivity. Qed.

Lemma scan_once_object (fuel : nat) (r : pystr) :
  Json.scan_once (S fuel) (123 :: r) =
    match Json.skip_ws r with
    | q :: r' =>
        if q =? 125 then Ok (PDict [], r')
        else if q =? 34 then
          '(pairs, rest) ← Json.object_items fuel r';
          Ok (PDict (Json.dict_of_pairs pairs), rest)
        else Raise (Json.err "Expecting property name enclosed in double quotes")
    | [] => Raise (Json.err "Expecting property name enclosed in double quotes")
    end.
Proof. reflexivity. Qed.

Lemma dumps_list (items : list value) (rest : pystr) :
  Json.dumps (PList items) ++ rest
  = 91 :: join (py ", ") (Json.dumps <$> items) ++ 93 :: rest.
Proof.
  cbn [Json.dumps]. change (py "[" ++ ?t) with (91 :: t). cbn [app].
  by rewrite <- app_assoc.
Qed.

Lemma dumps_dict (entries : dict) (rest : pystr) :
  Json.dumps (PDict entries) ++ rest
  = 123 :: join (py ", ") (entry_text <$> entries) ++ 125 :: rest.
Proof.
  cbn [Json.dumps]. change (py "{" ++ ?t) with (123 :: t). cbn [app].
  by rewrite <- app_assoc.
Qed.

Lemma reads_back_all (v : value) : reads_back v.
Proof.
  induction v as [|b|n|s|items IH|entries IH] using value_ind';
    intros Hwf fuel rest Hfuel Hrest; cbn [size] in Hfuel;
    (destruct fuel as [|fuel]; [lia|]).
  - done.
  - by destruct b.
  - by apply scan_once_str_int.
  - cbn [Json.dumps wf_value] in *. unfold Json.encode_string. cbn [app].
    rewrite <- app_assoc. cbn [app Json.scan_once]. simpl (34 =? 34). cbv iota.
    by rewrite scanstring_escape.
  - rewrite dumps_list, scan_once_array. cbn [wf_value] in Hwf.
    destruct items as [|x items]; [done|].
    destruct (join_dumps_head x items) as (c & r & Hj & Hc).
    pose proof (array_items_dumps (x :: items) IH ltac:(done) Hwf fuel rest
                  ltac:(lia)) as Hitems.
    rewrite Hj in *. cbn [app] in *. rewrite skip_ws_value by done.
    assert ((c =? 93) = false) as ->.
    { unfold starts_value, Json.is_digit in Hc. lia. }
    by rewrite Hitems.
  - rewrite dumps_dict, scan_once_object. cbn [wf_value] in Hwf.
    apply andb_true_iff in Hwf as [Hnd Hwf]. apply bool_decide_eq_true in Hnd.
    destruct entries as [|kv entries]; [done|].
    destruct (object_items_dumps (kv :: entries) IH ltac:(done) Hwf fuel rest
                ltac:(lia)) as (tail & Htail & Hitems).
    rewrite Htail. change (Json.skip_ws (34 :: ?t)) with (34 :: t). cbv iota beta.
    simpl (34 =? 125). simpl (34 =? 34). cbv iota. rewrite Hitems.
    cbn [mbind res_bind]. cbv beta iota. unfold Json.dict_of_pairs.
    by rewrite dict_of_pairs_nodup.
Qed.

Lemma join_length_bound {A : Type} (f : A → pystr) (w : A → nat) (xs : list A) :
  Forall (λ x, (w x ≤ length (f x))%nat) xs →
  (sum_list_with (λ x, S (w x)) xs ≤ S (length (join (py ", ") (f <$> xs))))%nat.
Proof.
  induction xs as [|x xs IH]; intros Hall; [simpl; lia|].
  apply Forall_cons in Hall as [Hx Hall]. specialize (IH Hall).
  destruct xs as [|y xs].
  - cbn [sum_list_with fmap list_fmap join]. lia.
  - rewrite join_fmap_cons2, !length_app.
    cbn [sum_list_with] in *. change (length (py ", ")) with 2%nat. lia.
Qed.

Lemma size_le_length (v : value) : (size v ≤ length (Json.dumps v))%nat.
Proof.
  induction v as [|b|n|s|items IH|entries IH] using value_ind'.
  - vm_compute. lia.
  - destruct b; vm_compute; lia.
  - cbn [size Json.dumps]. pose proof (int_str_nonempty n).
    destruct (int_str n); [done|]. simpl. lia.
  - cbn [size Json.dumps]. unfold Json.encode_string. simpl. lia.
  - pose proof (dumps_list items []) as H. rewrite app_nil_r in H. rewrite H.
    cbn [size length]. rewrite length_app. cbn [length].
    pose proof (join_length_bound Json.dumps size items IH). lia.
  - pose proof (dumps_dict entries []) as H. rewrite app_nil_r in H. rewrite H.
    cbn [size length]. rewrite length_app. cbn [length].
    pose proof (join_length_bound entry_text (λ kv, size kv.2) entries) as Hb.
    assert (Hall : Forall (λ kv, (size kv.2 ≤ length (entry_text kv))%nat) entries).
    { eapply Forall_impl; [exact IH|]. intros [k x] Hx. unfold entry_text.
      rewrite !length_app. cbn [snd] in *. lia. }
    specialize (Hb Hall). lia.
Qed.

(** Parsing the rendering of a well-formed value gives the value back. *)
Lemma loads_dumps (v : value) :
  wf_value v = true → Json.loads (Json.dumps v) = Ok v.
Proof.
  intros Hwf. unfold Json.loads.
  destruct (dumps_head v) as (c & r & Hd & Hc).
  assert (Hbom : Json.is_prefix_of [65279] (Json.dumps v) = false).
  { rewrite Hd. unfold Json.is_prefix_of. cbn [strip_prefix].
    rewrite bool_decide_eq_false_2; [done|].
    unfold starts_value, Json.is_digit in Hc. lia. }
  rewrite Hbom.
  assert (Hskip : Json.skip_ws (Json.dumps v) = Json.dumps v)
    by (rewrite Hd; by apply skip_ws_value).
  rewrite Hskip. rewrite <- (app_nil_r (Json.dumps v)) at 2.
  rewrite (reads_back_all v Hwf _ []); [done| |done].
  pose proof (size_le_length v). lia.
Qed.


(** *** The store: [extract_data] and the objects it is given

    The store version of [extract_data] is related to the version on values:
    run in a store of trees, it adds objects after the ones it is given,
    touches none of them, and returns a new dict whose value is the record
    the version on values computes. *)

(** *** Values of a store *)

Lemma values_from_app (acc : list value) (h ext : store) :
  values_from acc (h ++ ext) = values_from (values_from acc h) ext.
Proof. revert acc. induction h as [|o h IH]; intros acc; [done|]. apply IH. Qed.

Lemma values_from_length (acc : list value) (h : store) :
  length (values_from acc h) = (length acc + length h)%nat.
Proof.
  revert acc. induction h as [|o h IH]; intros acc; simpl; [lia|].
  rewrite IH, length_app. simpl. lia.
Qed.

Lemma values_from_lookup (acc : list value) (h : store) (a : nat) :
  (a < length acc)%nat → values_from acc h !! a = acc !! a.
Proof.
  revert acc. induction h as [|o h IH]; intros acc Ha; [done|].
  simpl. rewrite IH by (rewrite length_app; lia). by apply lookup_app_l.
Qed.

Lemma values_length (h : store) : length (values h) = length h.
Proof. unfold values. by rewrite values_from_length. Qed.

Lemma values_app_lookup (h ext : store) (a : nat) :
  (a < length h)%nat → values (h ++ ext) !! a = values h !! a.
Proof.
  intros Ha. unfold values. rewrite values_from_app.
  apply values_from_lookup. by rewrite values_from_length.
Qed.

Lemma values_snoc (h : store) (o : obj) :
  values (h ++ [o]) = values h ++ [obj_value (values h) o].
Proof. unfold values. by rewrite values_from_app. Qed.

Lemma ref_below_mono (n m : nat) (r : ref) :
  (n ≤ m)%nat → ref_below n r → ref_below m r.
Proof. destruct r; simpl; lia. Qed.

(** A value does not change when the store grows. *)
Lemma denote_app (h ext : store) (r : ref) :
  ref_below (length h) r → denote (h ++ ext) r = denote h r.
Proof.
  destruct r as [| | | |a]; try done. simpl. intros Ha.
  unfold denote. simpl. by rewrite values_app_lookup.
Qed.

Lemma ref_value_below (h ext : store) (r : ref) :
  ref_below (length h) r → ref_value (values (h ++ ext)) r = ref_value (values h) r.
Proof. apply denote_app. Qed.

Lemma obj_value_app (h ext : store) (o : obj) :
  Forall (ref_below (length h)) (obj_refs o) →
  obj_value (values (h ++ ext)) o = obj_value (values h) o.
Proof.
  destruct o as [items|entries]; simpl; intros Hall; f_equal.
  - apply Forall_fmap_ext. eapply Forall_impl; [exact Hall|].
    intros r Hr. by apply ref_value_below.
  - apply Forall_fmap_ext. rewrite Forall_fmap in Hall.
    eapply Forall_impl; [exact Hall|].
    intros [k r] Hr. unfold prod_map. simpl in *. f_equal.
    by apply ref_value_below.
Qed.

Lemma values_middle (h1 h2 : store) (o : obj) :
  values (h1 ++ o :: h2) !! length h1 = Some (obj_value (values h1) o).
Proof.
  rewrite (cons_middle o), app_assoc.
  rewrite values_app_lookup by (rewrite length_app; simpl; lia).
  rewrite values_snoc, lookup_app_r by (rewrite values_length; lia).
  by rewrite values_length, Nat.sub_diag.
Qed.

(** In a store of trees, the value at an address is the value of its object. *)
Lemma values_lookup (h : store) (a : nat) (o : obj) :
  store_ok h → h !! a = Some o →
  values h !! a = Some (obj_value (values h) o).
Proof.
  intros Hok Ha. pose proof (Hok a o Ha) as Hrefs.
  pose proof (lookup_lt_Some _ _ _ Ha) as Hlt.
  assert (Hlen : length (take a h) = a) by (rewrite length_take; lia).
  rewrite <- (take_drop_middle h a o Ha). rewrite <- Hlen at 1.
  rewrite values_middle. f_equal. symmetry. apply obj_value_app.
  by rewrite Hlen.
Qed.

Lemma denote_obj (h : store) (a : nat) (o : obj) :
  store_ok h → h !! a = Some o → denote h (RObj a) = obj_value (values h) o.
Proof.
  intros Hok Ha. unfold denote. simpl. by rewrite (values_lookup h a o).
Qed.

(** The value of a brand new object. *)
Lemma denote_new (h junk : store) (o : obj) :
  denote (h ++ o :: junk) (RObj (length h)) = obj_value (values h) o.
Proof. unfold denote. simpl. by rewrite values_middle. Qed.

(** *** Stores of trees *)

Lemma store_ok_app (h ext : store) :
  store_ok h →
  (∀ i o, ext !! i = Some o → Forall (ref_below (length h + i)) (obj_refs o)) →
  store_ok (h ++ ext).
Proof.
  intros Hok Hext a o Ha. destruct (decide (a < length h)%nat) as [Hlt|Hge].
  - rewrite lookup_app_l in Ha by done. by apply Hok.
  - rewrite lookup_app_r in Ha by lia. apply Hext in Ha.
    by replace (length h + (a - length h))%nat with a in Ha by lia.
Qed.

Lemma store_ok_prefix (h ext : store) : store_ok (h ++ ext) → store_ok h.
Proof.
  intros Hok a o Ha. apply (Hok a o). rewrite lookup_app_l; [done|].
  by eapply lookup_lt_Some.
Qed.

Lemma store_ok_flat (h ext : store) :
  store_ok h → Forall flat_obj ext → store_ok (h ++ ext).
Proof.
  intros Hok Hflat. apply store_ok_app; [done|]. intros i o Hi.
  eapply Forall_impl; [exact (proj1 (Forall_lookup _ _) Hflat i o Hi)|].
  intros r Hr. eapply ref_below_mono; [|exact Hr]. lia.
Qed.

(** *** Reading the store *)

Section reads.
Context (h : store) (Hok : store_ok h).

Lemma truthy_denote (r : ref) :
  ref_below (length h) r → truthy (denote h r) = ref_truthy h r.
Proof using Hok.
  destruct r as [| | | |a]; try done. intros Ha. simpl in Ha.
  destruct (lookup_lt_is_Some_2 h a Ha) as [o Ho].
  rewrite (denote_obj h a o) by done. cbn [ref_truthy]. rewrite Ho.
  destruct o as [items|entries]; simpl.
  - by destruct items.
  - by destruct entries.
Qed.

Lemma is_dict_denote (r : ref) :
  ref_below (length h) r → is_dict (denote h r) = ref_is_dict h r.
Proof using Hok.
  destruct r as [| | | |a]; try done. intros Ha. simpl in Ha.
  destruct (lookup_lt_is_Some_2 h a Ha) as [o Ho].
  rewrite (denote_obj h a o) by done. simpl. rewrite Ho. by destruct o.
Qed.

Lemma is_list_denote (r : ref) :
  ref_below (length h) r → is_list (denote h r) = ref_is_list h r.
Proof using Hok.
  destruct r as [| | | |a]; try done. intros Ha. simpl in Ha.
  destruct (lookup_lt_is_Some_2 h a Ha) as [o Ho].
  rewrite (denote_obj h a o) by done. simpl. rewrite Ho. by destruct o.
Qed.

Lemma dict_lookup_fmap {V W : Type} (f : V → W) (d : list (pystr * V)) (k : pystr) :
  dict_lookup (prod_map id f <$> d) k = f <$> dict_lookup d k.
Proof.
  induction d as [|[k' v] d IH]; [done|]. simpl. by destruct (bool_decide (k' = k)).
Qed.

Lemma dict_refs_below (a : nat) (entries : list (pystr * ref)) (k : pystr) (r : ref) :
  Forall (ref_below a) (snd <$> entries) → dict_lookup entries k = Some r →
  ref_below a r.
Proof.
  induction entries as [|[k' v] entries IH]; [done|]. simpl.
  intros Hall. apply Forall_cons in Hall as [Hv Hall].
  destruct (bool_decide (k' = k)); [by intros [= <-]|by apply IH].
Qed.

(** [o.get(k, default)] on the store and on values agree. *)
Lemma get_default_denote (o : ref) (k : pystr) (default : ref) :
  ref_below (length h) o → ref_below (length h) default →
  match ref_get_default o k default h with
  | Ok r =>
      ref_below (length h) r
      ∧ py_get_default (denote h o) k (denote h default) = Ok (denote h r)
  | Raise e => py_get_default (denote h o) k (denote h default) = Raise e
  end.
Proof using Hok.
  intros Ho Hd. destruct o as [| | | |a]; try done. simpl in Ho.
  destruct (lookup_lt_is_Some_2 h a Ho) as [ob Hob].
  unfold ref_get_default. rewrite Hob.
  pose proof (denote_obj h a ob Hok Hob) as Hden.
  destruct ob as [items|entries]; [by rewrite Hden|].
  rewrite Hden. simpl. rewrite dict_lookup_fmap.
  destruct (dict_lookup entries k) as [r|] eqn:Hr; simpl; [|done].
  split; [|done].
  apply (ref_below_mono a); [lia|].
  eapply dict_refs_below; [|exact Hr]. exact (Hok a _ Hob).
Qed.

Lemma items_denote (l : ref) :
  ref_below (length h) l → ref_is_list h l = true →
  denote h l = PList (denote h <$> ref_items h l)
  ∧ Forall (ref_below (length h)) (ref_items h l).
Proof using Hok.
  destruct l as [| | | |a]; try done. intros Ha. simpl in Ha.
  cbn [ref_is_list ref_items].
  destruct (h !! a) as [[items|entries]|] eqn:Ho; try done. intros _.
  rewrite (denote_obj h a _ Hok Ho). split; [done|].
  eapply Forall_impl; [exact (Hok a _ Ho)|].
  intros r Hr. eapply ref_below_mono; [|exact Hr]. lia.
Qed.

End reads.

(** Reading below [length h] does not see what comes after. *)
Lemma ref_truthy_app (h ext : store) (r : ref) :
  ref_below (length h) r → ref_truthy (h ++ ext) r = ref_truthy h r.
Proof. destruct r; try done. simpl. intros. by rewrite lookup_app_l. Qed.

Lemma ref_is_dict_app (h ext : store) (r : ref) :
  ref_below (length h) r → ref_is_dict (h ++ ext) r = ref_is_dict h r.
Proof. destruct r; try done. simpl. intros. by rewrite lookup_app_l. Qed.

Lemma ref_is_list_app (h ext : store) (r : ref) :
  ref_below (length h) r → ref_is_list (h ++ ext) r = ref_is_list h r.
Proof. destruct r; try done. simpl. intros. by rewrite lookup_app_l. Qed.

Lemma ref_items_app (h ext : store) (r : ref) :
  ref_below (length h) r → ref_items (h ++ ext) r = ref_items h r.
Proof. destruct r; try done. simpl. intros. by rewrite lookup_app_l. Qed.

Lemma ref_get_default_app (h ext : store) (o : ref) (k : pystr) (default : ref) :
  ref_below (length h) o →
  ref_get_default o k default (h ++ ext) = ref_get_default o k default h.
Proof.
  intros Ho. unfold ref_get_default. rewrite denote_app by done.
  destruct o; try done. simpl in *. by rewrite lookup_app_l.
Qed.

(** *** [extract_habitat_descriptions] on the store *)

Lemma insert_last {A : Type} (l : list A) (x y : A) :
  <[length l := y]> (l ++ [x]) = l ++ [y].
Proof. rewrite insert_app_r_alt by lia. by rewrite Nat.sub_diag. Qed.

Lemma lookup_last {A : Type} (l : list A) (x : A) :
  (l ++ [x]) !! length l = Some x.
Proof. rewrite lookup_app_r by lia. by rewrite Nat.sub_diag. Qed.

Lemma dict_get_denote (h : store) (o r : ref) (d : dict) (k : pystr) :
  store_ok h → ref_below (length h) o → denote h o = PDict d →
  ref_get_default o k RNone h = Ok r →
  ref_below (length h) r ∧ denote h r = dict_get d k.
Proof.
  intros Hok Ho Hd Hr.
  pose proof (get_default_denote h Hok o k RNone Ho I) as Hget.
  rewrite Hr, Hd in Hget. destruct Hget as [Hbelow Hget].
  split; [done|]. simpl in Hget. injection Hget as Hget.
  unfold dict_get. by destruct (dict_lookup d k).
Qed.

Lemma get_of_dict (h : store) (o : ref) (k : pystr) :
  ref_is_dict h o = true → ∃ r, ref_get_default o k RNone h = Ok r.
Proof.
  destruct o as [| | | |a]; try done. unfold ref_is_dict, ref_get_default.
  destruct (h !! a) as [[|entries]|]; try done. by eexists.
Qed.

Lemma ref_items_last (G : store) (xs : list ref) :
  ref_items (G ++ [OList xs]) (RObj (length G)) = xs.
Proof. unfold ref_items. by rewrite lookup_last. Qed.

Section habitat.
Context (H tl : store) (Hok : store_ok H) (hk dk : pystr).

Lemma habitat_step_st_spec (acc : list pystr) (item : ref) :
  ref_below (length H) item →
  habitat_step_st hk dk (RObj (length (H ++ tl))) item
    ((H ++ tl) ++ [OList (RStr <$> acc)])
  = (Ok (),
     (H ++ tl) ++ [OList (RStr <$> habitat_step hk dk acc (denote H item))]).
Proof using Hok.
  intros Hitem. unfold habitat_step_st, habitat_step.
  rewrite <- !(app_assoc H). rewrite ref_is_dict_app by done.
  rewrite <- is_dict_denote by done.
  destruct (denote H item) as [| | | | |d] eqn:Hd; try done. cbn [is_dict].
  destruct (get_of_dict H item hk) as [r Hr].
  { rewrite <- is_dict_denote, Hd by done. done. }
  destruct (dict_get_denote H item r d hk Hok Hitem Hd Hr) as [Hrb Hrv].
  unfold st_bind at 1. unfold st_get, st_get_default, st_read.
  rewrite ref_get_default_app, Hr by done.
  rewrite ref_is_dict_app, <- is_dict_denote, Hrv by done.
  destruct (dict_get d hk) as [| | | | |d2] eqn:Hd2; try done. cbn [is_dict].
  destruct (get_of_dict H r dk) as [r2 Hr2].
  { rewrite <- is_dict_denote, Hrv by done. done. }
  destruct (dict_get_denote H r r2 d2 dk Hok Hrb Hrv Hr2) as [Hrb2 Hrv2].
  unfold st_bind. rewrite ref_get_default_app, Hr2 by done.
  rewrite ref_truthy_app, <- truthy_denote, Hrv2 by done.
  destruct (truthy (dict_get d2 dk)); [|done].
  unfold st_append. rewrite !app_assoc, lookup_last, insert_last.
  rewrite <- !app_assoc, denote_app, Hrv2 by done.
  by rewrite fmap_app.
Qed.

Lemma habitat_items_st_spec (items : list ref) (acc : list pystr) :
  Forall (ref_below (length H)) items →
  st_for_each (habitat_step_st hk dk (RObj (length (H ++ tl)))) items
    ((H ++ tl) ++ [OList (RStr <$> acc)])
  = (Ok (),
     (H ++ tl)
     ++ [OList (RStr <$> foldl (habitat_step hk dk) acc (denote H <$> items))]).
Proof using Hok.
  revert acc. induction items as [|item items IH]; intros acc Hall; [done|].
  apply Forall_cons in Hall as [Hitem Hall].
  cbn [st_for_each]. unfold st_bind. rewrite habitat_step_st_spec by done.
  by rewrite IH.
Qed.

Lemma extract_habitat_descriptions_st_spec (l : ref) :
  ref_below (length H) l →
  ∃ junk, Forall flat_obj junk
    ∧ extract_habitat_descriptions_st l hk dk (H ++ tl)
      = (Ok (scalar_ref (extract_habitat_descriptions (denote H l) hk dk)),
         (H ++ tl) ++ junk).
Proof using Hok.
  intros Hl. unfold extract_habitat_descriptions_st, extract_habitat_descriptions.
  rewrite ref_truthy_app, ref_is_list_app, ref_items_app by done.
  rewrite <- truthy_denote, <- is_list_denote by done.
  destruct (negb (truthy (denote H l)) || negb (is_list (denote H l))) eqn:Hguard.
  { exists []. by rewrite app_nil_r. }
  apply orb_false_iff in Hguard as [_ Hlist]. apply negb_false_iff in Hlist.
  rewrite is_list_denote in Hlist by done.
  destruct (items_denote H Hok l Hl Hlist) as [Hden Hitems].
  rewrite Hden.
  unfold st_bind at 1. unfold new_obj.
  unfold st_bind at 1.
  pose proof (habitat_items_st_spec (ref_items H l) [] Hitems) as Hloop.
  cbn [fmap list_fmap] in Hloop. rewrite Hloop.
  set (ds := foldl (habitat_step hk dk) [] (denote H <$> ref_items H l)).
  unfold st_read. rewrite ref_items_last.
  exists [OList (RStr <$> ds)]. split.
  - constructor; [|constructor]. unfold flat_obj. simpl.
    apply Forall_fmap. by apply Forall_true.
  - destruct ds as [|p ps]; [done|].
    cbn [fmap list_fmap scalar_ref]. rewrite <- list_fmap_compose.
    change (ref_text (RStr p)) with p.
    rewrite (list_fmap_ext (ref_text ∘ RStr) id ps) by done.
    by rewrite list_fmap_id.
Qed.

End habitat.

(** *** [extract_data] on the store refines [extract_data] on values *)

Lemma extends_below (h h' : store) (r : ref) :
  extends h h' → ref_below (length h) r → ref_below (length h') r.
Proof.
  intros [ext ->] Hr. eapply ref_below_mono; [|exact Hr]. rewrite length_app. lia.
Qed.

Lemma extends_denote (h h' : store) (r : ref) :
  extends h h' → ref_below (length h) r → denote h' r = denote h r.
Proof. intros [ext ->] Hr. by apply denote_app. Qed.

Lemma refines_extends (h h' : store) (m : st ref) (p : res dict) :
  extends h h' → refines h' m p →
  ∃ ext, (m h').2 = h ++ ext ∧ store_ok (h ++ ext) ∧
    match p with
    | Ok flat =>
        ∃ a, (m h').1 = Ok (RObj a) ∧ (length h ≤ a < length (h ++ ext))%nat
             ∧ denote (h ++ ext) (RObj a) = PDict flat
    | Raise e => (m h').1 = Raise e
    end.
Proof.
  intros [ext ->] (ext' & Hst & Hok & Hres). exists (ext ++ ext').
  rewrite app_assoc. split; [done|]. split; [done|].
  destruct p as [flat|e]; [|done].
  destruct Hres as (a & Hr & Ha & Hd). exists a.
  split; [done|]. split; [|done].
  rewrite length_app in Ha. lia.
Qed.

Lemma store_ok_snoc_empty (h : store) : store_ok h → store_ok (h ++ [ODict []]).
Proof.
  intros Hok. apply store_ok_flat; [done|]. constructor; [|constructor].
  constructor.
Qed.

(** The three statements that compute an intermediate mapping. *)
Lemma refines_intermediate (h : store) (o : ref) (k : pystr) (V : value)
    (K : ref → st ref) (F : value → res dict) :
  store_ok h → ref_below (length h) o → denote h o = V →
  (∀ h' r sc, store_ok h' → extends h h' → ref_below (length h') r →
     denote h' r = py_or sc (PDict []) → refines h' (K r) (F sc)) →
  refines h
    (st_bind (new_obj (ODict [])) (λ d,
       st_bind (st_get_default o k d) (λ sc, st_bind (st_or_new sc) K)))
    (py_get_default V k (PDict []) ≫= F).
Proof.
  intros Hok Ho HV HK.
  set (h1 := h ++ [ODict []]).
  assert (Hok1 : store_ok h1) by by apply store_ok_snoc_empty.
  assert (Ho1 : ref_below (length h1) o).
  { eapply extends_below; [by eexists|done]. }
  assert (Hd1 : ref_below (length h1) (RObj (length h))).
  { unfold h1. rewrite length_app. simpl. lia. }
  pose proof (get_default_denote h1 Hok1 o k (RObj (length h)) Ho1 Hd1) as Hget.
  assert (Hdo : denote h1 o = V) by (unfold h1; by rewrite denote_app).
  assert (Hdd : denote h1 (RObj (length h)) = PDict []).
  { unfold h1. by rewrite denote_new. }
  rewrite Hdo, Hdd in Hget.
  unfold refines, st_bind, new_obj, st_get_default, st_read, st_or_new.
  fold h1. cbv beta iota.
  destruct (ref_get_default o k (RObj (length h)) h1) as [r|e] eqn:Hr.
  - destruct Hget as [Hrb Hget]. rewrite Hget. cbn [mbind res_bind].
    rewrite <- truthy_denote by done.
    destruct (truthy (denote h1 r)) eqn:Ht.
    + eapply refines_extends; [by eexists|].
      apply HK; [done|by eexists|done|]. unfold py_or. by rewrite Ht.
    + assert (Hext : extends h ((h1 ++ [ODict []]))).
      { exists [ODict []; ODict []]. unfold h1. by rewrite <- app_assoc. }
      eapply refines_extends; [exact Hext|].
      apply HK; [by apply store_ok_snoc_empty|done| |].
      * rewrite length_app. simpl. lia.
      * unfold py_or. rewrite Ht. apply denote_new.
  - rewrite Hget. exists [ODict []]. by split_and!.
Qed.

Lemma refines_get (h : store) (o : ref) (k : pystr) (V : value)
    (K : ref → st ref) (P : value → res dict) :
  store_ok h → ref_below (length h) o → denote h o = V →
  (∀ r, ref_below (length h) r → refines h (K r) (P (denote h r))) →
  refines h (st_bind (st_get o k) K) (py_get V k ≫= P).
Proof.
  intros Hok Ho HV HK.
  pose proof (get_default_denote h Hok o k RNone Ho I) as Hget.
  rewrite HV in Hget. unfold py_get.
  unfold refines, st_bind, st_get, st_get_default, st_read.
  destruct (ref_get_default o k RNone h) as [r|e].
  - destruct Hget as [Hrb Hget]. change (denote h RNone) with PNone in Hget.
    rewrite Hget. by apply HK.
  - change (denote h RNone) with PNone in Hget. rewrite Hget.
    exists []. rewrite app_nil_r. by split_and!.
Qed.

Lemma format_last_modified_st_spec (h : store) (lm : ref) :
  store_ok h → ref_below (length h) lm →
  ∃ r, format_last_modified_st lm h = (Ok r, h) ∧ ref_below (length h) r
       ∧ denote h r = format_last_modified (denote h lm).
Proof.
  intros Hok Hlm. unfold format_last_modified_st, st_read, format_last_modified.
  rewrite <- truthy_denote by done.
  destruct (truthy (denote h lm)) eqn:Ht; cbn [negb]; [|by exists RNone].
  destruct lm as [|b|n|s|a].
  - done.
  - by exists (RBool b).
  - by exists (RInt n).
  - change (denote h (RStr s)) with (PStr s). cbn [py_replace mbind res_bind].
    destruct (Datetime.fromisoformat _) as [dt|e].
    + by exists (RStr (Datetime.strftime dt)).
    + by exists (RStr s).
  - exists (RObj a). split_and!; [done..|].
    simpl in Hlm. destruct (lookup_lt_is_Some_2 h a Hlm) as [ob Hob].
    rewrite (denote_obj h a ob Hok Hob). by destruct ob.
Qed.

Lemma refines_format_last_modified (h : store) (lm : ref)
    (K : ref → st ref) (p : res dict) :
  store_ok h → ref_below (length h) lm →
  (∀ r, ref_below (length h) r →
     denote h r = format_last_modified (denote h lm) → refines h (K r) p) →
  refines h (st_bind (format_last_modified_st lm) K) p.
Proof.
  intros Hok Hlm HK.
  destruct (format_last_modified_st_spec h lm Hok Hlm) as (r & Hr & Hrb & Hrv).
  unfold refines, st_bind. rewrite Hr. by apply HK.
Qed.

(** *** The loop over the habitat table *)

Lemma dict_set_fmap {V W : Type} (f : V → W) (d : list (pystr * V)) (k : pystr) (v : V) :
  prod_map id f <$> dict_set d k v = dict_set (prod_map id f <$> d) k (f v).
Proof.
  induction d as [|[k' v'] d IH]; [done|]. simpl.
  destruct (bool_decide (k' = k)); [done|]. simpl. f_equal. exact IH.
Qed.

Lemma dict_set_below (n : nat) (es : list (pystr * ref)) (k : pystr) (r : ref) :
  Forall (λ kv, ref_below n kv.2) es → ref_below n r →
  Forall (λ kv, ref_below n kv.2) (dict_set es k r).
Proof.
  induction es as [|[k' v'] es IH]; intros Hall Hr.
  - by constructor.
  - apply Forall_cons in Hall as [Hv Hall]. simpl.
    destruct (bool_decide (k' = k)); constructor; auto.
Qed.

Lemma habitat_descriptions_scalar (h : store) (v : value) (hk dk : pystr) :
  denote h (scalar_ref (extract_habitat_descriptions v hk dk))
  = extract_habitat_descriptions v hk dk
  ∧ ref_below 0 (scalar_ref (extract_habitat_descriptions v hk dk)).
Proof.
  unfold extract_habitat_descriptions.
  destruct (negb (truthy v) || negb (is_list v)); [done|].
  destruct v; try done. by destruct (foldl _ _ _).
Qed.

Lemma insert_middle {A : Type} (l1 l2 : list A) (x y : A) :
  <[length l1 := y]> (l1 ++ x :: l2) = l1 ++ y :: l2.
Proof. rewrite insert_app_r_alt by lia. by rewrite Nat.sub_diag. Qed.

Lemma habitat_loop_body_row (V : value) (extracted : dict) (api hk dk out : pystr) :
  habitat_loop_body V extracted (api, hk, dk, out)
  = py_get V api ≫= λ habitat_data,
      Ok (dict_set extracted out
            (extract_habitat_descriptions habitat_data hk dk)).
Proof. done. Qed.

Lemma habitat_loop_body_st_row (scr extracted : ref) (api hk dk out : pystr) :
  habitat_loop_body_st scr extracted (api, hk, dk, out)
  = st_bind (st_get scr api) (λ habitat_data,
      st_bind (extract_habitat_descriptions_st habitat_data hk dk)
        (λ descriptions, st_setitem extracted out descriptions)).
Proof. done. Qed.

Section rows.
Context (H : store) (Hok : store_ok H) (scr : ref)
  (Hscr : ref_below (length H) scr).

Lemma habitat_rows_st_spec (rows : list (pystr * pystr * pystr * pystr))
    (es : list (pystr * ref)) (junk : store) :
  Forall (λ kv, ref_below (length H) kv.2) es → Forall flat_obj junk →
  ∃ es' junk',
    Forall (λ kv, ref_below (length H) kv.2) es' ∧ Forall flat_obj junk' ∧
    match for_each (habitat_loop_body (denote H scr)) rows
            (denote_entries H es) with
    | Ok flat =>
        st_for_each (habitat_loop_body_st scr (RObj (length H))) rows
          (H ++ ODict es :: junk) = (Ok (), H ++ ODict es' :: junk')
        ∧ denote_entries H es' = flat
    | Raise e =>
        st_for_each (habitat_loop_body_st scr (RObj (length H))) rows
          (H ++ ODict es :: junk) = (Raise e, H ++ ODict es' :: junk')
    end.
Proof using Hok Hscr.
  revert es junk. induction rows as [|[[[api hk] dk] out] rows IH];
    intros es junk Hes Hjunk.
  { exists es, junk. by split_and!. }
  pose proof (get_default_denote H Hok scr api RNone Hscr I) as Hget.
  change (denote H RNone) with PNone in Hget. fold (py_get (denote H scr) api) in Hget.
  cbn [for_each]. rewrite habitat_loop_body_row.
  destruct (ref_get_default scr api RNone H) as [r|e] eqn:Hr.
  - destruct Hget as [Hrb Hget]. rewrite Hget. cbn [mbind res_bind].
    destruct (extract_habitat_descriptions_st_spec H (ODict es :: junk) Hok hk dk r Hrb)
      as (junk2 & Hjunk2 & Hrun).
    destruct (habitat_descriptions_scalar H (denote H r) hk dk) as [Hval Hsc].
    set (X := extract_habitat_descriptions (denote H r) hk dk) in *.
    assert (Hstep :
      st_for_each (habitat_loop_body_st scr (RObj (length H)))
        ((api, hk, dk, out) :: rows) (H ++ ODict es :: junk)
      = st_for_each (habitat_loop_body_st scr (RObj (length H))) rows
          (H ++ ODict (dict_set es out (scalar_ref X)) :: junk ++ junk2)).
    { cbn [st_for_each]. rewrite habitat_loop_body_st_row.
      unfold st_bind, st_get, st_get_default, st_read.
      rewrite ref_get_default_app, Hr, Hrun by done.
      unfold st_setitem. rewrite <- app_assoc. cbn [app].
      rewrite list_lookup_middle by done. by rewrite insert_middle. }
    rewrite Hstep.
    destruct (IH (dict_set es out (scalar_ref X)) (junk ++ junk2))
      as (es' & junk' & Hes' & Hjunk' & Hloop).
    { apply dict_set_below; [done|]. eapply ref_below_mono; [|exact Hsc]. lia. }
    { by apply Forall_app. }
    unfold denote_entries in Hloop. rewrite dict_set_fmap, Hval in Hloop.
    by exists es', junk'.
  - rewrite Hget. cbn [mbind res_bind]. exists es, junk. split_and!; [done..|].
    cbn [st_for_each]. rewrite habitat_loop_body_st_row.
    unfold st_bind, st_get, st_get_default, st_read.
    by rewrite ref_get_default_app, Hr by done.
Qed.

Lemma refines_loop (rows : list (pystr * pystr * pystr * pystr))
    (es : list (pystr * ref)) :
  Forall (λ kv, ref_below (length H) kv.2) es →
  refines H
    (st_bind (new_obj (ODict es)) (λ extracted,
       st_bind (st_for_each (habitat_loop_body_st scr extracted) rows)
         (λ _, st_ret extracted)))
    (for_each (habitat_loop_body (denote H scr)) rows (denote_entries H es)).
Proof using Hok Hscr.
  intros Hes.
  destruct (habitat_rows_st_spec rows es [] Hes ltac:(constructor))
    as (es' & junk' & Hes' & Hjunk' & Hloop).
  assert (Hok' : store_ok (H ++ ODict es' :: junk')).
  { rewrite (cons_middle (ODict es')), app_assoc. apply store_ok_flat; [|done].
    apply store_ok_app; [done|]. intros [|i] o Hi; [|done].
    injection Hi as <-. rewrite Nat.add_0_r. simpl. by apply Forall_fmap. }
  unfold refines, st_bind, new_obj, st_ret. exists (ODict es' :: junk').
  destruct (for_each _ _ _) as [flat|e].
  - destruct Hloop as [-> Hflat]. split_and!; [done..|].
    exists (length H). split_and!; [done|lia|rewrite length_app; simpl; lia|].
    rewrite denote_new. by rewrite <- Hflat.
  - rewrite Hloop. by split_and!.
Qed.

End rows.

(** *** The whole function *)

(** [extract_data] on the store refines [extract_data] on values. *)
Lemma extract_data_st_refines (h : store) (x : ref) :
  store_ok h → ref_below (length h) x →
  refines h (extract_data_st x) (extract_data (denote h x)).
Proof.
  intros Hok Hx. unfold extract_data_st, extract_data.
  apply refines_intermediate; [done..|]. intros h1 r1 sc Hok1 E1 Hr1 D1.
  rewrite <- D1.
  pose proof (extends_below _ _ _ E1 Hx) as Hx1.
  pose proof (extends_denote _ _ _ E1 Hx) as Dx1.
  apply refines_intermediate; [done..|]. intros h2 r2 sg Hok2 E2 Hr2 D2.
  rewrite <- D2.
  pose proof (extends_below _ _ _ E2 Hx1) as Hx2.
  pose proof (extends_denote _ _ _ E2 Hx1) as Dx2. rewrite Dx1 in Dx2.
  pose proof (extends_below _ _ _ E2 Hr1) as Hr12.
  pose proof (extends_denote _ _ _ E2 Hr1) as Dr12.
  apply refines_intermediate; [done..|]. intros h3 r3 ri Hok3 E3 Hr3 D3.
  rewrite <- D3.
  pose proof (extends_below _ _ _ E3 Hx2) as Hx3.
  pose proof (extends_denote _ _ _ E3 Hx2) as Dx3. rewrite Dx2 in Dx3.
  pose proof (extends_below _ _ _ E3 Hr12) as Hr13.
  pose proof (extends_denote _ _ _ E3 Hr12) as Dr13. rewrite Dr12 in Dr13.
  pose proof (extends_below _ _ _ E3 Hr2) as Hr23.
  pose proof (extends_denote _ _ _ E3 Hr2) as Dr23.
  apply refines_intermediate; [done..|]. intros h4 r4 re Hok4 E4 Hr4 D4.
  rewrite <- D4.
  pose proof (extends_below _ _ _ E4 Hx3) as Hx4.
  pose proof (extends_denote _ _ _ E4 Hx3) as Dx4. rewrite Dx3 in Dx4.
  pose proof (extends_below _ _ _ E4 Hr13) as Hr14.
  pose proof (extends_denote _ _ _ E4 Hr13) as Dr14. rewrite Dr13 in Dr14.
  pose proof (extends_below _ _ _ E4 Hr23) as Hr24.
  pose proof (extends_denote _ _ _ E4 Hr23) as Dr24. rewrite Dr23 in Dr24.
  apply refines_get; [done..|]. intros lm Hlm.
  apply refines_format_last_modified; [done..|]. intros lmr Hlmr Dlmr.
  rewrite <- Dlmr.
  apply refines_get; [done..|]. intros v1 Hv1.
  apply refines_get; [done..|]. intros v2 Hv2.
  apply refines_get; [done..|]. intros v3 Hv3.
  apply refines_get; [done..|]. intros v4 Hv4.
  apply refines_get; [done..|]. intros v5 Hv5.
  apply refines_get; [done..|]. intros v6 Hv6.
  apply refines_get; [done..|]. intros v7 Hv7.
  apply refines_get; [done..|]. intros v8 Hv8.
  rewrite <- Dr14.
  apply (refines_loop h4 Hok4 r1 Hr14 habitat_types
           [ (py "elementGlobalId", v1); (py "uniqueId", v2);
             (py "speciesGlobalElementGlobalId", v3);
             (py "primaryCommonName", v4); (py "scientificName", v5);
             (py "lastModified", lmr); (py "grankReasons", v6);
             (py "habitatComments", v7); (py "rangeExtent", v8) ]).
  repeat (constructor; [done|]). constructor.
Qed.

(** *** Checking a concrete store *)

Lemma ref_belowb_spec (n : nat) (r : ref) : ref_belowb n r = true → ref_below n r.
Proof. destruct r; try done. simpl. by intros ?%Nat.ltb_lt. Qed.

Lemma store_okb_from_spec (h : store) (a0 : nat) :
  store_okb_from a0 h = true →
  ∀ i o, h !! i = Some o → Forall (ref_below (a0 + i)) (obj_refs o).
Proof.
  revert a0. induction h as [|o' h IH]; intros a0 Hb i o Hi; [done|].
  cbn [store_okb_from] in Hb. apply andb_true_iff in Hb as [Ho Hh].
  destruct i as [|i]; simpl in Hi.
  - injection Hi as <-. rewrite Nat.add_0_r.
    apply Forall_forall. intros r Hr. apply ref_belowb_spec.
    rewrite forallb_forall in Ho. apply Ho. by apply list_elem_of_In.
  - replace (a0 + S i)%nat with (S a0 + i)%nat by lia. by apply (IH (S a0)).
Qed.

Lemma store_okb_spec (h : store) : store_okb h = true → store_ok h.
Proof. intros Hb a o Ha. by apply (store_okb_from_spec h 0 Hb a o). Qed.

(** *** What a record holds *)

(** An address of a store of trees stands for a list or a mapping. *)
Lemma object_is_container (h : store) (b : nat) :
  store_ok h → (b < length h)%nat →
  is_list (denote h (RObj b)) || is_dict (denote h (RObj b)) = true.
Proof.
  intros Hok Hb. destruct (lookup_lt_is_Some_2 h b Hb) as [o Ho].
  rewrite (denote_obj h b o) by done. by destruct o.
Qed.

(** A dict object whose value has scalar fields only holds no address. *)
Lemma scalar_record_holds_no_address (h : store) (a : nat) (flat : dict) :
  store_ok h → (a < length h)%nat → denote h (RObj a) = PDict flat →
  scalar_fields flat → ∃ o, h !! a = Some o ∧ flat_obj o.
Proof.
  intros Hok Ha Hd Hflat. destruct (lookup_lt_is_Some_2 h a Ha) as [o Ho].
  exists o. split; [done|]. pose proof (Hok a o Ho) as Hrefs.
  rewrite (denote_obj h a o) in Hd by done.
  destruct o as [items|es]; [done|]. simpl in Hd. injection Hd as <-.
  unfold flat_obj. cbn [obj_refs] in *. unfold scalar_fields in Hflat.
  rewrite Forall_fmap in Hflat. rewrite Forall_fmap in Hrefs.
  rewrite Forall_fmap. apply Forall_forall. intros [k r] Hin.
  rewrite Forall_forall in Hflat. rewrite Forall_forall in Hrefs.
  specialize (Hflat _ Hin). specialize (Hrefs _ Hin). simpl in *.
  destruct r as [| | | |b]; try done. simpl in Hrefs.
  assert (Hb : (b < length h)%nat) by lia.
  pose proof (object_is_container h b Hok Hb) as Hc.
  unfold denote in Hc. congruence.
Qed.


(** ** Further properties *)

(** *** [format_last_modified] once more *)

Lemma month_name_head (m : Z) :
  ∃ c r, Datetime.month_name m = c :: r ∧ Datetime.is_digit c = false ∧ c ≠ 90.
Proof.
  destruct m as [|p|p]; [by eexists _, _| |by eexists _, _].
  do 4 (try destruct p as [p|p|]); by eexists _, _.
Qed.

Lemma strftime_head (dt : Datetime.datetime) :
  ∃ c r, Datetime.strftime dt = c :: r ∧ Datetime.is_digit c = false ∧ c ≠ 90.
Proof.
  destruct (month_name_head (Datetime.month dt)) as (c & r & Hm & Hc & HZ).
  unfold Datetime.strftime. rewrite Hm. by eexists _, _.
Qed.

Lemma replace_Z_head (c : Z) (r : pystr) :
  c ≠ 90 → ∃ r', replace (py "Z") (py "+00:00") (c :: r) = c :: r'.
Proof.
  intros Hc. unfold replace. change (py "Z") with [90]. cbn [length replace_fuel strip_prefix].
  rewrite bool_decide_eq_false_2 by done. by eexists.
Qed.

Lemma parse_iso_head (c : Z) (r : pystr) :
  Datetime.is_digit c = false → Datetime.parse_iso (c :: r) = None.
Proof.
  intros Hc. unfold Datetime.parse_iso. cbn [Datetime.parse_digits]. by rewrite Hc.
Qed.

(** X1: [format_last_modified] is idempotent: a value that has been through
    it goes through it unchanged, since the readable form starts with the
    name of a month and so does not parse as an ISO date. *)
Theorem format_last_modified_idempotent (v : value) :
  format_last_modified (format_last_modified v) = format_last_modified v.
Proof.
  destruct (truthy v) eqn:Hv; [|by rewrite (format_last_modified_falsy v)].
  assert (Hkept : format_last_modified v = v →
    format_last_modified (format_last_modified v) = format_last_modified v)
    by (intros H; by rewrite !H).
  destruct v as [|b|n|s|items|entries]; try (apply Hkept; unfold format_last_modified; by rewrite Hv).
  assert (Hs : s ≠ []) by (simpl in Hv; by destruct s).
  rewrite (format_last_modified_str s Hs).
  destruct (Datetime.parse_iso (replace (py "Z") (py "+00:00") s)) as [dt|] eqn:Hp.
  - destruct (strftime_head dt) as (c & r & Hf & Hc & HZ). rewrite Hf.
    rewrite format_last_modified_str by done.
    destruct (replace_Z_head c r HZ) as [r' ->]. by rewrite parse_iso_head.
  - rewrite format_last_modified_str by done. by rewrite Hp.
Qed.

(** *** [extract_data] once more *)

Lemma dict_lookup_set_ne {V : Type} (d : list (pystr * V)) (k k' : pystr) (v : V) :
  k ≠ k' → dict_lookup (dict_set d k v) k' = dict_lookup d k'.
Proof.
  intros Hk. induction d as [|[k0 v0] d IH]; simpl.
  - by rewrite bool_decide_eq_false_2.
  - destruct (decide (k0 = k)) as [->|Hne].
    + rewrite bool_decide_eq_true_2 by done. simpl.
      by rewrite !bool_decide_eq_false_2.
    + rewrite (bool_decide_eq_false_2 (k0 = k)) by done. simpl. by rewrite IH.
Qed.

Lemma dict_lookup_set_eq {V : Type} (d : list (pystr * V)) (k : pystr) (v : V) :
  dict_lookup (dict_set d k v) k = Some v.
Proof.
  induction d as [|[k0 v0] d IH]; simpl.
  - by rewrite bool_decide_eq_true_2.
  - destruct (decide (k0 = k)) as [->|Hne].
    + rewrite bool_decide_eq_true_2 by done. simpl.
      by rewrite bool_decide_eq_true_2.
    + rewrite (bool_decide_eq_false_2 (k0 = k)) by done. simpl.
      by rewrite bool_decide_eq_false_2.
Qed.

Lemma extract_data_frame (d d' : dict) :
  (∀ k, k ∈ keys_read → dict_get d k = dict_get d' k) →
  extract_data (PDict d) = extract_data (PDict d').
Proof.
  intros H. unfold extract_data.
  cbn [py_get_default mbind res_bind]. rewrite !resolve_or_empty, !py_get_dict.
  assert (Hin : ∀ k, In k keys_read → dict_get d k = dict_get d' k)
    by (intros k Hk; apply H; by apply list_elem_of_In).
  rewrite !(Hin (py "speciesCharacteristics")), !(Hin (py "speciesGlobal")),
    !(Hin (py "rankInfo")), !(Hin (py "lastModified")),
    !(Hin (py "elementGlobalId")), !(Hin (py "uniqueId")),
    !(Hin (py "primaryCommonName")), !(Hin (py "scientificName")),
    !(Hin (py "grankReasons")) by (simpl; auto 20).
  done.
Qed.

(** X2: [extract_data] reads nine keys of the raw record and nothing else:
    two records that agree on them give the same result, record or
    exception, and setting any other key of a record, new or present, to any
    value changes nothing. *)
Theorem extract_data_reads_nine_keys (d : dict) :
  (∀ d', (∀ k, k ∈ keys_read → dict_get d k = dict_get d' k) →
      extract_data (PDict d) = extract_data (PDict d'))
  ∧ (∀ k v, k ∉ keys_read →
      extract_data (PDict (dict_set d k v)) = extract_data (PDict d)).
Proof.
  split; [intros d'; apply extract_data_frame|].
  intros k v Hk. apply extract_data_frame. intros k' Hk'.
  unfold dict_get. rewrite dict_lookup_set_ne; [done|]. by intros ->.
Qed.

(** *** The text of a list or a mapping *)

Lemma hex_digit_printable (d : Z) : 0 ≤ d < 16 → printable_ascii (Json.hex_digit d).
Proof.
  intros Hd. unfold printable_ascii, Json.hex_digit. destruct (d <? 10); lia.
Qed.

Lemma u_escape_printable (n : Z) : Forall printable_ascii (Json.u_escape n).
Proof.
  unfold Json.u_escape, Json.hex4.
  repeat (constructor; [first [by unfold printable_ascii
    | apply hex_digit_printable, Z.mod_pos_bound; lia]|]).
  constructor.
Qed.

Lemma escape_char_printable (c : Z) : Forall printable_ascii (Json.escape_char c).
Proof.
  unfold Json.escape_char.
  repeat case_match;
    first [ apply u_escape_printable
          | apply Forall_app; split; apply u_escape_printable
          | repeat (constructor; [unfold printable_ascii; lia|]); constructor ].
Qed.

Lemma escape_printable (s : pystr) : Forall printable_ascii (Json.escape s).
Proof.
  induction s as [|c s IH]; [constructor|]. cbn [Json.escape].
  apply Forall_app. split; [apply escape_char_printable|done].
Qed.

Lemma encode_string_printable (s : pystr) :
  Forall printable_ascii (Json.encode_string s).
Proof.
  unfold Json.encode_string. constructor; [by unfold printable_ascii|].
  apply Forall_app. split; [apply escape_printable|].
  constructor; [by unfold printable_ascii|constructor].
Qed.

Lemma nat_digits_printable (n : Z) : 0 ≤ n → Forall printable_ascii (nat_digits n).
Proof.
  intros Hn. eapply Forall_impl; [by apply digits_fuel_digits|].
  intros c Hc. unfold Json.is_digit in Hc. unfold printable_ascii. lia.
Qed.

Lemma int_str_printable (n : Z) : Forall printable_ascii (int_str n).
Proof.
  unfold int_str. destruct (n <? 0) eqn:Hn.
  - apply Z.ltb_lt in Hn. constructor; [by unfold printable_ascii|].
    apply nat_digits_printable. lia.
  - apply Z.ltb_ge in Hn. by apply nat_digits_printable.
Qed.

Lemma join_printable {A : Type} (f : A → pystr) (xs : list A) :
  Forall (λ x, Forall printable_ascii (f x)) xs →
  Forall printable_ascii (join (py ", ") (f <$> xs)).
Proof.
  induction xs as [|x xs IH]; intros Hall; [constructor|].
  apply Forall_cons in Hall as [Hx Hall]. specialize (IH Hall).
  destruct xs as [|y xs]; [done|].
  rewrite join_fmap_cons2. apply Forall_app. split; [done|].
  apply Forall_app. split; [|done].
  repeat (constructor; [by unfold printable_ascii|]). constructor.
Qed.

Lemma dumps_printable (v : value) : Forall printable_ascii (Json.dumps v).
Proof.
  induction v as [|b|n|s|items IH|entries IH] using value_ind'.
  - repeat (constructor; [by unfold printable_ascii|]). constructor.
  - destruct b; repeat (constructor; [by unfold printable_ascii|]); constructor.
  - apply int_str_printable.
  - apply encode_string_printable.
  - cbn [Json.dumps]. apply Forall_app. split.
    { constructor; [by unfold printable_ascii|constructor]. }
    apply Forall_app. split; [by apply join_printable|].
    constructor; [by unfold printable_ascii|constructor].
  - cbn [Json.dumps]. apply Forall_app. split.
    { constructor; [by unfold printable_ascii|constructor]. }
    apply Forall_app. split.
    + apply join_printable. eapply Forall_impl; [exact IH|].
      intros [k x] Hx. cbn [fst snd] in *.
      apply Forall_app. split; [apply encode_string_printable|].
      apply Forall_app. split; [|done].
      repeat (constructor; [by unfold printable_ascii|]). constructor.
    + constructor; [by unfold printable_ascii|constructor].
Qed.

(** X3: the text [format_csv_value] gives for a list or a mapping is made of
    printable ASCII characters only, whatever the strings in it hold: such a
    cell has no line break, no control character and no character beyond
    ASCII. *)
Theorem json_cell_is_printable_ascii (v : value) :
  is_list v || is_dict v = true → Forall printable_ascii (format_csv_value v).
Proof.
  intros Hv. replace (format_csv_value v) with (Json.dumps v) by (by destruct v).
  apply dumps_printable.
Qed.

(** *** What [json.loads] returns *)

Lemma decoded_text_cons (c : Z) (s : pystr) :
  decoded_text (c :: s) = true →
  (0 ≤ c < 0x110000 ∧ is_surrogate c = false) ∧ decoded_text s = true.
Proof.
  unfold decoded_text. cbn [forallb]. intros [[Hv Hs]%andb_true_iff Hr]%andb_true_iff.
  split; [|done]. apply negb_true_iff in Hs. unfold valid_code_point in Hv.
  split; [lia|done].
Qed.

Lemma decoded_text_skip_ws (s : pystr) :
  decoded_text s = true → decoded_text (Json.skip_ws s) = true.
Proof.
  induction s as [|c s IH]; [done|]. intros Hs. cbn [Json.skip_ws].
  destruct (Json.is_ws c); [|done]. by apply IH, (decoded_text_cons c).
Qed.

Lemma decoded_text_strip_prefix (p s rest : pystr) :
  decoded_text s = true → strip_prefix p s = Some rest → decoded_text rest = true.
Proof.
  revert s. induction p as [|x p IH]; intros s Hs; [by intros [= <-]|].
  destruct s as [|c s]; [done|]. cbn [strip_prefix].
  case_bool_decide; [|done]. by apply IH, (decoded_text_cons c).
Qed.

Lemma decoded_text_scan_digits (acc : Z) (s : pystr) :
  decoded_text s = true → decoded_text (Json.scan_digits acc s).2 = true.
Proof.
  revert acc. induction s as [|c s IH]; intros acc Hs; [done|].
  cbn [Json.scan_digits]. destruct (Json.is_digit c); [|done].
  by apply IH, (decoded_text_cons c).
Qed.

Lemma decoded_text_scan_nat (s rest : pystr) (n : Z) :
  decoded_text s = true → Json.scan_nat s = Some (n, rest) →
  decoded_text rest = true.
Proof.
  destruct s as [|c s]; [done|]. intros [_ Hs]%decoded_text_cons.
  cbn [Json.scan_nat]. destruct (c =? 48); [by intros [= _ <-]|].
  destruct (Json.is_digit c); [|done].
  pose proof (decoded_text_scan_digits (c - 48) s Hs) as Hd.
  destruct (Json.scan_digits (c - 48) s). by intros [= _ <-].
Qed.

Lemma decoded_text_scan_int (s rest : pystr) (n : Z) :
  decoded_text s = true → Json.scan_int s = Some (n, rest) →
  decoded_text rest = true.
Proof.
  destruct s as [|c s]; [done|]. intros Hs. cbn [Json.scan_int].
  destruct (c =? 45).
  - apply decoded_text_cons in Hs as [_ Hs].
    destruct (Json.scan_nat s) as [[m r]|] eqn:Hn; [|done].
    intros [= _ <-]. by apply (decoded_text_scan_nat s r m).
  - by apply decoded_text_scan_nat.
Qed.

Lemma hex_val_range (c x : Z) : Json.hex_val c = Some x → 0 ≤ x < 16.
Proof.
  unfold Json.hex_val. repeat case_match; intros [= <-]; lia.
Qed.

Lemma decode_hex4_range (a b c d u : Z) :
  Json.decode_hex4 a b c d = Some u → 0 ≤ u < 0x10000.
Proof.
  unfold Json.decode_hex4.
  destruct (Json.hex_val a) as [x1|] eqn:H1; [|done].
  destruct (Json.hex_val b) as [x2|] eqn:H2; [|done].
  destruct (Json.hex_val c) as [x3|] eqn:H3; [|done].
  destruct (Json.hex_val d) as [x4|] eqn:H4; [|done].
  cbn [mbind option_bind]. intros [= <-].
  apply hex_val_range in H1, H2, H3, H4. lia.
Qed.

Lemma join_surrogates_range (u u2 : Z) :
  Json.is_high_surrogate u = true → Json.is_low_surrogate u2 = true →
  0x10000 ≤ Json.join_surrogates u u2 < 0x110000.
Proof.
  unfold Json.is_high_surrogate, Json.is_low_surrogate, Json.join_surrogates.
  intros Hu Hu2. rewrite Z.shiftl_mul_pow2 by lia.
  change (2 ^ 10) with 1024. rewrite lor_disjoint by lia. lia.
Qed.

Lemma unescape_plain (e ch : Z) :
  Json.unescape e = Some ch →
  0 ≤ ch < 0x110000 ∧ Json.is_high_surrogate ch = false
  ∧ Json.is_low_surrogate ch = false.
Proof.
  unfold Json.unescape, Json.is_high_surrogate, Json.is_low_surrogate.
  repeat case_match; intros [= <-]; lia.
Qed.

(** One more character in front of a well-formed string. *)
Lemma wf_str_cons (c : Z) (str : pystr) :
  0 ≤ c < 0x110000 →
  (Json.is_high_surrogate c = true →
   ∀ c', head str = Some c' → Json.is_low_surrogate c' = false) →
  wf_str str = true → wf_str (c :: str) = true.
Proof.
  intros Hc Hnext Hstr. cbn [wf_str]. rewrite Hstr, andb_true_r.
  apply andb_true_iff. split; [unfold valid_code_point; lia|].
  apply negb_true_iff, andb_false_iff.
  destruct (Json.is_high_surrogate c); [right|by left].
  destruct str as [|c' str]; [done|]. by apply Hnext.
Qed.

(** What [scanstring] returns for a decoded text is well formed; it starts
    with a low surrogate only when the text starts with the escape of one. *)
Lemma scanstring_wf (n : nat) (s str rest : pystr) :
  (length s ≤ n)%nat → decoded_text s = true →
  Json.scanstring s = Ok (str, rest) →
  wf_str str = true ∧ decoded_text rest = true
  ∧ ∀ c, head str = Some c → Json.is_low_surrogate c = true →
      ∃ g1 g2 g3 g4 r, s = 92 :: 117 :: g1 :: g2 :: g3 :: g4 :: r
        ∧ Json.decode_hex4 g1 g2 g3 g4 = Some c.
Proof.
  revert s str rest. induction n as [|n IH]; intros s str rest Hn Hs Hscan.
  { destruct s; [done|simpl in Hn; lia]. }
  destruct s as [|c r]; [done|]. cbn [Json.scanstring] in Hscan.
  apply decoded_text_cons in Hs as [[Hc Hcs] Hr]. cbn [length] in Hn.
  destruct (c =? 34); [injection Hscan as <- <-; by split_and!|].
  destruct (c =? 92) eqn:Hback.
  - destruct r as [|e r1]; [done|].
    apply decoded_text_cons in Hr as [_ Hr1]. cbn [length] in Hn.
    destruct (e =? 117) eqn:Hu.
    + apply Z.eqb_eq in Hback as ->. apply Z.eqb_eq in Hu as ->.
      destruct r1 as [|h1 [|h2 [|h3 [|h4 r2]]]]; try done.
      assert (Hr2 : decoded_text r2 = true).
      { do 4 apply decoded_text_cons in Hr1 as [_ Hr1]. done. }
      cbn [length] in Hn.
      destruct (Json.decode_hex4 h1 h2 h3 h4) as [uni|] eqn:Huni; [|done].
      pose proof (decode_hex4_range _ _ _ _ _ Huni) as Hrange.
      assert (Hplain : ∀ str' rest',
        Json.scanstring r2 = Ok (str', rest') →
        (Json.is_high_surrogate uni = true →
         ∀ g1 g2 g3 g4 r c', r2 = 92 :: 117 :: g1 :: g2 :: g3 :: g4 :: r →
           Json.decode_hex4 g1 g2 g3 g4 = Some c' →
           Json.is_low_surrogate c' = false) →
        wf_str (uni :: str') = true ∧ decoded_text rest' = true
        ∧ ∀ c, head (uni :: str') = Some c → Json.is_low_surrogate c = true →
            ∃ g1 g2 g3 g4 r,
              92 :: 117 :: h1 :: h2 :: h3 :: h4 :: r2
              = 92 :: 117 :: g1 :: g2 :: g3 :: g4 :: r
              ∧ Json.decode_hex4 g1 g2 g3 g4 = Some c).
      { intros str' rest' Hrec Hnext.
        destruct (IH r2 str' rest' ltac:(lia) Hr2 Hrec) as (Hwf & Hrest & Hhead).
        split_and!; [|done|].
        - apply wf_str_cons; [lia| |done]. intros Hhigh c' Hc'.
          destruct (Json.is_low_surrogate c') eqn:Hlow; [|done].
          destruct (Hhead c' Hc' Hlow) as (g1 & g2 & g3 & g4 & r & Hr2' & Hg).
          by rewrite (Hnext Hhigh g1 g2 g3 g4 r c' Hr2' Hg) in Hlow.
        - intros c' [= <-] Hlow. by exists h1, h2, h3, h4, r2. }
      destruct r2 as [|b [|u r3]].
      * destruct (Json.scanstring []) as [[str' rest']|] eqn:Hrec; [|done].
        cbn [mbind res_bind] in Hscan. injection Hscan as <- <-.
        apply Hplain; [done|]. by intros.
      * destruct (Json.scanstring [b]) as [[str' rest']|] eqn:Hrec; [|done].
        cbn [mbind res_bind] in Hscan. injection Hscan as <- <-.
        apply Hplain; [done|]. by intros.
      * destruct (Json.is_high_surrogate uni && (b =? 92) && (u =? 117)) eqn:Hpair.
        -- apply andb_true_iff in Hpair as [[Hhigh Hb]%andb_true_iff Hu].
           apply Z.eqb_eq in Hb as ->. apply Z.eqb_eq in Hu as ->.
           destruct r3 as [|g1 [|g2 [|g3 [|g4 r4]]]]; try done.
           destruct (Json.decode_hex4 g1 g2 g3 g4) as [uni2|] eqn:Huni2; [|done].
           destruct (Json.is_low_surrogate uni2) eqn:Hlow2.
           ++ destruct (Json.scanstring r4) as [[str' rest']|] eqn:Hrec; [|done].
              cbn [mbind res_bind] in Hscan. injection Hscan as <- <-.
              assert (Hr4 : decoded_text r4 = true).
              { do 6 apply decoded_text_cons in Hr2 as [_ Hr2]. done. }
              cbn [length] in Hn.
              destruct (IH r4 str' rest' ltac:(lia) Hr4 Hrec) as (Hwf & Hrest & _).
              pose proof (join_surrogates_range uni uni2 Hhigh Hlow2) as Hj.
              split_and!; [|done|].
              ** apply wf_str_cons; [lia| |done].
                 unfold Json.is_high_surrogate. intros; lia.
              ** intros c' [= <-]. unfold Json.is_low_surrogate. lia.
           ++ destruct (Json.scanstring (92 :: 117 :: g1 :: g2 :: g3 :: g4 :: r4))
                as [[str' rest']|] eqn:Hrec; [|done].
              cbn [mbind res_bind] in Hscan. injection Hscan as <- <-.
              apply Hplain; [done|].
              intros _ g1' g2' g3' g4' r c' [= <- <- <- <- <-] Hg. congruence.
        -- destruct (Json.scanstring (b :: u :: r3)) as [[str' rest']|] eqn:Hrec;
             [|done].
           cbn [mbind res_bind] in Hscan. injection Hscan as <- <-.
           apply Hplain; [done|].
           intros Hhigh g1 g2 g3 g4 r c' [= -> -> ->] _.
           rewrite Hhigh in Hpair. done.
    + destruct (Json.unescape e) as [ch|] eqn:Hch; [|done].
      destruct (Json.scanstring r1) as [[str' rest']|] eqn:Hrec; [|done].
      cbn [mbind res_bind] in Hscan. injection Hscan as <- <-.
      destruct (IH r1 str' rest' ltac:(lia) Hr1 Hrec) as (Hwf & Hrest & _).
      destruct (unescape_plain e ch Hch) as (Hrange & Hhigh & Hlow).
      split_and!; [|done|].
      * apply wf_str_cons; [done| |done]. by rewrite Hhigh.
      * intros c' [= <-]. by rewrite Hlow.
  - destruct (c <? 32); [done|].
    destruct (Json.scanstring r) as [[str' rest']|] eqn:Hrec; [|done].
    cbn [mbind res_bind] in Hscan. injection Hscan as <- <-.
    destruct (IH r str' rest' ltac:(lia) Hr Hrec) as (Hwf & Hrest & _).
    unfold is_surrogate in Hcs.
    split_and!; [|done|].
    + apply wf_str_cons; [done| |done].
      unfold Json.is_high_surrogate. intros; lia.
    + intros c' [= <-]. unfold Json.is_low_surrogate. lia.
Qed.

Lemma dict_set_keys {V : Type} (d : list (pystr * V)) (k : pystr) (v : V) :
  dict_keys (dict_set d k v)
  = if bool_decide (k ∈ dict_keys d) then dict_keys d else dict_keys d ++ [k].
Proof.
  induction d as [|[k0 v0] d IH]; [done|]. cbn [dict_set].
  destruct (decide (k0 = k)) as [->|Hne].
  - rewrite bool_decide_eq_true_2 by done.
    rewrite (bool_decide_eq_true_2 (k ∈ _)) by (simpl; left). done.
  - rewrite bool_decide_eq_false_2 by done. unfold dict_keys in *.
    cbn [fmap list_fmap fst]. rewrite IH.
    destruct (decide (k ∈ d.*1)) as [Hin|Hnin].
    + rewrite !bool_decide_eq_true_2; [done|by right|done].
    + rewrite !bool_decide_eq_false_2; [done| |done].
      intros [?|?]%elem_of_cons; [congruence|done].
Qed.

Lemma dict_set_nodup {V : Type} (d : list (pystr * V)) (k : pystr) (v : V) :
  NoDup (dict_keys d) → NoDup (dict_keys (dict_set d k v)).
Proof.
  intros Hd. rewrite dict_set_keys. case_bool_decide as Hk; [done|].
  apply NoDup_app. split_and!; [done| |apply NoDup_singleton].
  intros x Hx ->%list_elem_of_singleton. done.
Qed.

Lemma dict_set_forall {V : Type} (P : pystr * V → Prop) (d : list (pystr * V))
    (k : pystr) (v : V) :
  Forall P d → P (k, v) → Forall P (dict_set d k v).
Proof.
  intros Hd Hkv. induction d as [|[k0 v0] d IH]; [by constructor|].
  apply Forall_cons in Hd as [H0 Hd]. cbn [dict_set]. case_bool_decide as Hk.
  - subst k0. by constructor.
  - constructor; [done|by apply IH].
Qed.

(** A dict built from pairs has no repeated key, and its entries are among
    the pairs. *)
Lemma dict_of_pairs_wf (P : pystr * value → Prop) (pairs : list (pystr * value)) :
  Forall P pairs →
  NoDup (dict_keys (Json.dict_of_pairs pairs)) ∧ Forall P (Json.dict_of_pairs pairs).
Proof.
  unfold Json.dict_of_pairs.
  assert (Hgen : ∀ acc : dict, NoDup (dict_keys acc) → Forall P acc → Forall P pairs →
    NoDup (dict_keys (foldl (λ d kv, dict_set d kv.1 kv.2) acc pairs))
    ∧ Forall P (foldl (λ d kv, dict_set d kv.1 kv.2) acc pairs)).
  { induction pairs as [|[k v] pairs IH]; intros acc Hnd Hacc Hpairs; [done|].
    apply Forall_cons in Hpairs as [Hkv Hpairs]. cbn [foldl]. apply IH; [| |done].
    - by apply dict_set_nodup.
    - by apply dict_set_forall. }
  intros Hpairs. apply Hgen; [constructor|constructor|done].
Qed.

Lemma forallb_Forall {A : Type} (f : A → bool) (l : list A) :
  forallb f l = true ↔ Forall (λ x, f x = true) l.
Proof.
  induction l as [|x l IH]; [by split; [constructor|]|].
  cbn [forallb]. rewrite andb_true_iff, IH. split.
  - intros [? ?]. by constructor.
  - by intros [? ?]%Forall_cons.
Qed.

(** What the scanner returns for a decoded text is well formed. *)
Lemma scan_wf (fuel : nat) :
  (∀ s v rest, decoded_text s = true → Json.scan_once fuel s = Ok (v, rest) →
     wf_value v = true ∧ decoded_text rest = true)
  ∧ (∀ s items rest, decoded_text s = true →
       Json.array_items fuel s = Ok (items, rest) →
       forallb wf_value items = true ∧ decoded_text rest = true)
  ∧ (∀ s pairs rest, decoded_text s = true →
       Json.object_items fuel s = Ok (pairs, rest) →
       forallb (λ kv, wf_str kv.1 && wf_value kv.2) pairs = true
       ∧ decoded_text rest = true).
Proof.
  induction fuel as [|fuel (IHv & IHa & IHo)]; [by split_and!|].
  split_and!.
  - intros s v rest Hs Hscan. destruct s as [|c r]; [done|].
    pose proof Hs as [_ Hr]%decoded_text_cons.
    pose proof (decoded_text_skip_ws r Hr) as Hskip.
    cbn [Json.scan_once] in Hscan.
    destruct (c =? 34).
    { destruct (Json.scanstring r) as [[str rest']|] eqn:Hstr; [|done].
      cbn [mbind res_bind] in Hscan. injection Hscan as <- <-.
      destruct (scanstring_wf (length r) r str rest' ltac:(done) Hr Hstr)
        as (Hwf & Hrest & _). done. }
    destruct (c =? 123).
    { destruct (Json.skip_ws r) as [|q r']; [done|].
      apply decoded_text_cons in Hskip as [_ Hr'].
      destruct (q =? 125); [by injection Hscan as <- <-|].
      destruct (q =? 34); [|done].
      destruct (Json.object_items fuel r') as [[pairs rest']|] eqn:Hobj; [|done].
      cbn [mbind res_bind] in Hscan. injection Hscan as <- <-.
      destruct (IHo r' pairs rest' Hr' Hobj) as [Hpairs Hrest]. split; [|done].
      apply forallb_Forall in Hpairs.
      destruct (dict_of_pairs_wf _ pairs Hpairs) as [Hnd Hall].
      cbn [wf_value]. apply andb_true_iff. split.
      - by apply bool_decide_eq_true_2.
      - by apply forallb_Forall. }
    destruct (c =? 91).
    { destruct (Json.skip_ws r) as [|q r'] eqn:Hq; [done|].
      destruct (q =? 93).
      - injection Hscan as <- <-. by apply decoded_text_cons in Hskip as [_ Hr'].
      - destruct (Json.array_items fuel (q :: r')) as [[items rest']|] eqn:Harr;
          [|done].
        cbn [mbind res_bind] in Hscan. injection Hscan as <- <-.
        by apply (IHa (q :: r')). }
    destruct (strip_prefix (py "null") (c :: r)) as [rest0|] eqn:Hnull.
    { injection Hscan as <- <-. split; [done|].
      by apply (decoded_text_strip_prefix _ _ _ Hs Hnull). }
    destruct (strip_prefix (py "true") (c :: r)) as [rest0|] eqn:Htrue.
    { injection Hscan as <- <-. split; [done|].
      by apply (decoded_text_strip_prefix _ _ _ Hs Htrue). }
    destruct (strip_prefix (py "false") (c :: r)) as [rest0|] eqn:Hfalse.
    { injection Hscan as <- <-. split; [done|].
      by apply (decoded_text_strip_prefix _ _ _ Hs Hfalse). }
    destruct (Json.scan_int (c :: r)) as [[n rest0]|] eqn:Hint.
    + destruct (Json.float_follows rest0); [done|]. injection Hscan as <- <-.
      split; [done|]. by apply (decoded_text_scan_int _ _ _ Hs Hint).
    + by destruct (_ || _).
  - intros s items rest Hs Hscan. rewrite array_items_step in Hscan.
    destruct (Json.scan_once fuel s) as [[v r]|] eqn:Hv; [|done].
    cbn [mbind res_bind] in Hscan.
    destruct (IHv s v r Hs Hv) as [Hwf Hr].
    pose proof (decoded_text_skip_ws r Hr) as Hskip.
    destruct (Json.skip_ws r) as [|c r']; [done|].
    apply decoded_text_cons in Hskip as [_ Hr'].
    destruct (c =? 93).
    { injection Hscan as <- <-. split; [|done]. cbn [forallb]. by rewrite Hwf. }
    destruct (c =? 44); [|done].
    destruct (Json.array_items fuel (Json.skip_ws r')) as [[vs rest']|] eqn:Hvs;
      [|done].
    cbn [mbind res_bind] in Hscan. injection Hscan as <- <-.
    destruct (IHa _ vs rest' (decoded_text_skip_ws r' Hr') Hvs) as [Hall Hrest].
    split; [|done]. cbn [forallb]. by rewrite Hwf, Hall.
  - intros s pairs rest Hs Hscan. rewrite object_items_step in Hscan.
    destruct (Json.scanstring s) as [[key r]|] eqn:Hkey; [|done].
    cbn [mbind res_bind] in Hscan.
    destruct (scanstring_wf (length s) s key r ltac:(done) Hs Hkey)
      as (Hkwf & Hr & _).
    pose proof (decoded_text_skip_ws r Hr) as Hskip.
    destruct (Json.skip_ws r) as [|c r']; [done|].
    apply decoded_text_cons in Hskip as [_ Hr'].
    destruct (c =? 58); [|done].
    destruct (Json.scan_once fuel (Json.skip_ws r')) as [[v r1]|] eqn:Hv; [|done].
    cbn [mbind res_bind] in Hscan.
    destruct (IHv _ v r1 (decoded_text_skip_ws r' Hr') Hv) as [Hwf Hr1].
    pose proof (decoded_text_skip_ws r1 Hr1) as Hskip1.
    destruct (Json.skip_ws r1) as [|c1 r1']; [done|].
    apply decoded_text_cons in Hskip1 as [_ Hr1'].
    destruct (c1 =? 125).
    { injection Hscan as <- <-. split; [|done]. cbn [forallb fst snd].
      by rewrite Hkwf, Hwf. }
    destruct (c1 =? 44); [|done].
    pose proof (decoded_text_skip_ws r1' Hr1') as Hskip2.
    destruct (Json.skip_ws r1') as [|q r2]; [done|].
    apply decoded_text_cons in Hskip2 as [_ Hr2].
    destruct (q =? 34); [|done].
    destruct (Json.object_items fuel r2) as [[kvs rest']|] eqn:Hkvs; [|done].
    cbn [mbind res_bind] in Hscan. injection Hscan as <- <-.
    destruct (IHo r2 kvs rest' Hr2 Hkvs) as [Hall Hrest].
    split; [|done]. cbn [forallb fst snd]. by rewrite Hkwf, Hwf, Hall.
Qed.

(** [json.loads] of a decoded text returns a well-formed value. *)
Lemma loads_wf (s : pystr) (v : value) :
  decoded_text s = true → Json.loads s = Ok v → wf_value v = true.
Proof.
  intros Hs. unfold Json.loads. destruct (Json.is_prefix_of _ s); [done|].
  destruct (Json.scan_once (S (length s)) (Json.skip_ws s)) as [[v' rest]|] eqn:Hv;
    [|done].
  cbn [mbind res_bind]. destruct (Json.skip_ws rest); [|done]. intros [= <-].
  by destruct (proj1 (scan_wf _) _ _ _ (decoded_text_skip_ws s Hs) Hv).
Qed.

(** *** From the raw record to the row *)

Lemma habitat_cell (v : value) (hk dk : pystr) :
  format_csv_value (extract_habitat_descriptions v hk dk)
  = join (py ", ") (collected_descriptions hk dk (list_items v)).
Proof.
  destruct (is_list v) eqn:Hv.
  - destruct v as [| | | |items|]; try done. cbn [list_items].
    rewrite extract_habitat_descriptions_list.
    by destruct (collected_descriptions hk dk items).
  - rewrite extract_habitat_descriptions_not_list by done. by destruct v.
Qed.

(** X4: the habitat columns of a success row, end to end: when
    [extract_data] returns a record for the raw record [d], the cell under
    the [j]-th habitat header holds the English descriptions of the [j]-th
    habitat list of [speciesCharacteristics], in list order, joined by
    [", "]; it is empty when there is none or the list is missing or not a
    list. *)
Theorem habitat_columns_of_a_row (d flat : dict) (u : pystr) :
  extract_data (PDict d) = Ok flat →
  ∃ sc row,
    resolve (dict_get d (py "speciesCharacteristics")) = Some sc
    ∧ row_of_result (success u flat) = Ok row
    ∧ ∀ (j : nat) api hk dk out, habitat_types !! j = Some (api, hk, dk, out) →
        headers !! (10 + j)%nat = Some out
        ∧ row !! (10 + j)%nat
          = Some (join (py ", ")
                    (collected_descriptions hk dk (list_items (dict_get sc api)))).
Proof.
  intros Hflat. pose proof (extract_data_dict d) as Hd.
  unfold intermediates in Hd.
  destruct (resolve (dict_get d (py "speciesCharacteristics"))) as [sc|] eqn:Hsc;
    cbn [mbind option_bind] in Hd;
    [|destruct Hd as (w & _ & _ & Hw); congruence].
  destruct (resolve (dict_get d (py "speciesGlobal"))) as [sg|];
    cbn [mbind option_bind] in Hd;
    [|destruct Hd as (w & _ & _ & Hw); congruence].
  destruct (resolve (dict_get d (py "rankInfo"))) as [ri|];
    cbn [mbind option_bind] in Hd;
    [|destruct Hd as (w & _ & _ & Hw); congruence].
  destruct (resolve (dict_get ri (py "rangeExtent"))) as [re|];
    cbn [mbind option_bind] in Hd;
    [|destruct Hd as (w & _ & _ & Hw); congruence].
  rewrite Hflat in Hd. injection Hd as ->.
  exists sc. eexists. split; [done|]. split; [apply row_of_success|].
  intros j api hk dk out Hj.
  do 7 (destruct j as [|j];
    [injection Hj as <- <- <- <-; split; [done|];
     cbn [Nat.add lookup list_lookup headers tail fmap list_fmap];
     f_equal; rewrite <- habitat_cell; reflexivity|]).
  done.
Qed.

(** *** [str.strip] *)

(** [lstrip] removes a run of white space from the front and stops at the
    first character that is none. *)
Lemma lstrip_spec (s : pystr) :
  ∃ ws, s = ws ++ lstrip s ∧ Forall (λ c, is_space c = true) ws
        ∧ ∀ c, head (lstrip s) = Some c → is_space c = false.
Proof.
  induction s as [|c s (ws & Hs & Hws & Hhead)]; [by exists []|].
  cbn [lstrip]. destruct (is_space c) eqn:Hc.
  - exists (c :: ws). split_and!; [by rewrite Hs at 1|by constructor|done].
  - exists []. split_and!; [done|constructor|]. by intros c' [= <-].
Qed.

Lemma lstrip_kept (s : pystr) :
  (∀ c, head s = Some c → is_space c = false) → lstrip s = s.
Proof. destruct s as [|c s]; [done|]. intros H. simpl. by rewrite (H c). Qed.

Lemma rstrip_spec (s : pystr) :
  ∃ ws, s = rstrip s ++ ws ∧ Forall (λ c, is_space c = true) ws
        ∧ ∀ c, last (rstrip s) = Some c → is_space c = false.
Proof.
  unfold rstrip. destruct (lstrip_spec (reverse s)) as (ws & Hs & Hws & Hhead).
  exists (reverse ws). split_and!.
  - rewrite <- reverse_app, <- Hs. by rewrite reverse_involutive.
  - by apply Forall_reverse.
  - intros c. rewrite last_reverse. apply Hhead.
Qed.

Lemma rstrip_kept (s : pystr) :
  (∀ c, last s = Some c → is_space c = false) → rstrip s = s.
Proof.
  intros H. unfold rstrip. rewrite lstrip_kept; [apply reverse_involutive|].
  intros c. rewrite head_reverse. apply H.
Qed.

(** [strip] removes white space at both ends and leaves a string that is
    empty or starts and ends with a character that is none. *)
Lemma strip_spec (s : pystr) :
  ∃ ws1 ws2, s = ws1 ++ strip s ++ ws2
    ∧ Forall (λ c, is_space c = true) ws1 ∧ Forall (λ c, is_space c = true) ws2
    ∧ (∀ c, head (strip s) = Some c → is_space c = false)
    ∧ (∀ c, last (strip s) = Some c → is_space c = false).
Proof.
  unfold strip.
  destruct (lstrip_spec s) as (ws1 & Hs & Hws1 & Hhead).
  destruct (rstrip_spec (lstrip s)) as (ws2 & Ht & Hws2 & Hlast).
  exists ws1, ws2. split_and!; [by rewrite <- Ht|done|done| |done].
  intros c Hc. apply Hhead. rewrite Ht.
  destruct (rstrip (lstrip s)); [done|]. exact Hc.
Qed.

Lemma strip_kept (s : pystr) :
  (∀ c, head s = Some c → is_space c = false) →
  (∀ c, last s = Some c → is_space c = false) → strip s = s.
Proof.
  intros Hhead Hlast. unfold strip. rewrite lstrip_kept by done.
  by apply rstrip_kept.
Qed.

Lemma strip_clean (s : pystr) : strip s ≠ [] → clean (strip s).
Proof.
  intros Hs. destruct (strip_spec s) as (_ & _ & _ & _ & _ & Hhead & Hlast).
  by split_and!.
Qed.

(** *** [load_species_from_csv] *)

Lemma omap_length_le {A B : Type} (f : A → option B) (l : list A) :
  (length (omap f l) ≤ length l)%nat.
Proof.
  induction l as [|x l IH]; [done|]. cbn [omap list_omap].
  destruct (f x); simpl; lia.
Qed.

Lemma load_step_row_id (species_ids : list pystr) (row : list pystr) :
  load_step species_ids row = species_ids ++ option_list (row_id row).
Proof.
  destruct row as [|first rest]; simpl; [by rewrite app_nil_r|].
  case_bool_decide; simpl; [by rewrite app_nil_r|done].
Qed.

Lemma load_loop (rows : list (list pystr)) (species_ids : list pystr) :
  foldl load_step species_ids rows = species_ids ++ omap row_id rows.
Proof.
  revert species_ids. induction rows as [|row rows IH]; intros species_ids.
  - by rewrite app_nil_r.
  - cbn [foldl]. rewrite IH, load_step_row_id. rewrite <- app_assoc. f_equal.
    simpl. by destruct (row_id row).
Qed.

Lemma row_id_clean (row : list pystr) (id : pystr) :
  row_id row = Some id → clean id.
Proof.
  destruct row as [|first rest]; [done|]. simpl.
  case_bool_decide as Hs; [done|]. intros [= <-]. by apply strip_clean.
Qed.

Lemma load_returns (file_path : pystr) (ids : list pystr) :
  load_species_from_csv file_path = inr ids →
  path_exists file_path = true
  ∧ ∃ rows, read_rows file_path = Ok rows ∧ ids = omap row_id rows.
Proof.
  unfold load_species_from_csv. destruct (path_exists file_path); [|done].
  destruct (read_rows file_path) as [rows|e]; [|done].
  intros [= <-]. split; [done|]. exists rows. split; [done|].
  by rewrite load_loop.
Qed.

(** X5: every identifier [load_species_from_csv] returns is clean: it is not
    empty, it neither starts nor ends with white space, and stripping it
    again changes nothing. *)
Theorem loaded_identifiers_are_clean (file_path : pystr) (ids : list pystr) :
  load_species_from_csv file_path = inr ids →
  Forall (λ id, clean id ∧ strip id = id) ids.
Proof.
  intros (_ & rows & _ & ->)%load_returns.
  apply Forall_forall. intros id (row & _ & Hid)%list_elem_of_omap.
  apply row_id_clean in Hid as Hclean. split; [done|].
  destruct Hclean as (_ & Hhead & Hlast). by apply strip_kept.
Qed.

(** X6: [load_species_from_csv] keeps, for each row of the data file in
    order, the first cell stripped, unless the row is empty or that cell is
    blank: no row is taken for a header, nothing is deduplicated, and the
    cells after the first are not read.  Without the file it raises
    [FileNotFoundError] with the path in the message. *)
Theorem load_species_from_csv_spec (file_path : pystr) :
  (path_exists file_path = false →
     load_species_from_csv file_path
     = inl (FileNotFoundError (py "Data file not found: " ++ file_path)))
  ∧ (∀ rows, path_exists file_path = true → read_rows file_path = Ok rows →
       load_species_from_csv file_path = inr (omap row_id rows)
       ∧ (length (omap row_id rows) ≤ length rows)%nat)
  ∧ (∀ rows rows' : list (list pystr), head <$> rows = head <$> rows' →
       omap row_id rows = omap row_id rows').
Proof.
  split_and!.
  - intros H. unfold load_species_from_csv. by rewrite H.
  - intros rows Hp Hr. unfold load_species_from_csv. rewrite Hp, Hr. simpl.
    rewrite load_loop. split; [done|]. apply omap_length_le.
  - intros rows. induction rows as [|row rows IH]; intros [|row' rows'] H; try done.
    injection H as Hrow Hrows. cbn [omap list_omap].
    rewrite (IH rows' Hrows).
    assert (row_id row = row_id row') as ->; [|done].
    destruct row, row'; try done. simpl in Hrow. by injection Hrow as ->.
Qed.

(** *** The CSV reader, line by line and character by character *)

Lemma run_chars_app (p : Csv.parser) (a b : pystr) :
  run_chars p (a ++ b) = run_chars p a ≫= λ p', run_chars p' b.
Proof.
  revert p. induction a as [|c a IH]; intros p; [done|].
  cbn [app run_chars]. destruct (Csv.parse_process_char p (Some c)); [|done].
  cbn [mbind res_bind]. apply IH.
Qed.

Lemma process_line_app (p : Csv.parser) (a b : pystr) :
  Csv.process_line p (a ++ b) = run_chars p a ≫= λ p', Csv.process_line p' b.
Proof.
  revert p. induction a as [|c a IH]; intros p; [done|].
  cbn [app run_chars Csv.process_line].
  destruct (Csv.parse_process_char p (Some c)); [|done].
  cbn [mbind res_bind]. apply IH.
Qed.

Lemma next_record_line (p p' : Csv.parser) (line : pystr) (rest : list pystr) :
  Csv.process_line p line = Ok p' →
  Csv.next_record p (line :: rest)
  = if record_done p' then Ok (Some (Csv.fields p', rest))
    else Csv.next_record p' rest.
Proof.
  intros Hline. cbn [Csv.next_record]. rewrite Hline. cbn [mbind res_bind].
  unfold record_done. by destruct (Csv.st p').
Qed.

(** Reading the lines of a text is reading the text. *)
Lemma stream_lines (n : nat) (text cur : pystr) (p0 q : Csv.parser)
    (pending : bool) (result : option (list pystr * pystr)) :
  (length text ≤ n)%nat → run_chars p0 cur = Ok q →
  pending = negb (bool_decide (cur = [])) →
  stream q pending text = Ok result →
  Csv.next_record p0 (Csv.lines_from cur text)
  = Ok ((λ found, (found.1, Csv.split_lines found.2)) <$> result).
Proof.
  revert text cur p0 q pending result.
  induction n as [|n IH]; intros text cur p0 q pending result Hn Hcur Hpending Hs.
  - destruct text; [|simpl in Hn; lia]. clear Hn.
    cbn [stream Csv.lines_from] in *. destruct cur as [|c0 cur].
    + subst pending. cbn in Hs. injection Hcur as ->. injection Hs as <-.
      cbn [Csv.next_record]. by destruct (Csv.at_end q).
    + subst pending. cbn [negb] in Hs.
      rewrite bool_decide_eq_false_2 in Hs by done. cbn [negb] in Hs.
      destruct (Csv.parse_process_char q None) as [q'|] eqn:Hq'; [|done].
      cbn [mbind res_bind] in Hs.
      rewrite (next_record_line p0 q').
      * destruct (record_done q'); [by injection Hs as <-|].
        injection Hs as <-. cbn [Csv.next_record]. by destruct (Csv.at_end q').
      * rewrite <- (app_nil_r (c0 :: cur)), process_line_app, Hcur. done.
  - destruct text as [|c r].
    { apply (IH [] cur p0 q pending result); [simpl; lia|done..]. }
    cbn [length] in Hn. cbn [stream] in Hs.
    destruct (Csv.parse_process_char q (Some c)) as [q1|] eqn:Hq1; [|done].
    cbn [mbind res_bind] in Hs. cbn [Csv.lines_from].
    destruct (c =? 10) eqn:H10.
    { apply Z.eqb_eq in H10 as ->.
      destruct (Csv.parse_process_char q1 None) as [q'|] eqn:Hq'; [|done].
      cbn [mbind res_bind] in Hs.
      rewrite (next_record_line p0 q').
      - destruct (record_done q'); [by injection Hs as <-|].
        by apply (IH r [] q' q' false result); [lia|done|done|].
      - rewrite process_line_app, Hcur. cbn [mbind res_bind Csv.process_line].
        by rewrite Hq1. }
    destruct (c =? 13) eqn:H13.
    { apply Z.eqb_eq in H13 as ->.
      assert (Hlone : ∀ q', Csv.parse_process_char q1 None = Ok q' →
        (if record_done q' then Ok (Some (Csv.fields q', r))
         else stream q' false r) = Ok result →
        Csv.next_record p0 ((cur ++ [13]) :: Csv.lines_from [] r)
        = Ok ((λ found, (found.1, Csv.split_lines found.2)) <$> result)).
      { intros q' Hq' Hs'. rewrite (next_record_line p0 q').
        - destruct (record_done q'); [by injection Hs' as <-|].
          by apply (IH r [] q' q' false result); [lia|done|done|].
        - rewrite process_line_app, Hcur. cbn [mbind res_bind Csv.process_line].
          by rewrite Hq1. }
      destruct r as [|c' r'].
      - destruct (Csv.parse_process_char q1 None) as [q'|] eqn:Hq'; [|done].
        by apply (Hlone q').
      - destruct (c' =? 10) eqn:Hc'.
        + apply Z.eqb_eq in Hc' as ->.
          destruct (Csv.parse_process_char q1 (Some 10)) as [q2|] eqn:Hq2; [|done].
          cbn [mbind res_bind] in Hs.
          destruct (Csv.parse_process_char q2 None) as [q'|] eqn:Hq'; [|done].
          cbn [mbind res_bind] in Hs. cbn [length] in Hn.
          rewrite (next_record_line p0 q').
          * destruct (record_done q'); [by injection Hs as <-|].
            by apply (IH r' [] q' q' false result); [lia|done|done|].
          * rewrite process_line_app, Hcur. cbn [mbind res_bind Csv.process_line].
            rewrite Hq1. cbn [mbind res_bind]. by rewrite Hq2.
        + destruct (Csv.parse_process_char q1 None) as [q'|] eqn:Hq'; [|done].
          by apply (Hlone q'). }
    apply (IH r (cur ++ [c]) p0 q1 true result); [lia| | |done].
    + rewrite run_chars_app, Hcur. cbn [mbind res_bind run_chars]. by rewrite Hq1.
    + symmetry. apply negb_true_iff, bool_decide_eq_false_2. by destruct cur.
Qed.

(** A record takes at least one line. *)
Lemma next_record_consumes (lines rest : list pystr) (p : Csv.parser)
    (row : list pystr) :
  lines ≠ [] → Csv.next_record p lines = Ok (Some (row, rest)) →
  (length rest < length lines)%nat.
Proof.
  revert p. induction lines as [|line lines IH]; intros p Hne Hnext; [done|].
  cbn [Csv.next_record] in Hnext.
  destruct (Csv.process_line p line) as [p'|]; [|done].
  cbn [mbind res_bind] in Hnext. destruct (Csv.st p');
    try (injection Hnext as _ <-; simpl; lia);
    (destruct lines as [|line' lines];
      [cbn [Csv.next_record] in Hnext; destruct (Csv.at_end p');
         [injection Hnext as _ <-; simpl; lia|done]
      |specialize (IH p' ltac:(done) Hnext); simpl in *; lia]).
Qed.

Lemma lines_from_nonempty (text cur : pystr) :
  text ≠ [] → Csv.lines_from cur text ≠ [].
Proof.
  revert cur. induction text as [|c r IH]; intros cur Hne; [done|].
  cbn [Csv.lines_from]. destruct (c =? 10); [done|].
  destruct (c =? 13).
  - destruct r as [|c' r']; [done|]. by destruct (c' =? 10).
  - destruct r as [|c' r']; [by destruct cur|]. by apply IH.
Qed.

(** The records of a text, one after the other, are what the reader gives
    for its lines. *)
Lemma unrolls_reader (text : pystr) (rows : list (list pystr)) :
  unrolls text rows → Csv.reader (Csv.split_lines text) = Ok rows.
Proof.
  unfold Csv.reader. intros Hun.
  assert (Hfuel : ∀ fuel, (length (Csv.split_lines text) < fuel)%nat →
    Csv.rows_fuel fuel (Csv.split_lines text) = Ok rows); [|apply Hfuel; lia].
  induction Hun as [text Hend|text row rest rows Hne Hrow Hun IH]; intros fuel Hf.
  - destruct fuel as [|fuel]; [lia|]. cbn [Csv.rows_fuel]. unfold Csv.split_lines.
    by rewrite (stream_lines (length text) text [] Csv.parse_reset Csv.parse_reset
                  false None).
  - destruct fuel as [|fuel]; [lia|]. cbn [Csv.rows_fuel].
    pose proof (stream_lines (length text) text [] Csv.parse_reset Csv.parse_reset
                  false (Some (row, rest)) ltac:(done) eq_refl eq_refl Hrow) as Hnext.
    fold (Csv.split_lines text) in Hnext.
    cbn [fmap option_fmap option_map fst snd] in Hnext. rewrite Hnext.
    cbn [mbind res_bind].
    rewrite IH; [done|].
    apply next_record_consumes in Hnext; [lia|].
    by apply lines_from_nonempty.
Qed.

Lemma needs_quotes_plain (s : pystr) :
  Csv.needs_quotes s = false ↔ Forall (λ c, plain_char c = true) s.
Proof.
  unfold Csv.needs_quotes. induction s as [|c s IH]; [done|].
  cbn [existsb]. rewrite orb_false_iff, Forall_cons, IH. unfold plain_char.
  by rewrite negb_true_iff.
Qed.

Lemma plain_char_cases (c : Z) :
  plain_char c = true →
  (c =? 44) = false ∧ (c =? 34) = false ∧ (c =? 13) = false ∧ (c =? 10) = false.
Proof.
  unfold plain_char. rewrite negb_true_iff, !orb_false_iff.
  by intros [[[? ?] ?] ?].
Qed.

(** The characters of an unquoted field are added to the field. *)
Lemma stream_in_field (s : pystr) (cur : pystr) (fs : list pystr) (k : pystr)
    (pending : bool) :
  Forall (λ c, plain_char c = true) s →
  Z.of_nat (length cur + length s) ≤ Csv.field_limit →
  stream (Csv.mk_parser Csv.IN_FIELD cur fs) pending (s ++ k)
  = stream (Csv.mk_parser Csv.IN_FIELD (cur ++ s) fs)
      (pending || negb (bool_decide (s = []))) k.
Proof.
  revert cur pending. induction s as [|c s IH]; intros cur pending Hplain Hlen.
  - rewrite app_nil_r, orb_false_r. done.
  - apply Forall_cons in Hplain as [(H44 & H34 & H13 & H10)%plain_char_cases Hplain].
    cbn [app stream Csv.parse_process_char Csv.st]. unfold Csv.is_newline.
    rewrite H10, H13, H44. cbn [orb]. unfold Csv.parse_add_char. cbn [Csv.field Csv.fields].
    cbn [length] in Hlen.
    destruct (Z.leb_spec Csv.field_limit (Z.of_nat (length cur))) as [Hbig|_]; [lia|].
    cbn [mbind res_bind]. rewrite IH; [|done|rewrite length_app; simpl; lia].
    rewrite <- app_assoc. cbn [app orb]. by rewrite orb_true_r.
Qed.

(** *** Files without quotes *)

Lemma line_char_cases (c : Z) :
  line_char c = true → (c =? 34) = false ∧ (c =? 13) = false ∧ (c =? 10) = false.
Proof.
  unfold line_char. rewrite negb_true_iff, !orb_false_iff.
  by intros [[? ?] ?].
Qed.

(** One character of a line without quotes: a comma ends the field, another
    character is added to it. *)
Lemma line_char_step (s : Csv.state) (cur : pystr) (fs : list pystr) (c : Z) :
  within_field s cur → line_char c = true →
  Z.of_nat (length cur) < Csv.field_limit →
  Csv.parse_process_char (Csv.mk_parser s cur fs) (Some c)
  = Ok (if c =? 44 then Csv.mk_parser Csv.START_FIELD [] (fs ++ [cur])
        else Csv.mk_parser Csv.IN_FIELD (cur ++ [c]) fs).
Proof.
  intros Hs (H34 & H13 & H10)%line_char_cases Hlen.
  assert (Hadd : Csv.parse_add_char (Csv.mk_parser s cur fs) c Csv.IN_FIELD
                 = Ok (Csv.mk_parser Csv.IN_FIELD (cur ++ [c]) fs)).
  { unfold Csv.parse_add_char. cbn [Csv.field Csv.fields].
    by destruct (Z.leb_spec Csv.field_limit (Z.of_nat (length cur))); [lia|]. }
  destruct Hs as [->|[-> ->]];
    cbn [Csv.parse_process_char Csv.start_field Csv.st]; unfold Csv.is_newline;
    rewrite ?H10, ?H13, ?H34; cbn [orb]; by destruct (c =? 44).
Qed.

(** The end of a line without quotes. *)
Lemma line_end_step (s : Csv.state) (cur : pystr) (fs : list pystr) :
  within_field s cur →
  Csv.parse_process_char (Csv.mk_parser s cur fs) None
  = Ok (Csv.mk_parser Csv.START_RECORD [] (fs ++ [cur])).
Proof. by intros [->|[-> ->]]. Qed.

Lemma line_feed_step (s : Csv.state) (cur : pystr) (fs : list pystr) :
  within_field s cur →
  Csv.parse_process_char (Csv.mk_parser s cur fs) (Some 10)
  = Ok (Csv.mk_parser Csv.EAT_CRNL [] (fs ++ [cur])).
Proof. by intros [->|[-> ->]]. Qed.

(** A line without quotes, from inside a field. *)
Lemma stream_plain_line (line : pystr) (s : Csv.state) (cur : pystr)
    (fs : list pystr) (pending : bool) :
  within_field s cur → Forall (λ c, line_char c = true) line →
  Z.of_nat (length cur + length line) ≤ Csv.field_limit →
  (∀ k, stream (Csv.mk_parser s cur fs) pending (line ++ 10 :: k)
        = Ok (Some (fs ++ split_commas cur line, k)))
  ∧ stream (Csv.mk_parser s cur fs) true line
    = Ok (Some (fs ++ split_commas cur line, [])).
Proof.
  revert s cur fs pending.
  induction line as [|c line IH]; intros s cur fs pending Hs Hline Hlen.
  - split; [intros k|]; cbn [app stream].
    + rewrite (line_feed_step s cur fs Hs). done.
    + rewrite (line_end_step s cur fs Hs). done.
  - apply Forall_cons in Hline as [Hc Hline]. cbn [length] in Hlen.
    pose proof (line_char_cases c Hc) as (H34 & H13 & H10).
    assert (stream (Csv.mk_parser s cur fs) pending (c :: line) = 
            stream (Csv.mk_parser s cur fs) true (c :: line)) as _ by done.
    cbn [app stream split_commas].
    rewrite (line_char_step s cur fs c Hs Hc) by lia.
    cbn [mbind res_bind]. rewrite H10, H13.
    destruct (c =? 44).
    + destruct (IH Csv.START_FIELD [] (fs ++ [cur]) true) as [IH1 IH2];
        [by right|done|simpl; lia|].
      split; [intros k; rewrite IH1|rewrite IH2]; by rewrite <- app_assoc.
    + destruct (IH Csv.IN_FIELD (cur ++ [c]) fs true) as [IH1 IH2];
        [by left|done|rewrite length_app; simpl; lia|].
      split; [intros k; rewrite IH1|rewrite IH2]; done.
Qed.

(** A line without quotes, from the start of a record. *)
Lemma stream_plain_record (line : pystr) :
  Forall (λ c, line_char c = true) line →
  Z.of_nat (length line) ≤ Csv.field_limit →
  (∀ k, stream Csv.parse_reset false (line ++ 10 :: k) = Ok (Some (line_row line, k)))
  ∧ (line ≠ [] → stream Csv.parse_reset false line = Ok (Some (line_row line, []))).
Proof.
  intros Hline Hlen. destruct line as [|c line]; [by split|].
  apply Forall_cons in Hline as [Hc Hline]. cbn [length] in Hlen.
  pose proof (line_char_cases c Hc) as (H34 & H13 & H10).
  assert (Hfirst : Csv.parse_process_char Csv.parse_reset (Some c)
    = Ok (if c =? 44 then Csv.mk_parser Csv.START_FIELD [] [[]]
          else Csv.mk_parser Csv.IN_FIELD [c] [])).
  { unfold Csv.parse_reset.
    cbn [Csv.parse_process_char Csv.start_field Csv.st]. unfold Csv.is_newline.
    rewrite H10, H13, H34. cbn [orb]. by destruct (c =? 44). }
  unfold line_row. cbn [app stream split_commas]. rewrite Hfirst.
  cbn [mbind res_bind]. rewrite H10, H13.
  destruct (c =? 44).
  - destruct (stream_plain_line line Csv.START_FIELD [] [[]] true) as [H1 H2];
      [by right|done|simpl; lia|].
    split; [intros k; by rewrite H1|intros _; by rewrite H2].
  - destruct (stream_plain_line line Csv.IN_FIELD [c] [] true) as [H1 H2];
      [by left|done|simpl; lia|].
    split; [intros k; by rewrite H1|intros _; by rewrite H2].
Qed.

(** A text is its first line, a line feed and the rest, or a last line. *)
Lemma first_line (text : pystr) :
  Forall (λ c, (c =? 10) = false) text
  ∨ ∃ line rest, text = line ++ 10 :: rest ∧ Forall (λ c, (c =? 10) = false) line.
Proof.
  induction text as [|c text IH]; [by left|].
  destruct (c =? 10) eqn:Hc.
  - apply Z.eqb_eq in Hc as ->. right. by exists [], text.
  - destruct IH as [IH|(line & rest & -> & IH)].
    + left. by constructor.
    + right. exists (c :: line), rest. split; [done|]. by constructor.
Qed.

Lemma text_lines_line (cur line rest : pystr) :
  Forall (λ c, (c =? 10) = false) line →
  text_lines cur (line ++ 10 :: rest) = (cur ++ line) :: text_lines [] rest.
Proof.
  revert cur. induction line as [|c line IH]; intros cur Hline.
  - by rewrite app_nil_r.
  - apply Forall_cons in Hline as [Hc Hline]. cbn [app text_lines].
    rewrite Hc, IH by done. by rewrite <- app_assoc.
Qed.

Lemma text_lines_last (cur line : pystr) :
  Forall (λ c, (c =? 10) = false) line → cur ++ line ≠ [] →
  text_lines cur line = [cur ++ line].
Proof.
  revert cur. induction line as [|c line IH]; intros cur Hline Hne.
  - rewrite app_nil_r in *. by destruct cur.
  - apply Forall_cons in Hline as [Hc Hline]. cbn [text_lines].
    rewrite Hc, IH; [by rewrite <- app_assoc|done|by destruct cur].
Qed.

(** A text without quotes and carriage returns has a record for each of its
    lines. *)
Lemma plain_text_unrolls (text : pystr) :
  Forall (λ c, (c =? 34) = false ∧ (c =? 13) = false) text →
  Forall (λ line, Z.of_nat (length line) ≤ Csv.field_limit) (text_lines [] text) →
  unrolls text (line_row <$> text_lines [] text).
Proof.
  remember (length text) as n eqn:Hn. revert text Hn.
  induction (lt_wf n) as [n _ IH]. intros text -> Hplain Hlen.
  assert (Hchars : ∀ line, Forall (λ c, (c =? 10) = false) line →
    Forall (λ c, (c =? 34) = false ∧ (c =? 13) = false) line →
    Forall (λ c, line_char c = true) line).
  { intros line H1 H2. apply Forall_forall. intros c Hc.
    rewrite Forall_forall in H1, H2. specialize (H1 c Hc).
    destruct (H2 c Hc) as [H34 H13]. unfold line_char. by rewrite H34, H13, H1. }
  destruct (first_line text) as [Hlast|(line & rest & -> & Hline)].
  - destruct text as [|c text]; [by constructor|].
    rewrite (text_lines_last [] (c :: text)) in * by done.
    apply Forall_cons in Hlen as [Hlen _]. cbn [app] in Hlen.
    destruct (stream_plain_record (c :: text)) as [_ Hrow]; [by apply Hchars|done|].
    cbn [fmap list_fmap app]. eapply unrolls_row; [done|by apply Hrow|].
    by constructor.
  - rewrite text_lines_line in * by done. cbn [app] in *.
    apply Forall_cons in Hlen as [Hlen Hrest].
    apply Forall_app in Hplain as [Hplain1 Hplain2].
    apply Forall_cons in Hplain2 as [_ Hplain2].
    destruct (stream_plain_record line) as [Hrow _]; [by apply Hchars|done|].
    rewrite fmap_cons. eapply unrolls_row; [by destruct line|apply Hrow|].
    apply (IH (length rest)); [rewrite length_app; simpl; lia|done..].
Qed.

Lemma universal_newlines_chars (P : Z → Prop) (text : pystr) :
  P 10 → Forall P text → Forall (λ c, P c ∧ (c =? 13) = false) (Csv.universal_newlines text).
Proof.
  intros H10. remember (length text) as n eqn:Hn. revert text Hn.
  induction (lt_wf n) as [n _ IH]. intros text -> Htext.
  destruct text as [|c r]; [done|]. apply Forall_cons in Htext as [Hc Hr].
  cbn [Csv.universal_newlines]. destruct (c =? 13) eqn:H13.
  - destruct r as [|c' r'].
    + by repeat constructor.
    + destruct (c' =? 10).
      * constructor; [done|]. apply Forall_cons in Hr as [_ Hr'].
        apply (IH (length r')); [simpl; lia|done..].
      * constructor; [done|]. apply (IH (length (c' :: r'))); [simpl; lia|done..].
  - constructor; [done|]. apply (IH (length r)); [simpl; lia|done..].
Qed.

(** *** Reading back what the writer wrote *)

Lemma add_char_ok (s next : Csv.state) (cur : pystr) (fs : list pystr) (c : Z) :
  Z.of_nat (length cur) < Csv.field_limit →
  Csv.parse_add_char (Csv.mk_parser s cur fs) c next
  = Ok (Csv.mk_parser next (cur ++ [c]) fs).
Proof.
  intros Hlen. unfold Csv.parse_add_char. cbn [Csv.field Csv.fields].
  by destruct (Z.leb_spec Csv.field_limit (Z.of_nat (length cur))); [lia|].
Qed.

(** A comma after a field. *)
Lemma stream_comma (s : Csv.state) (cur : pystr) (fs : list pystr) (k : pystr)
    (pending : bool) :
  field_read s = true ∨ (begins_field s = true ∧ cur = []) →
  stream (Csv.mk_parser s cur fs) pending (44 :: k)
  = stream (Csv.mk_parser Csv.START_FIELD [] (fs ++ [cur])) true k.
Proof. intros [Hs|[Hs ->]]; by destruct s. Qed.

(** The line terminator after a field. *)
Lemma stream_crlf (s : Csv.state) (cur : pystr) (fs : list pystr) (k : pystr)
    (pending : bool) :
  field_read s = true ∨ (s = Csv.START_FIELD ∧ cur = []) →
  stream (Csv.mk_parser s cur fs) pending (13 :: 10 :: k)
  = Ok (Some (fs ++ [cur], k)).
Proof. intros [Hs|[-> ->]]; [by destruct s|done]. Qed.

(** The characters of a quoted field up to its closing quote: a doubled
    quote is one quote of the field, and line endings are part of it. *)
Lemma stream_in_quotes (n : nat) (s : pystr) (cur : pystr) (fs : list pystr)
    (k : pystr) (pending : bool) :
  (length s ≤ n)%nat →
  Z.of_nat (length cur + length s) ≤ Csv.field_limit →
  stream (Csv.mk_parser Csv.IN_QUOTED_FIELD cur fs) pending
    (Csv.double_quotes s ++ 34 :: k)
  = stream (Csv.mk_parser Csv.QUOTE_IN_QUOTED_FIELD (cur ++ s) fs) true k.
Proof.
  revert s cur pending. induction n as [|n IH]; intros s cur pending Hn Hlen.
  { destruct s; [|simpl in Hn; lia]. by rewrite app_nil_r. }
  destruct s as [|c s]; [by rewrite app_nil_r|].
  cbn [length] in Hn, Hlen. cbn [Csv.double_quotes].
  assert (Hnext : ∀ pending', stream (Csv.mk_parser Csv.IN_QUOTED_FIELD (cur ++ [c]) fs)
      pending' (Csv.double_quotes s ++ 34 :: k)
    = stream (Csv.mk_parser Csv.QUOTE_IN_QUOTED_FIELD (cur ++ c :: s) fs) true k).
  { intros pending'. rewrite IH; [|lia|rewrite length_app; simpl; lia].
    by rewrite <- app_assoc. }
  destruct (c =? 34) eqn:H34.
  { apply Z.eqb_eq in H34 as ->.
    cbn [app stream Csv.parse_process_char Csv.st Csv.with_state Csv.field Csv.fields
         mbind res_bind Z.eqb Pos.eqb].
    unfold Csv.with_state. cbn [Csv.field Csv.fields].
    rewrite add_char_ok by lia. cbn [mbind res_bind]. apply Hnext. }
  cbn [app stream Csv.parse_process_char Csv.st]. rewrite H34.
  rewrite add_char_ok by lia. cbn [mbind res_bind].
  destruct (c =? 10) eqn:H10; [apply Hnext|].
  destruct (c =? 13) eqn:H13; [|apply Hnext].
  apply Z.eqb_eq in H13 as ->.
  destruct s as [|c' s]; [apply Hnext|].
  destruct (c' =? 10) eqn:Hc'.
  - apply Z.eqb_eq in Hc' as ->.
    cbn [Csv.double_quotes Z.eqb Pos.eqb app Csv.parse_process_char Csv.st].
    cbn [length] in Hn, Hlen.
    rewrite add_char_ok by (rewrite length_app; simpl; lia).
    cbn [mbind res_bind Csv.parse_process_char Csv.st].
    cbn [mbind res_bind record_done Csv.st].
    rewrite IH; [|lia|rewrite !length_app; simpl; lia].
    by rewrite <- !app_assoc.
  - assert (∃ c'' r'', Csv.double_quotes (c' :: s) ++ 34 :: k = c'' :: r''
                               ∧ (c'' =? 10) = false) as (c'' & r'' & Heq & Hne).
    { cbn [Csv.double_quotes]. destruct (c' =? 34); by eexists _, _. }
    specialize (Hnext false). rewrite Heq in Hnext |- *. by rewrite Hne.
Qed.

(** A field as the writer writes it, read from the start of a field. *)
Lemma stream_field (s0 : Csv.state) (f : pystr) (fs : list pystr) :
  begins_field s0 = true → f ≠ [] →
  Z.of_nat (length f) ≤ Csv.field_limit →
  ∃ s1, field_read s1 = true ∧ ∀ k pending,
    stream (Csv.mk_parser s0 [] fs) pending (Csv.write_field f ++ k)
    = stream (Csv.mk_parser s1 f fs) true k.
Proof.
  intros Hs0 Hne Hlen. unfold Csv.write_field.
  destruct (Csv.needs_quotes f) eqn:Hq.
  - exists Csv.QUOTE_IN_QUOTED_FIELD. split; [done|]. intros k pending.
    cbn [app]. rewrite <- app_assoc. cbn [app].
    transitivity (stream (Csv.mk_parser Csv.IN_QUOTED_FIELD [] fs) true
                    (Csv.double_quotes f ++ 34 :: k)); [by destruct s0|].
    by rewrite (stream_in_quotes (length f)).
  - exists Csv.IN_FIELD. split; [done|]. intros k pending.
    apply needs_quotes_plain in Hq. destruct f as [|c f]; [done|].
    apply Forall_cons in Hq as [(H44 & H34 & H13 & H10)%plain_char_cases Hq].
    cbn [length] in Hlen.
    transitivity (stream (Csv.mk_parser Csv.IN_FIELD [c] fs) true (f ++ k)).
    + cbn [app stream].
      assert (Csv.parse_process_char (Csv.mk_parser s0 [] fs) (Some c)
              = Ok (Csv.mk_parser Csv.IN_FIELD [c] fs)) as ->; [|by rewrite H10, H13].
      destruct s0; try done;
        cbn [Csv.parse_process_char Csv.start_field Csv.st]; unfold Csv.is_newline;
        by rewrite H10, H13, H34, H44.
    + rewrite stream_in_field; [done..|simpl; lia].
Qed.

(** The fields of a row as the writer writes them, then the line
    terminator. *)
Lemma stream_fields (row : list pystr) :
  ∀ (f : pystr) (s0 : Csv.state) (fs : list pystr) (pending : bool) (more : pystr),
  begins_field s0 = true → (s0 = Csv.START_RECORD → f :: row ≠ [[]]) →
  Forall (λ cell, Z.of_nat (length cell) ≤ Csv.field_limit) (f :: row) →
  stream (Csv.mk_parser s0 [] fs) pending
    (join [44] (Csv.write_field <$> f :: row) ++ 13 :: 10 :: more)
  = Ok (Some (fs ++ f :: row, more)).
Proof.
  induction row as [|f' row IH]; intros f s0 fs pending more Hs0 Hrow Hlen;
    apply Forall_cons in Hlen as [Hf Hlen].
  - cbn [fmap list_fmap join]. destruct (decide (f = [])) as [->|Hne].
    + destruct s0; try done. by destruct Hrow.
    + destruct (stream_field s0 f fs) as (s1 & Hs1 & ->); [done..|].
      by apply stream_crlf; left.
  - rewrite fmap_cons.
    change (join [44] (Csv.write_field f :: (Csv.write_field <$> f' :: row)))
      with (Csv.write_field f ++ [44] ++ join [44] (Csv.write_field <$> f' :: row)).
    rewrite <- !app_assoc. cbn [app].
    assert (Hcomma : stream (Csv.mk_parser s0 [] fs) pending
        (Csv.write_field f ++ 44 :: join [44] (Csv.write_field <$> f' :: row)
           ++ 13 :: 10 :: more)
      = stream (Csv.mk_parser Csv.START_FIELD [] (fs ++ [f])) true
          (join [44] (Csv.write_field <$> f' :: row) ++ 13 :: 10 :: more)).
    { destruct (decide (f = [])) as [->|Hne].
      - apply stream_comma. by right.
      - destruct (stream_field s0 f fs) as (s1 & Hs1 & ->); [done..|].
        apply stream_comma. by left. }
    rewrite Hcomma, IH; [by rewrite <- app_assoc|done|done|done].
Qed.

(** A row as the writer writes it is read back as the row. *)
Lemma stream_write_row (row : list pystr) (more : pystr) :
  Forall (λ cell, Z.of_nat (length cell) ≤ Csv.field_limit) row →
  stream Csv.parse_reset false (Csv.write_row row ++ more) = Ok (Some (row, more)).
Proof.
  intros Hlen. destruct row as [|f row]; [done|].
  destruct (decide (f :: row = [[]])) as [[= -> ->]|Hne]; [done|].
  assert (Csv.write_row (f :: row)
          = join [44] (Csv.write_field <$> f :: row) ++ [13; 10]) as ->.
  { unfold Csv.write_row. destruct f; [|done]. by destruct row. }
  rewrite <- app_assoc. cbn [app]. unfold Csv.parse_reset.
  by rewrite (stream_fields row f Csv.START_RECORD [] false more).
Qed.

Lemma write_rows_unroll (rows : list (list pystr)) :
  Forall (Forall (λ cell, Z.of_nat (length cell) ≤ Csv.field_limit)) rows →
  unrolls (Csv.write_rows rows) rows.
Proof.
  induction rows as [|row rows IH]; intros Hlen; [by constructor|].
  apply Forall_cons in Hlen as [Hrow Hlen].
  unfold Csv.write_rows. rewrite fmap_cons. cbn [concat].
  eapply unrolls_row; [|by apply stream_write_row|by apply IH].
  unfold Csv.write_row. by destruct (match row with [[]] => _ | _ => _ end).
Qed.

Lemma split_commas_head (s cur : pystr) :
  ∃ rest, split_commas cur s = (cur ++ before_comma s) :: rest.
Proof.
  revert cur. induction s as [|c s IH]; intros cur.
  - exists []. by rewrite app_nil_r.
  - cbn [split_commas before_comma]. destruct (c =? 44).
    + eexists. by rewrite app_nil_r.
    + destruct (IH (cur ++ [c])) as [rest ->]. exists rest.
      by rewrite <- app_assoc.
Qed.

Lemma row_id_line_row (line : pystr) : row_id (line_row line) = line_id line.
Proof.
  destruct line as [|c line]; [done|]. unfold line_row, line_id.
  destruct (split_commas_head (c :: line) []) as [rest ->]. done.
Qed.

Lemma line_ids (lines : list pystr) :
  omap row_id (line_row <$> lines) = omap line_id lines.
Proof.
  induction lines as [|l ls IH]; [done|].
  rewrite fmap_cons. cbn [omap list_omap]. fold (omap row_id (line_row <$> ls)).
  fold (omap line_id ls). by rewrite row_id_line_row, IH.
Qed.

(** X17: the text [csv.writer] writes for any rows, as [fetch_data] hands
    them to [writer.writerow], is read back by [csv.reader], from the lines
    of that text with their endings kept, as exactly those rows, whatever
    commas, quotes and line endings the cells hold, provided no cell is
    longer than the field limit of the reader, 131072 characters. *)
Theorem written_rows_read_back (rows : list (list pystr)) :
  Forall (Forall (λ cell, Z.of_nat (length cell) ≤ Csv.field_limit)) rows →
  Csv.reader (Csv.split_lines (Csv.write_rows rows)) = Ok rows.
Proof. intros Hlen. by apply unrolls_reader, write_rows_unroll. Qed.

(** X18: for a data file that exists and whose text holds no quote
    character and no line longer than the reader's field limit,
    [load_species_from_csv] returns one identifier for each line, in order:
    the part of the line before its first comma, stripped, lines where that
    is empty being skipped.  Lines end with [\n], [\r\n] or [\r], and the
    last line needs no line ending. *)
Theorem plain_file_gives_an_identifier_per_line (file_path text : pystr) :
  let lines := text_lines [] (Csv.universal_newlines text) in
  path_exists file_path = true →
  read_rows file_path = Csv.reader (Csv.split_lines (Csv.universal_newlines text)) →
  Forall (λ c, c ≠ 34) text →
  Forall (λ line, Z.of_nat (length line) ≤ Csv.field_limit) lines →
  load_species_from_csv file_path = inr (omap line_id lines).
Proof.
  intros lines Hexists Hread Hquotes Hlen.
  assert (Hrows : read_rows file_path = Ok (line_row <$> lines)).
  { rewrite Hread. apply unrolls_reader, plain_text_unrolls; [|done].
    apply (universal_newlines_chars (λ c, (c =? 34) = false)); [done|].
    eapply Forall_impl; [exact Hquotes|]. intros c Hc. by apply Z.eqb_neq. }
  unfold load_species_from_csv. rewrite Hexists, Hrows. cbn [negb].
  rewrite load_loop. cbn [app]. by rewrite line_ids.
Qed.

(** *** The program with its effects *)

Lemma fetch_attempt_io_result (u : pystr) (i total : nat) :
  (fetch_attempt_io u i total).2 = fetch_attempt u i.
Proof.
  unfold fetch_attempt_io, fetch_attempt.
  destruct (urlopen i u) as [response|e]; [|done]. cbn [mbind res_bind].
  destruct (negb (status response =? 200)); [done|].
  destruct (body response) as [text|e]; [|done]. cbn [mbind res_bind].
  destruct (Json.loads text) as [full|e]; [|done]. cbn [mbind res_bind].
  by destruct (extract_data full).
Qed.

(** The effects version of [fetch_taxon_data] returns what
    [fetch_taxon_data] returns. *)
Lemma fetch_taxon_data_io_result (route : pystr) (i total : nat) :
  (fetch_taxon_data_io route i total).2 = fetch_taxon_data route i.
Proof.
  unfold fetch_taxon_data_io, fetch_taxon_data.
  rewrite <- (fetch_attempt_io_result _ i total).
  destruct (fetch_attempt_io (API_HOST ++ API_PATH ++ route) i total) as [said [r|e]];
    [done|]. by destruct e.
Qed.

(** A fetch prints a line, issues its one request and prints a second line. *)
Lemma fetch_taxon_data_io_events (route : pystr) (i total : nat) :
  ∃ line, (fetch_taxon_data_io route i total).1
    = [ Printed (py "Fetching: " ++ API_HOST ++ API_PATH ++ route);
        Requested i (API_HOST ++ API_PATH ++ route); Printed line ].
Proof.
  unfold fetch_taxon_data_io, fetch_attempt_io.
  destruct (urlopen i _) as [response|e].
  - destruct (negb (status response =? 200)); [by eexists|].
    destruct (body response) as [text|e]; cbn [mbind res_bind].
    + destruct (Json.loads text) as [full|e]; cbn [mbind res_bind].
      * destruct (extract_data full) as [flat|e]; [by eexists|].
        destruct e; by eexists.
      * destruct e; by eexists.
    + destruct e; by eexists.
  - destruct e; by eexists.
Qed.

(** The loop runs as [loop_run] says. *)
Lemma run_loop_io_runs (total : nat) (routes : list pystr) (i : nat) (st : run_state) :
  loop_run total i routes st (run_loop_io total i routes st).1
    (run_loop_io total i routes st).2.1 (run_loop_io total i routes st).2.2.
Proof.
  revert i st. induction routes as [|route routes IH]; intros i st; [constructor|].
  cbn [run_loop_io].
  pose proof (fetch_taxon_data_io_result route i total) as Hres.
  destruct (fetch_taxon_data_io route i total) as [fetched result] eqn:Hio.
  cbn [snd] in Hres. subst result.
  replace fetched with (fetch_taxon_data_io route i total).1 by (by rewrite Hio).
  destruct (row_of_result (fetch_taxon_data route i)) as [row|e] eqn:Hrow;
    [|by apply (run_no_row total)].
  unfold writerow.
  destruct (disk (length (file st))) as [e|] eqn:Hdisk;
    [by apply (run_no_write total _ _ _ _ row)|].
  destruct (flush_error i) as [e|] eqn:Hflush; [by apply (run_no_flush total)|].
  specialize (IH (S i) (mk_state (file st ++ [row]) (S (rows_written st)))).
  destruct (run_loop_io total (S i) routes _) as [rest [st' exc]].
  by apply (run_next total).
Qed.

Lemma schedule_app (t1 t2 : list event) :
  schedule (t1 ++ t2) = schedule t1 ++ schedule t2.
Proof. apply List.filter_app. Qed.

Lemma requests_app (t1 t2 : list event) :
  requests (t1 ++ t2) = requests t1 ++ requests t2.
Proof. apply omap_app. Qed.

Lemma written_app (t1 t2 : list event) :
  written (t1 ++ t2) = written t1 ++ written t2.
Proof. apply omap_app. Qed.

Lemma flushes_app (t1 t2 : list event) :
  flushes (t1 ++ t2) = (flushes t1 + flushes t2)%nat.
Proof. unfold flushes. by rewrite List.filter_app, length_app. Qed.

Lemma cycle_app (t1 t2 : list event) (p : phase) :
  cycle p (t1 ++ t2) = cycle p t1 ≫= λ p', cycle p' t2.
Proof.
  revert p. induction t1 as [|e t1 IH]; intros p; [done|].
  cbn [cycle app]. destruct (cycle_step p e); [apply IH|done].
Qed.

(** The loop is left without an exception only when the list is exhausted. *)
Lemma loop_run_nil (total i : nat) (st st' : run_state) (t : list event)
    (exc : option exn) :
  loop_run total i [] st t st' exc → t = [] ∧ st' = st ∧ exc = None.
Proof. by inversion 1. Qed.

(** **** Requests and pauses *)

Lemma loop_schedule (total i : nat) (routes : list pystr) (st st' : run_state)
    (t : list event) (exc : option exn) :
  loop_run total i routes st t st' exc → total = (i + length routes)%nat →
  schedule t = between Slept (List.filter is_request t)
  ∧ (routes ≠ [] → List.filter is_request t ≠ []).
Proof.
  induction 1 as [i st|i route routes st e Hrow|i route routes st row e Hrow Hdisk
    |i route routes st row e Hrow Hdisk Hflush
    |i route routes st row rest st' exc Hrow Hdisk Hflush Hrun IH]; intros Htotal.
  - done.
  - destruct (fetch_taxon_data_io_events route i total) as [line ->]. by split.
  - destruct (fetch_taxon_data_io_events route i total) as [line ->]. by split.
  - destruct (fetch_taxon_data_io_events route i total) as [line ->]. by split.
  - destruct (fetch_taxon_data_io_events route i total) as [line ->].
    cbn [length] in Htotal.
    destruct routes as [|route' routes].
    + apply loop_run_nil in Hrun as (-> & _ & _).
      replace (Z.of_nat i <? Z.of_nat total - 1) with false
        by (symmetry; apply Z.ltb_ge; simpl in Htotal; lia).
      by split.
    + replace (Z.of_nat i <? Z.of_nat total - 1) with true
        by (symmetry; apply Z.ltb_lt; simpl in Htotal; lia).
      destruct IH as [IH Hne]; [simpl in *; lia|]. specialize (Hne ltac:(done)).
      rewrite !schedule_app, !List.filter_app, IH.
      cbn [schedule List.filter is_request is_pause orb app].
      split; [|done]. by destruct (List.filter is_request rest).
Qed.

Lemma loop_requests (total i : nat) (routes : list pystr) (st st' : run_state)
    (t : list event) (exc : option exn) :
  loop_run total i routes st t st' exc →
  ∃ m, (m ≤ length routes)%nat
    ∧ requests t
      = take m (imap (λ j route, ((i + j)%nat, API_HOST ++ API_PATH ++ route)) routes)
    ∧ (exc = None → m = length routes).
Proof.
  induction 1 as [i st|i route routes st e Hrow|i route routes st row e Hrow Hdisk
    |i route routes st row e Hrow Hdisk Hflush
    |i route routes st row rest st' exc Hrow Hdisk Hflush Hrun IH].
  - by exists 0%nat.
  - destruct (fetch_taxon_data_io_events route i total) as [line ->].
    exists 1%nat. cbn. rewrite Nat.add_0_r. split_and!; [lia|by rewrite take_0|done].
  - destruct (fetch_taxon_data_io_events route i total) as [line ->].
    exists 1%nat. cbn. rewrite Nat.add_0_r. split_and!; [lia|by rewrite take_0|done].
  - destruct (fetch_taxon_data_io_events route i total) as [line ->].
    exists 1%nat. cbn. rewrite Nat.add_0_r. split_and!; [lia|by rewrite take_0|done].
  - destruct (fetch_taxon_data_io_events route i total) as [line ->].
    destruct IH as (m & Hm & IH & Hdone). exists (S m).
    split_and!; [simpl; lia| |intros ?; simpl; f_equal; auto].
    rewrite !requests_app.
    replace (requests (if Z.of_nat i <? Z.of_nat total - 1
                       then [Printed (py "Rate limiting..."); Slept] else []))
      with (@nil (nat * pystr)) by (by destruct (_ <? _)).
    rewrite IH. cbn. rewrite Nat.add_0_r. f_equal. f_equal.
    apply imap_ext. intros j route' _. simpl. f_equal. lia.
Qed.

Lemma loop_pauses (total i : nat) (routes : list pystr) (st st' : run_state)
    (t : list event) (exc : option exn) :
  loop_run total i routes st t st' exc → total = (i + length routes)%nat →
  exc = None → length (List.filter is_pause t) = (length routes - 1)%nat.
Proof.
  induction 1 as [i st|i route routes st e Hrow|i route routes st row e Hrow Hdisk
    |i route routes st row e Hrow Hdisk Hflush
    |i route routes st row rest st' exc Hrow Hdisk Hflush Hrun IH];
    intros Htotal Hexc; try done.
  destruct (fetch_taxon_data_io_events route i total) as [line ->].
  cbn [length] in Htotal. rewrite !List.filter_app, !length_app, IH by (done || lia).
  destruct routes as [|route' routes].
  - replace (Z.of_nat i <? Z.of_nat total - 1) with false
      by (symmetry; apply Z.ltb_ge; simpl in Htotal; lia). done.
  - replace (Z.of_nat i <? Z.of_nat total - 1) with true
      by (symmetry; apply Z.ltb_lt; simpl in Htotal; lia). simpl. lia.
Qed.

(** A run of [fetch_data]: the header, the loop and the closing lines, or
    the closing lines alone when the header cannot be written. *)
Lemma fetch_data_io_shape (datafile_name : pystr) (CURRENT_SET : list pystr) :
  (∃ t st exc lines,
     disk 0 = None
     ∧ loop_run (length CURRENT_SET) 0 CURRENT_SET (mk_state [headers] 0) t st exc
     ∧ fetch_data_io datafile_name CURRENT_SET
       = (Wrote headers :: t ++ (Printed <$> lines),
          mk_report st (length CURRENT_SET) exc))
  ∨ (∃ e lines,
       disk 0 = Some e
       ∧ fetch_data_io datafile_name CURRENT_SET
         = (Printed <$> lines,
            mk_report (mk_state [] 0) (length CURRENT_SET) (Some e))).
Proof.
  unfold fetch_data_io, writerow. cbn [length].
  destruct (disk 0) as [e|] eqn:Hdisk.
  - right. by eexists e, [_; _; _].
  - left. rewrite app_nil_l.
    pose proof (run_loop_io_runs (length CURRENT_SET) CURRENT_SET 0
                  (mk_state [headers] 0)) as Hrun.
    destruct (run_loop_io (length CURRENT_SET) 0 CURRENT_SET (mk_state [headers] 0))
      as [t [st exc]].
    cbn [fst snd] in Hrun. exists t, st, exc. destruct exc as [e|].
    + by eexists [_; _; _].
    + by eexists [_].
Qed.

Lemma schedule_printed (lines : list pystr) : schedule (Printed <$> lines) = [].
Proof. by induction lines. Qed.

Lemma requests_printed (lines : list pystr) : requests (Printed <$> lines) = [].
Proof. by induction lines. Qed.

Lemma written_printed (lines : list pystr) : written (Printed <$> lines) = [].
Proof. by induction lines. Qed.

Lemma filter_printed (f : event → bool) (lines : list pystr) :
  (∀ line, f (Printed line) = false) → List.filter f (Printed <$> lines) = [].
Proof. intros Hf. induction lines as [|l lines IH]; [done|]. simpl. by rewrite Hf. Qed.

Lemma cycle_printed (lines : list pystr) (p : phase) :
  cycle p (Printed <$> lines) = Some p.
Proof. induction lines as [|l lines IH]; [done|]. by destruct p. Qed.

Lemma urls_imap (CURRENT_SET : list pystr) :
  imap (λ j route, ((0 + j)%nat, API_HOST ++ API_PATH ++ route)) CURRENT_SET
  = urls CURRENT_SET.
Proof. done. Qed.

(** The requests of a run of [fetch_data]: those of the first identifiers,
    of all of them when the run completes. *)
Lemma fetch_data_io_requests (datafile_name : pystr) (CURRENT_SET : list pystr) :
  ∃ m, (m ≤ length CURRENT_SET)%nat
    ∧ requests (fetch_data_io datafile_name CURRENT_SET).1 = take m (urls CURRENT_SET)
    ∧ (aborted (fetch_data_io datafile_name CURRENT_SET).2 = None →
       m = length CURRENT_SET).
Proof.
  destruct (fetch_data_io_shape datafile_name CURRENT_SET)
    as [(t & st & exc & lines & Hdisk & Hrun & ->)|(e & lines & Hdisk & ->)].
  - destruct (loop_requests _ _ _ _ _ _ _ Hrun) as (m & Hm & Hreq & Hdone).
    exists m. cbn [fst snd aborted]. split_and!; [done| |done].
    change (requests (Wrote headers :: ?l)) with (requests l).
    by rewrite requests_app, requests_printed, app_nil_r, Hreq.
  - exists 0%nat. cbn [fst snd aborted]. rewrite requests_printed.
    split_and!; [lia|by rewrite take_0|done].
Qed.

(** X7: [fetch_data] pauses between two requests and at no other time: in
    every run, complete or aborted, the requests and the pauses alternate,
    starting and ending with a request; the requests are those of the first
    identifiers in order, each with its index and the URL made of the host,
    the path and the identifier; a complete run over [n] identifiers
    requests all of them and pauses [n - 1] times. *)
Theorem pauses_fall_between_requests (datafile_name : pystr)
    (CURRENT_SET : list pystr) :
  let t := (fetch_data_io datafile_name CURRENT_SET).1 in
  let report := (fetch_data_io datafile_name CURRENT_SET).2 in
  schedule t = between Slept (List.filter is_request t)
  ∧ (∃ m, (m ≤ length CURRENT_SET)%nat ∧ requests t = take m (urls CURRENT_SET))
  ∧ (aborted report = None →
       requests t = urls CURRENT_SET
       ∧ length (List.filter is_pause t) = (length CURRENT_SET - 1)%nat).
Proof.
  intros t report. subst t report.
  destruct (fetch_data_io_requests datafile_name CURRENT_SET) as (m & Hm & Hreq & Hall).
  split_and!.
  - destruct (fetch_data_io_shape datafile_name CURRENT_SET)
      as [(t & st & exc & lines & Hdisk & Hrun & ->)|(e & lines & Hdisk & ->)];
      cbn [fst].
    + change (schedule (Wrote headers :: ?l)) with (schedule l).
      change (List.filter is_request (Wrote headers :: ?l))
        with (List.filter is_request l).
      rewrite schedule_app, List.filter_app, schedule_printed,
        (filter_printed is_request) by done.
      rewrite !app_nil_r. by apply (loop_schedule _ _ _ _ _ _ _ Hrun).
    + by rewrite schedule_printed, (filter_printed is_request).
  - by exists m.
  - intros Hdone. split.
    + rewrite Hreq, (Hall Hdone). apply take_ge. unfold urls. by rewrite length_imap.
    + destruct (fetch_data_io_shape datafile_name CURRENT_SET)
        as [(t & st & exc & lines & Hdisk & Hrun & Heq)|(e & lines & Hdisk & Heq)];
        rewrite Heq in Hdone |- *; cbn [fst snd aborted] in *; [|done].
      change (List.filter is_pause (Wrote headers :: ?l))
        with (List.filter is_pause l).
      rewrite List.filter_app, (filter_printed is_pause), app_nil_r by done.
      by apply (loop_pauses _ _ _ _ _ _ _ Hrun).
Qed.

(** **** Requests, writes and flushes *)

Lemma loop_cycle (total i : nat) (routes : list pystr) (st st' : run_state)
    (t : list event) (exc : option exn) :
  loop_run total i routes st t st' exc →
  ∃ p, cycle Ready t = Some p ∧ (exc = None → p = Ready).
Proof.
  induction 1 as [i st|i route routes st e Hrow|i route routes st row e Hrow Hdisk
    |i route routes st row e Hrow Hdisk Hflush
    |i route routes st row rest st' exc Hrow Hdisk Hflush Hrun IH].
  - by exists Ready.
  - destruct (fetch_taxon_data_io_events route i total) as [line ->]. by exists Fetched.
  - destruct (fetch_taxon_data_io_events route i total) as [line ->]. by exists Fetched.
  - destruct (fetch_taxon_data_io_events route i total) as [line ->]. by exists Written.
  - destruct (fetch_taxon_data_io_events route i total) as [line ->].
    destruct IH as (p & Hp & Hdone). exists p. split; [|done].
    rewrite !cycle_app. cbn [cycle cycle_step mbind option_bind].
    by destruct (Z.of_nat i <? Z.of_nat total - 1).
Qed.

(** X8: a run of [fetch_data] follows one cycle: the header is written
    first; then, identifier by identifier, a request is issued, the row of
    its outcome is written and the file is flushed; no request is issued
    while a row is unwritten or unflushed, nothing is written without a
    request before it, and a pause comes only after a flush.  A complete run
    ends with every row flushed. *)
Theorem run_follows_the_cycle (datafile_name : pystr) (CURRENT_SET : list pystr) :
  ∃ p, cycle Start (fetch_data_io datafile_name CURRENT_SET).1 = Some p
    ∧ (aborted (fetch_data_io datafile_name CURRENT_SET).2 = None → p = Ready).
Proof.
  destruct (fetch_data_io_shape datafile_name CURRENT_SET)
    as [(t & st & exc & lines & Hdisk & Hrun & ->)|(e & lines & Hdisk & ->)];
    cbn [fst snd aborted].
  - destruct (loop_cycle _ _ _ _ _ _ _ Hrun) as (p & Hp & Hdone).
    exists p. split; [|done]. cbn [cycle cycle_step].
    rewrite cycle_app, Hp. cbn [mbind option_bind]. apply cycle_printed.
  - exists Start. split; [apply cycle_printed|done].
Qed.

(** **** The counter, the rows written and the rows flushed *)

Lemma loop_counts (total i : nat) (routes : list pystr) (st st' : run_state)
    (t : list event) (exc : option exn) :
  loop_run total i routes st t st' exc →
  file st' = file st ++ written t
  ∧ rows_written st' = (rows_written st + length (written t))%nat
  ∧ (length (written t) ≤ length routes)%nat
  ∧ (length (written t) = flushes t
     ∨ (length (written t) = S (flushes t)
        ∧ exc = flush_error (i + flushes t) ∧ exc ≠ None))
  ∧ (exc = None → flushes t = length routes ∧ length (written t) = length routes).
Proof.
  induction 1 as [i st|i route routes st e Hrow|i route routes st row e Hrow Hdisk
    |i route routes st row e Hrow Hdisk Hflush
    |i route routes st row rest st' exc Hrow Hdisk Hflush Hrun IH].
  - cbn. rewrite app_nil_r. split_and!; try done; try lia; by left.
  - destruct (fetch_taxon_data_io_events route i total) as [line ->].
    cbn. rewrite app_nil_r. split_and!; try done; try lia; by left.
  - destruct (fetch_taxon_data_io_events route i total) as [line ->].
    cbn. rewrite app_nil_r. split_and!; try done; try lia; by left.
  - destruct (fetch_taxon_data_io_events route i total) as [line ->].
    cbn. split_and!; try done; try lia.
    right. rewrite Nat.add_0_r, Hflush. by split_and!.
  - destruct (fetch_taxon_data_io_events route i total) as [line ->].
    destruct IH as (Hfile & Hcount & Hle & Hlast & Hdone).
    cbn [file rows_written] in Hfile, Hcount.
    assert (Hw : written ([Printed (py "Fetching: " ++ API_HOST ++ API_PATH ++ route);
                Requested i (API_HOST ++ API_PATH ++ route); Printed line]
               ++ [Wrote row; Flushed]
               ++ (if Z.of_nat i <? Z.of_nat total - 1
                   then [Printed (py "Rate limiting..."); Slept] else []) ++ rest)
            = row :: written rest).
    { rewrite !written_app. by destruct (Z.of_nat i <? Z.of_nat total - 1). }
    assert (Hf : flushes ([Printed (py "Fetching: " ++ API_HOST ++ API_PATH ++ route);
                Requested i (API_HOST ++ API_PATH ++ route); Printed line]
               ++ [Wrote row; Flushed]
               ++ (if Z.of_nat i <? Z.of_nat total - 1
                   then [Printed (py "Rate limiting..."); Slept] else []) ++ rest)
            = S (flushes rest)).
    { rewrite !flushes_app. by destruct (Z.of_nat i <? Z.of_nat total - 1). }
    rewrite Hw, Hf. cbn [length]. split_and!.
    + rewrite Hfile. by rewrite <- app_assoc.
    + lia.
    + lia.
    + destruct Hlast as [Hlast|(Hlast & Hexc & Hsome)]; [left; lia|right].
      split_and!; [lia| |done]. rewrite Hexc. f_equal. lia.
    + intros Hnone. destruct (Hdone Hnone). lia.
Qed.

(** X9: the counter of [fetch_data] counts the rows handed to the writer,
    not the rows flushed: at the end of every run the file holds the header
    and as many rows as the counter says, all of them flushed except, when a
    flush raised, the last one; the "Incomplete" line of such a run counts a
    row that was not flushed.  A complete run has written and flushed one row
    per identifier. *)
Theorem counter_counts_written_rows (datafile_name : pystr)
    (CURRENT_SET : list pystr) :
  let t := (fetch_data_io datafile_name CURRENT_SET).1 in
  let report := (fetch_data_io datafile_name CURRENT_SET).2 in
  written t = file (final report)
  ∧ (disk 0 = None → length (file (final report)) = S (rows_written (final report)))
  ∧ (rows_written (final report) ≤ length CURRENT_SET)%nat
  ∧ (rows_written (final report) = flushes t
     ∨ (rows_written (final report) = S (flushes t)
        ∧ aborted report = flush_error (flushes t) ∧ aborted report ≠ None))
  ∧ (aborted report = None →
       rows_written (final report) = length CURRENT_SET
       ∧ flushes t = length CURRENT_SET).
Proof.
  intros t report. subst t report.
  destruct (fetch_data_io_shape datafile_name CURRENT_SET)
    as [(t & st & exc & lines & Hdisk & Hrun & ->)|(e & lines & Hdisk & ->)];
    cbn [fst snd aborted final].
  - destruct (loop_counts _ _ _ _ _ _ _ Hrun) as (Hfile & Hcount & Hle & Hlast & Hdone).
    cbn [file rows_written] in Hfile, Hcount.
    assert (Hw : written (Wrote headers :: t ++ (Printed <$> lines))
                 = headers :: written t).
    { change (written (Wrote headers :: ?l)) with (headers :: written l).
      by rewrite written_app, written_printed, app_nil_r. }
    assert (Hf : flushes (Wrote headers :: t ++ (Printed <$> lines)) = flushes t).
    { change (flushes (Wrote headers :: ?l)) with (flushes l).
      rewrite flushes_app. unfold flushes at 2.
      rewrite (filter_printed is_flush) by done. simpl. lia. }
    rewrite Hw, Hf, Hfile, Hcount. split_and!.
    + done.
    + intros _. simpl. lia.
    + simpl. lia.
    + simpl. destruct Hlast as [Hlast|(Hlast & Hexc & Hsome)]; [left; lia|right].
      by split_and!; [lia| |].
    + intros Hnone. destruct (Hdone Hnone). simpl. lia.
  - rewrite written_printed. unfold flushes.
    rewrite (filter_printed is_flush) by done. cbn.
    split_and!; [done|congruence|lia|by left|done].
Qed.

(** **** The rows of a run, complete or aborted *)

Lemma row_head (result : fetch_result) (row : list pystr) :
  row_of_result result = Ok row → head row = Some (url result).
Proof.
  unfold row_of_result. destruct (has_error result); [by intros [= <-]|].
  intros (cells & _ & [= <-])%bind_ok. done.
Qed.

Lemma fetch_taxon_data_url (route : pystr) (i : nat) :
  url (fetch_taxon_data route i) = API_HOST ++ API_PATH ++ route.
Proof.
  destruct (fetch_attempt (API_HOST ++ API_PATH ++ route) i) as [r|e] eqn:Hr.
  - rewrite (fetch_attempt_returns _ _ _ Hr).
    apply fetch_attempt_ok in Hr
      as (resp & _ & [(_ & ->)|(_ & text & full & flat & _ & _ & _ & ->)]); done.
  - by rewrite (fetch_attempt_raises _ _ _ Hr).
Qed.

Lemma loop_rows (total i : nat) (routes : list pystr) (st st' : run_state)
    (t : list event) (exc : option exn) :
  loop_run total i routes st t st' exc →
  ∀ j row, written t !! j = Some row →
    ∃ route, routes !! j = Some route
      ∧ row_of_result (fetch_taxon_data route (i + j)) = Ok row.
Proof.
  induction 1 as [i st|i route routes st e Hrow|i route routes st row e Hrow Hdisk
    |i route routes st row e Hrow Hdisk Hflush
    |i route routes st row rest st' exc Hrow Hdisk Hflush Hrun IH]; intros j r Hj;
    try destruct (fetch_taxon_data_io_events route i total) as [line Hline];
    try rewrite Hline in Hj; try done.
  - destruct j as [|j]; [|done]. injection Hj as <-.
    exists route. by rewrite Nat.add_0_r.
  - rewrite !written_app in Hj.
    replace (written (if Z.of_nat i <? Z.of_nat total - 1
                      then [Printed (py "Rate limiting..."); Slept] else []))
      with (@nil (list pystr)) in Hj by (by destruct (_ <? _)).
    destruct j as [|j].
    + injection Hj as <-. exists route. by rewrite Nat.add_0_r.
    + destruct (IH j r Hj) as (route' & Hroute & Hres). exists route'.
      split; [done|]. by replace (i + S j)%nat with (S i + j)%nat by lia.
Qed.

(** What aborts the loop: building, writing or flushing the row of the
    first identifier whose row is not flushed. *)
Lemma loop_abort (total i : nat) (routes : list pystr) (st st' : run_state)
    (t : list event) (exc : option exn) (e : exn) :
  loop_run total i routes st t st' exc → exc = Some e →
  ∃ route, routes !! flushes t = Some route
    ∧ (row_of_result (fetch_taxon_data route (i + flushes t)) = Raise e
       ∨ ∃ row, row_of_result (fetch_taxon_data route (i + flushes t)) = Ok row
           ∧ (disk (length (file st) + flushes t) = Some e
              ∨ (disk (length (file st) + flushes t) = None
                 ∧ flush_error (i + flushes t) = Some e))).
Proof.
  induction 1 as [i st|i route routes st e' Hrow|i route routes st row e' Hrow Hdisk
    |i route routes st row e' Hrow Hdisk Hflush
    |i route routes st row rest st' exc Hrow Hdisk Hflush Hrun IH]; intros Hexc;
    try destruct (fetch_taxon_data_io_events route i total) as [line ->];
    try done.
  - injection Hexc as ->. exists route. cbn. rewrite !Nat.add_0_r. split; [done|by left].
  - injection Hexc as ->. exists route. cbn. rewrite !Nat.add_0_r. split; [done|].
    right. exists row. split; [done|by left].
  - injection Hexc as ->. exists route. cbn. rewrite !Nat.add_0_r. split; [done|].
    right. exists row. split; [done|by right].
  - destruct (IH Hexc) as (route' & Hroute & Hcause).
    cbn [file] in Hcause. rewrite length_app in Hcause. cbn [length] in Hcause.
    assert (Hf : flushes ([Printed (py "Fetching: " ++ API_HOST ++ API_PATH ++ route);
                Requested i (API_HOST ++ API_PATH ++ route); Printed line]
               ++ [Wrote row; Flushed]
               ++ (if Z.of_nat i <? Z.of_nat total - 1
                   then [Printed (py "Rate limiting..."); Slept] else []) ++ rest)
            = S (flushes rest)).
    { rewrite !flushes_app. by destruct (Z.of_nat i <? Z.of_nat total - 1). }
    rewrite Hf. exists route'. split; [done|].
    replace (i + S (flushes rest))%nat with (S i + flushes rest)%nat by lia.
    replace (length (file st) + S (flushes rest))%nat
      with (length (file st) + 1 + flushes rest)%nat by lia.
    exact Hcause.
Qed.

(** X10: whatever way a run of [fetch_data] ends, the file is a prefix of
    what a complete run writes: the header, then for each of the first
    identifiers, in order, the row of its fetch outcome, of 17 cells, the
    first being the host, the path and the identifier. *)
Theorem every_run_leaves_a_prefix (datafile_name : pystr)
    (CURRENT_SET : list pystr) :
  let report := (fetch_data_io datafile_name CURRENT_SET).2 in
  (disk 0 = None → file (final report) !! 0%nat = Some headers)
  ∧ (length (file (final report)) ≤ S (length CURRENT_SET))%nat
  ∧ ∀ j row, file (final report) !! S j = Some row →
      ∃ route, CURRENT_SET !! j = Some route
        ∧ row_of_result (fetch_taxon_data route j) = Ok row
        ∧ head row = Some (API_HOST ++ API_PATH ++ route)
        ∧ length row = 17%nat.
Proof.
  intros report. subst report.
  destruct (fetch_data_io_shape datafile_name CURRENT_SET)
    as [(t & st & exc & lines & Hdisk & Hrun & ->)|(e & lines & Hdisk & ->)];
    cbn [fst snd final file].
  - destruct (loop_counts _ _ _ _ _ _ _ Hrun) as (Hfile & _ & Hle & _).
    cbn [file] in Hfile. rewrite Hfile. split_and!; [done|simpl; lia|].
    intros j row Hj. cbn in Hj.
    destruct (loop_rows _ _ _ _ _ _ _ Hrun j row Hj) as (route & Hroute & Hrow).
    exists route. cbn in Hrow. split_and!; [done|done| |].
    + rewrite (row_head _ _ Hrow). by rewrite fetch_taxon_data_url.
    + by rewrite (row_of_result_length _ _ Hrow).
  - split_and!; [congruence|simpl; lia|done].
Qed.

(** X11: a run of [fetch_data] is aborted by the first failure and by
    nothing else: the exception it re-raises is the one raised by building,
    writing or flushing the row of the identifier that follows the flushed
    ones, or by writing the header. *)
Theorem run_stops_at_the_first_failure (datafile_name : pystr)
    (CURRENT_SET : list pystr) (e : exn) :
  let t := (fetch_data_io datafile_name CURRENT_SET).1 in
  aborted (fetch_data_io datafile_name CURRENT_SET).2 = Some e →
  disk 0 = Some e
  ∨ (disk 0 = None ∧ ∃ route, CURRENT_SET !! flushes t = Some route
       ∧ (row_of_result (fetch_taxon_data route (flushes t)) = Raise e
          ∨ ∃ row, row_of_result (fetch_taxon_data route (flushes t)) = Ok row
              ∧ (disk (S (flushes t)) = Some e
                 ∨ (disk (S (flushes t)) = None
                    ∧ flush_error (flushes t) = Some e)))).
Proof.
  intros t. subst t.
  destruct (fetch_data_io_shape datafile_name CURRENT_SET)
    as [(t & st & exc & lines & Hdisk & Hrun & ->)|(e' & lines & Hdisk & ->)];
    cbn [fst snd aborted]; intros Hexc.
  - right. split; [done|].
    destruct (loop_abort _ _ _ _ _ _ _ e Hrun Hexc) as (route & Hroute & Hcause).
    assert (Hf : flushes (Wrote headers :: t ++ (Printed <$> lines)) = flushes t).
    { change (flushes (Wrote headers :: ?l)) with (flushes l).
      rewrite flushes_app. unfold flushes at 2.
      rewrite (filter_printed is_flush) by done. simpl. lia. }
    rewrite Hf. exists route. split; [done|]. exact Hcause.
  - left. congruence.
Qed.

(** When no flush fails, the report of a run is the one [fetch_data] gives. *)
Lemma run_loop_io_report (total : nat) (routes : list pystr) (i : nat)
    (st : run_state) :
  (∀ j, flush_error j = None) →
  (run_loop_io total i routes st).2 = run_loop i routes st.
Proof.
  intros Hflush. revert i st. induction routes as [|route routes IH]; intros i st;
    [done|].
  cbn [run_loop_io run_loop]. unfold run_step.
  pose proof (fetch_taxon_data_io_result route i total) as Hres.
  destruct (fetch_taxon_data_io route i total) as [fetched result].
  cbn [snd] in Hres. subst result.
  destruct (row_of_result (fetch_taxon_data route i)) as [row|e]; [|done].
  cbn [mbind res_bind].
  destruct (writerow (file st) row) as [file'|e]; [|done].
  cbn [mbind res_bind mret res_ret]. rewrite Hflush.
  specialize (IH (S i) (mk_state file' (S (rows_written st)))).
  by destruct (run_loop_io total (S i) routes _) as [rest out].
Qed.

Lemma fetch_data_io_report (datafile_name : pystr) (CURRENT_SET : list pystr) :
  (∀ j, flush_error j = None) →
  (fetch_data_io datafile_name CURRENT_SET).2 = fetch_data CURRENT_SET.
Proof.
  intros Hflush. unfold fetch_data_io, fetch_data.
  destruct (writerow [] headers) as [file0|e]; [|done].
  pose proof (run_loop_io_report (length CURRENT_SET) CURRENT_SET 0
                (mk_state file0 0) Hflush) as Hloop.
  destruct (run_loop_io (length CURRENT_SET) 0 CURRENT_SET (mk_state file0 0))
    as [evs [st exc]].
  cbn [snd] in Hloop. by rewrite <- Hloop.
Qed.

Lemma row_of_silent_failure (u : pystr) :
  row_of_result (failure u [])
  = Raise (AttributeError (py "'NoneType' object has no attribute 'get'")).
Proof. done. Qed.

(** X12: a fetch that fails with an empty message aborts the run: the driver
    tests the message for truth, takes the outcome for a success, and
    reading the fields of its [None] data raises [AttributeError]; the row
    of that identifier is never written, and when the run gets to it, that
    exception is the one that ends it. *)
Theorem empty_message_aborts_the_run (datafile_name : pystr)
    (CURRENT_SET : list pystr) (i : nat) (route : pystr) :
  let t := (fetch_data_io datafile_name CURRENT_SET).1 in
  let report := (fetch_data_io datafile_name CURRENT_SET).2 in
  CURRENT_SET !! i = Some route →
  fetch_taxon_data route i = failure (API_HOST ++ API_PATH ++ route) [] →
  aborted report ≠ None
  ∧ (rows_written (final report) ≤ i)%nat
  ∧ (disk 0 = None → flushes t = i →
       aborted report
       = Some (AttributeError (py "'NoneType' object has no attribute 'get'"))).
Proof.
  intros t report Hi Hfail. subst t report.
  assert (Hno : ∀ row, row_of_result (fetch_taxon_data route i) ≠ Ok row)
    by (intros row; by rewrite Hfail, row_of_silent_failure).
  destruct (fetch_data_io_shape datafile_name CURRENT_SET)
    as [(t & st & exc & lines & Hdisk & Hrun & ->)|(e & lines & Hdisk & ->)];
    cbn [fst snd aborted final]; [|split_and!; [done|simpl; lia|congruence]].
  destruct (loop_counts _ _ _ _ _ _ _ Hrun) as (_ & Hcount & _ & _ & Hdone).
  cbn [rows_written] in Hcount.
  assert (Hlt : (length (written t) ≤ i)%nat).
  { destruct (decide (length (written t) ≤ i)%nat) as [|Hgt]; [done|].
    destruct (lookup_lt_is_Some_2 (written t) i) as [row Hrow]; [lia|].
    destruct (loop_rows _ _ _ _ _ _ _ Hrun i row Hrow) as (route' & Hroute & Hres).
    rewrite Hi in Hroute. injection Hroute as <-. by destruct (Hno row). }
  split_and!.
  - intros ->. destruct (Hdone eq_refl) as [_ Hall].
    apply lookup_lt_Some in Hi. lia.
  - lia.
  - intros _ Hflushes.
    assert (Hf : flushes (Wrote headers :: t ++ (Printed <$> lines)) = flushes t).
    { change (flushes (Wrote headers :: ?l)) with (flushes l).
      rewrite flushes_app. unfold flushes at 2.
      rewrite (filter_printed is_flush) by done. simpl. lia. }
    rewrite Hf in Hflushes.
    destruct exc as [e|]; [|destruct (Hdone eq_refl) as [Hall _];
      apply lookup_lt_Some in Hi; lia].
    destruct (loop_abort _ _ _ _ _ _ _ e Hrun eq_refl) as (route' & Hroute & Hcause).
    rewrite Hflushes in Hroute, Hcause. rewrite Hi in Hroute. injection Hroute as <-.
    cbn in Hcause. destruct Hcause as [Hraise|(row & Hrow & _)];
      [|by destruct (Hno row)].
    rewrite Hfail, row_of_silent_failure in Hraise. by injection Hraise as <-.
Qed.

(** **** What a fetch can make of a response *)

(** A fetch returns a failure with its message or a success with a record,
    both for the URL of the identifier. *)
Lemma fetch_taxon_data_cases (route : pystr) (i : nat) :
  (∃ msg, fetch_taxon_data route i = failure (API_HOST ++ API_PATH ++ route) msg)
  ∨ (∃ flat, fetch_taxon_data route i = success (API_HOST ++ API_PATH ++ route) flat).
Proof.
  destruct (fetch_attempt (API_HOST ++ API_PATH ++ route) i) as [r|e] eqn:Hr.
  - rewrite (fetch_attempt_returns _ _ _ Hr).
    apply fetch_attempt_ok in Hr
      as (resp & _ & [(_ & ->)|(_ & text & full & flat & _ & _ & _ & ->)]);
      [left|right]; by eexists.
  - rewrite (fetch_attempt_raises _ _ _ Hr). left. by eexists.
Qed.

(** X14: building the row of a fetch outcome raises in one case only, the
    failure with an empty message, and then with the [AttributeError] of
    reading a field of [None]: every other outcome, success or failure,
    gives its row, so nothing else than this and the disk can abort a run. *)
Theorem row_building_raises_only_on_empty_message (route : pystr) (i : nat)
    (e : exn) :
  row_of_result (fetch_taxon_data route i) = Raise e →
  fetch_taxon_data route i = failure (API_HOST ++ API_PATH ++ route) []
  ∧ e = AttributeError (py "'NoneType' object has no attribute 'get'").
Proof.
  destruct (fetch_taxon_data_cases route i) as [[msg ->]|[flat ->]].
  - destruct (decide (msg = [])) as [->|Hmsg].
    + rewrite row_of_silent_failure. by intros [= <-].
    + by rewrite row_of_failure.
  - by rewrite row_of_success.
Qed.

(** X15: a response with status 200 whose body is valid JSON but not an
    object, such as a list, a string, a number or [null], is recorded as a
    failure whose message names the type, ["'list' object has no attribute
    'get'"] for a list, and gives a failure row; the run goes on. *)
Theorem non_object_body_is_a_failure (route : pystr) (i : nat)
    (resp : http_response) (text : pystr) (full : value) :
  let u := API_HOST ++ API_PATH ++ route in
  let msg := py "'" ++ type_name full ++ py "' object has no attribute 'get'" in
  urlopen i u = Ok resp → status resp = 200 → body resp = Ok text →
  Json.loads text = Ok full → is_dict full = false →
  fetch_taxon_data route i = failure u msg
  ∧ row_of_result (fetch_taxon_data route i) = Ok (u :: msg :: replicate 15 []).
Proof.
  intros u msg Hresp Hstatus Hbody Hloads Hfull.
  assert (Hfetch : fetch_taxon_data route i = failure u msg).
  { apply (fetch_attempt_raises route i (no_attribute full "get")).
    unfold fetch_attempt. fold u. rewrite Hresp. cbn [mbind res_bind].
    rewrite Hstatus. cbn [Z.eqb Pos.eqb negb]. rewrite Hbody. cbn [mbind res_bind].
    rewrite Hloads. cbn [mbind res_bind].
    by rewrite extract_data_not_dict. }
  split; [done|]. rewrite Hfetch. apply row_of_failure. by destruct full.
Qed.

(** **** Lists and mappings, from the response to the cell and back *)

Lemma wf_dict_get (d : dict) (k : pystr) :
  wf_value (PDict d) = true → wf_value (dict_get d k) = true.
Proof.
  cbn [wf_value]. intros [_ Hall]%andb_true_iff. unfold dict_get.
  induction d as [|[k0 v0] d IH]; [done|]. cbn [forallb fst snd] in Hall.
  apply andb_true_iff in Hall as [[_ Hv0]%andb_true_iff Hall].
  cbn [dict_lookup]. case_bool_decide; [done|by apply IH].
Qed.

Lemma wf_resolve (v : value) (m : dict) :
  wf_value v = true → resolve v = Some m → wf_value (PDict m) = true.
Proof.
  unfold resolve. destruct (truthy v); [|by intros _ [= <-]].
  destruct v; try done. by intros Hv [= <-].
Qed.

(** A list or a mapping [format_last_modified] returns is its argument. *)
Lemma format_last_modified_container (v : value) :
  is_list (format_last_modified v) || is_dict (format_last_modified v) = true →
  format_last_modified v = v.
Proof.
  unfold format_last_modified. destruct (negb (truthy v)); [done|].
  destruct v as [| | |s| |]; try done. cbn [py_replace mbind res_bind].
  by destruct (Datetime.fromisoformat _).
Qed.

Lemma extract_habitat_descriptions_scalar (v : value) (hk dk : pystr) :
  is_list (extract_habitat_descriptions v hk dk)
  || is_dict (extract_habitat_descriptions v hk dk) = false.
Proof.
  destruct (is_list v) eqn:Hv.
  - destruct v as [| | | |items|]; try done.
    rewrite extract_habitat_descriptions_list.
    by destruct (collected_descriptions hk dk items).
  - by rewrite extract_habitat_descriptions_not_list.
Qed.

Lemma dict_get_forall (P : value → Prop) (d : dict) (k : pystr) :
  P PNone → Forall (λ kv, P kv.2) d → P (dict_get d k).
Proof.
  intros Hnone Hd. unfold dict_get.
  induction Hd as [|[k0 v0] d H0 Hd IH]; [done|].
  cbn [dict_lookup]. by case_bool_decide.
Qed.

(** The lists and the mappings of a flat record come from the raw record. *)
Lemma flat_record_wf (d sc sg re : dict) :
  wf_value (PDict d) = true → wf_value (PDict sc) = true →
  wf_value (PDict sg) = true → wf_value (PDict re) = true →
  Forall (λ kv, is_list kv.2 || is_dict kv.2 = true → wf_value kv.2 = true)
    (flat_record d sc sg re).
Proof.
  intros Hd Hsc Hsg Hre. unfold flat_record. apply Forall_app. split.
  - repeat (constructor; [cbn [snd]; intros _; by apply wf_dict_get|]).
    constructor.
    { cbn [snd]. intros Hc. rewrite (format_last_modified_container _ Hc).
      by apply wf_dict_get. }
    repeat (constructor; [cbn [snd]; intros _; by apply wf_dict_get|]).
    constructor.
  - apply Forall_fmap, Forall_forall. intros [[[api hk] dk] out] _.
    unfold compose, habitat_field. cbn [snd].
    by rewrite extract_habitat_descriptions_scalar.
Qed.


(** *** The main block *)

(** X13: the main block requests nothing but clean identifiers of the data
    file: without the file it prints the error, exits with status 1 and
    neither issues a request nor writes a row, as whenever loading fails;
    with it, every identifier is clean, the requests are those of the first
    identifiers in file order, each for the host, the path and the
    identifier, and a run that completes has requested them all. *)
Theorem main_requests_the_loaded_identifiers (datafile : pystr) :
  let t := (main_io datafile).1 in
  (path_exists datafile = false →
     main_io datafile
     = ([Printed (py "Error: Data file not found: " ++ datafile)], Exit 1))
  ∧ match load_species_from_csv datafile with
    | inl _ => requests t = [] ∧ written t = [] ∧ (main_io datafile).2 ≠ Completed
    | inr ids =>
        Forall clean ids
        ∧ ∃ m, (m ≤ length ids)%nat ∧ requests t = take m (urls ids)
            ∧ ((main_io datafile).2 = Completed → m = length ids)
    end.
Proof.
  intros t. subst t. split.
  - intros Hp. unfold main_io, load_species_from_csv. by rewrite Hp.
  - unfold main_io.
    destruct (load_species_from_csv datafile) as [[msg|e]|ids] eqn:Hload.
    + done.
    + by destruct (file_not_found e).
    + split.
      { apply load_returns in Hload as (_ & rows & _ & ->).
        apply Forall_forall. intros id (row & _ & Hid)%list_elem_of_omap.
        by apply row_id_clean in Hid. }
      destruct (fetch_data_io_requests datafile ids) as (m & Hm & Hreq & Hall).
      exists m. split; [done|].
      destruct (fetch_data_io datafile ids) as [evs report].
      cbn [fst snd] in *.
      destruct (aborted report) as [e|]; [destruct (file_not_found e)|];
        cbn [fst snd]; split; try done.
      * change (requests (Printed ?l :: ?r)) with (requests r).
        by rewrite requests_app, app_nil_r.
      * auto.
Qed.

End App.

(** ** The theorems at the sample world *)

(** C1, as stated, fails: a text where a mapping is expected makes
    [extract_data] raise instead of resolving the fields to absent. *)
Lemma extract_data_raises_on_text_intermediate :
  extract_data sample_repr mistyped_record
  = Raise (AttributeError (py "'str' object has no attribute 'get'")).
Proof. vm_compute. reflexivity. Qed.

Lemma extract_data_total_witness :
  intermediates sample_dict
  = Some ([ (py "habitatComments", PStr (py "Forests and swamps"));
            (py "speciesTerrestrialHabitats", PList
               [ PDict [(py "terrestrialHabitat",
                   PDict [(py "terrestrialHabitatDescEn", PStr (py "Forest - Conifer"))])];
                 PInt 7;
                 PDict [(py "terrestrialHabitat", PDict [])];
                 PDict [(py "terrestrialHabitat",
                   PDict [(py "terrestrialHabitatDescEn", PStr (py "Woodland - Mixed"))])] ]);
            (py "speciesMarineHabitats", PList []) ],
          [],
          [(py "rangeExtentDescEn", PStr (py ">2,500,000 square km"))])
  ∧ ∃ flat, extract_data sample_repr sample_record = Ok flat
            ∧ dict_keys flat = row_keys
            ∧ dict_get flat (py "speciesGlobalElementGlobalId") = PNone
            ∧ dict_get flat (py "terrestrialHabitats")
              = PStr (py "Forest - Conifer, Woodland - Mixed").
Proof.
  split; [vm_compute; reflexivity|].
  pose proof (extract_data_total_on_mappings sample_repr sample_dict) as [H _].
  eexists. split; [exact (proj1 H)|]. split; [exact (proj2 H)|].
  split; vm_compute; reflexivity.
Defined.

(** C2, as stated, fails: the header has 17 columns, not 16, and a failure
    row has 15 empty columns after the message, not 14. *)
Lemma header_is_not_sixteen_columns :
  length headers ≠ 16%nat
  ∧ row_of_result sample_repr (failure (py "u") (py "404 Not Found"))
    ≠ Ok (py "u" :: py "404 Not Found" :: replicate 14 []).
Proof. split; vm_compute; discriminate. Qed.

Lemma rows_follow_header_witness :
  py "404 Not Found" ≠ []
  ∧ row_of_result sample_repr (failure (py "u") (py "404 Not Found"))
    = Ok (py "u" :: py "404 Not Found" :: replicate 15 [])
  ∧ length (py "u" :: py "404 Not Found" :: replicate 15 ([] : pystr))
    = length headers.
Proof.
  destruct (rows_follow_header sample_repr) as (_ & _ & Hlen & Hfail & _).
  assert (Hmsg : py "404 Not Found" ≠ []) by discriminate.
  split; [exact Hmsg|]. split; [exact (Hfail (py "u") _ Hmsg)|].
  exact (Hlen _ _ (Hfail (py "u") _ Hmsg)).
Defined.

Lemma extract_habitat_descriptions_witness :
  is_list (PStr (py "Forest")) = false
  ∧ extract_habitat_descriptions sample_repr (PStr (py "Forest"))
      (py "terrestrialHabitat") (py "terrestrialHabitatDescEn") = PNone.
Proof.
  split; [reflexivity|].
  destruct (extract_habitat_descriptions_spec sample_repr
              (py "terrestrialHabitat") (py "terrestrialHabitatDescEn"))
    as (_ & H & _).
  exact (H (PStr (py "Forest")) eq_refl).
Defined.

(** C4, as stated, fails: the empty string is present and does not parse,
    yet it is not passed through: the result is [None]. *)
Lemma empty_timestamp_is_not_passed_through :
  Datetime.parse_iso (replace (py "Z") (py "+00:00") []) = None
  ∧ format_last_modified (PStr []) ≠ PStr [].
Proof. split; [reflexivity|discriminate]. Qed.

Lemma format_last_modified_witness :
  (py "last week" ≠ []
   ∧ Datetime.parse_iso (replace (py "Z") (py "+00:00") (py "last week")) = None)
  ∧ format_last_modified (PStr (py "last week")) = PStr (py "last week").
Proof.
  assert (H1 : py "last week" ≠ []) by discriminate.
  assert (H2 : Datetime.parse_iso
                 (replace (py "Z") (py "+00:00") (py "last week")) = None)
    by (vm_compute; reflexivity).
  split; [by split|].
  destruct format_last_modified_spec as (_ & _ & _ & _ & H). exact (H _ H1 H2).
Defined.

Lemma format_last_modified_falsy_witness :
  truthy (PInt 0) = false ∧ format_last_modified (PInt 0) = PNone.
Proof.
  split; [reflexivity|].
  exact (proj1 (format_last_modified_falsy_is_absent sample_repr) (PInt 0) eq_refl).
Defined.


Lemma extraction_failure_witness :
  extract_data sample_repr mistyped_record
  = Raise (AttributeError (py "'str' object has no attribute 'get'"))
  ∧ fetch_taxon_data sample_repr sample_urlopen (py "X") 3
    = mk_result (API_HOST ++ API_PATH ++ py "X")
        (Some (py "'str' object has no attribute 'get'")) PNone.
Proof.
  assert (Hextract : extract_data sample_repr mistyped_record
    = Raise (AttributeError (py "'str' object has no attribute 'get'")))
    by (vm_compute; reflexivity).
  split; [exact Hextract|].
  refine (proj1 (extraction_failure_is_recorded sample_repr sample_urlopen
            sample_disk (py "X") 3
            (mk_response 200 (py "OK") (Ok (Json.dumps mistyped_record)))
            (Json.dumps mistyped_record) mistyped_record _
            eq_refl eq_refl eq_refl _ Hextract)).
  vm_compute. reflexivity.
Defined.

Lemma fetch_data_witness :
  aborted (fetch_data sample_repr sample_urlopen sample_disk sample_set) = None
  ∧ rows_written (final (fetch_data sample_repr sample_urlopen sample_disk sample_set))
    = 3%nat
  ∧ length (file (final (fetch_data sample_repr sample_urlopen sample_disk sample_set)))
    = 4%nat
  ∧ file (final (fetch_data sample_repr sample_urlopen sample_disk sample_set)) !! 2%nat
    = Some ((API_HOST ++ API_PATH ++ py "ELEMENT_GLOBAL.2.000000")
            :: py "404 Not Found" :: replicate 15 []).
Proof.
  assert (Hdone : aborted (fetch_data sample_repr sample_urlopen sample_disk
                             sample_set) = None) by (vm_compute; reflexivity).
  destruct (fetch_data_one_row_per_identifier sample_repr sample_urlopen
              sample_disk sample_set Hdone) as (Hrows & _ & Hlen & _ & _ & H404).
  split; [exact Hdone|]. split; [exact Hrows|]. split; [exact Hlen|].
  exact (H404 1%nat (py "ELEMENT_GLOBAL.2.000000") eq_refl eq_refl).
Defined.

(** The driver tests the error message for truth, so a failure whose message
    is empty is read as a success whose data is [None], and building its row
    raises. *)
Lemma empty_error_message_is_read_as_success :
  row_of_result sample_repr (failure (py "u") [])
  = Raise (AttributeError (py "'NoneType' object has no attribute 'get'")).
Proof. vm_compute. reflexivity. Qed.



(** A list copied through is not copied: the new record holds, under
    [grankReasons], the address the raw record holds, so an append made
    through the new record is seen through the raw record.  The program
    makes none. *)
Lemma copied_list_is_shared :
  let run := extract_data_st sample_repr sample_ref sample_store in
  run.1 = Ok (RObj 18)
  ∧ ref_get_default (RObj 18) (py "grankReasons") RNone run.2 = Ok (RObj 0)
  ∧ ref_get_default sample_ref (py "grankReasons") RNone sample_store = Ok (RObj 0)
  ∧ py_get (denote (st_append (RObj 0) (RStr (py "x")) run.2).2 sample_ref)
      (py "grankReasons")
    = Ok (PList [PStr (py "Widespread"); PStr (py "Abundant"); PStr (py "x")]).
Proof. vm_compute. by split_and!. Qed.

(** ** The further properties at the sample world *)

Lemma extract_data_reads_nine_keys_witness :
  (py "taxonomicComments" ∉ keys_read)
  ∧ extract_data sample_repr
      (PDict (dict_set sample_dict (py "taxonomicComments") (PInt 1)))
    = extract_data sample_repr sample_record.
Proof.
  assert (Hk : py "taxonomicComments" ∉ keys_read)
    by (apply (bool_decide_unpack _); vm_compute; reflexivity).
  split; [exact Hk|].
  exact (proj2 (extract_data_reads_nine_keys sample_repr sample_dict)
           (py "taxonomicComments") (PInt 1) Hk).
Defined.

Lemma json_cell_is_printable_ascii_witness :
  Forall printable_ascii
    (format_csv_value sample_repr (PList [PStr [233; 10; 128512]])).
Proof.
  exact (json_cell_is_printable_ascii sample_repr
           (PList [PStr [233; 10; 128512]]) eq_refl).
Defined.

Lemma habitat_columns_of_a_row_witness :
  ∃ flat row,
    extract_data sample_repr sample_record = Ok flat
    ∧ row_of_result sample_repr (success (py "u") flat) = Ok row
    ∧ headers !! 11%nat = Some (py "terrestrialHabitats")
    ∧ row !! 11%nat = Some (py "Forest - Conifer, Woodland - Mixed").
Proof.
  destruct (extract_data sample_repr sample_record) as [flat|e] eqn:Hflat;
    [|vm_compute in Hflat; discriminate].
  destruct (habitat_columns_of_a_row sample_repr sample_dict flat (py "u") Hflat)
    as (sc & row & Hsc & Hrow & Hcols).
  exists flat, row. split; [reflexivity|]. split; [exact Hrow|].
  destruct (Hcols 1%nat _ _ _ _ eq_refl) as [Hhead Hcell].
  split; [exact Hhead|]. etrans; [exact Hcell|].
  vm_compute in Hsc. injection Hsc as <-. vm_compute. reflexivity.
Defined.

Lemma loaded_identifiers_are_clean_witness :
  load_species_from_csv sample_exists sample_rows (py "animals.csv")
  = inr sample_set
  ∧ Forall (λ id, clean id ∧ strip id = id) sample_set.
Proof.
  assert (Hload : load_species_from_csv sample_exists sample_rows (py "animals.csv")
                  = inr sample_set) by (vm_compute; reflexivity).
  split; [exact Hload|].
  exact (loaded_identifiers_are_clean sample_exists sample_rows
           (py "animals.csv") sample_set Hload).
Defined.

Lemma load_species_from_csv_spec_witness :
  sample_exists (py "plants.csv") = false
  ∧ load_species_from_csv sample_exists sample_rows (py "plants.csv")
    = inl (FileNotFoundError (py "Data file not found: plants.csv")).
Proof.
  split; [reflexivity|].
  exact (proj1 (load_species_from_csv_spec sample_exists sample_rows
                  (py "plants.csv")) eq_refl).
Defined.

Lemma pauses_fall_between_requests_witness :
  let run := fetch_data_io sample_repr sample_urlopen sample_disk sample_flush
               sample_stem sample_timestamp (py "animals.csv") sample_set in
  aborted run.2 = None
  ∧ requests run.1 = urls sample_set
  ∧ length (List.filter is_pause run.1) = 2%nat.
Proof.
  intros run.
  assert (Hdone : aborted run.2 = None) by (vm_compute; reflexivity).
  split; [exact Hdone|].
  exact (proj2 (proj2 (pauses_fall_between_requests sample_repr sample_urlopen
           sample_disk sample_flush sample_stem sample_timestamp
           (py "animals.csv") sample_set)) Hdone).
Defined.

Lemma run_follows_the_cycle_witness :
  let run := fetch_data_io sample_repr sample_urlopen sample_disk sample_flush
               sample_stem sample_timestamp (py "animals.csv") sample_set in
  aborted run.2 = None ∧ cycle Start run.1 = Some Ready.
Proof.
  intros run.
  assert (Hdone : aborted run.2 = None) by (vm_compute; reflexivity).
  split; [exact Hdone|].
  destruct (run_follows_the_cycle sample_repr sample_urlopen sample_disk
              sample_flush sample_stem sample_timestamp (py "animals.csv")
              sample_set) as (p & Hp & Hready).
  rewrite <- (Hready Hdone). exact Hp.
Defined.

(** On the disk whose second flush fails, the counter says two rows and one
    is flushed. *)
Lemma counter_counts_written_rows_witness :
  let run := fetch_data_io sample_repr sample_urlopen sample_disk
               sample_full_disk sample_stem sample_timestamp
               (py "animals.csv") sample_set in
  sample_disk 0 = None
  ∧ length (file (final run.2)) = S (rows_written (final run.2))
  ∧ rows_written (final run.2) = 2%nat
  ∧ flushes run.1 = 1%nat.
Proof.
  intros run. split; [reflexivity|]. split.
  - exact (proj1 (proj2 (counter_counts_written_rows sample_repr sample_urlopen
             sample_disk sample_full_disk sample_stem sample_timestamp
             (py "animals.csv") sample_set)) eq_refl).
  - vm_compute. split; reflexivity.
Defined.

Lemma every_run_leaves_a_prefix_witness :
  let run := fetch_data_io sample_repr sample_urlopen sample_disk
               sample_full_disk sample_stem sample_timestamp
               (py "animals.csv") sample_set in
  sample_disk 0 = None ∧ file (final run.2) !! 0%nat = Some headers.
Proof.
  intros run. split; [reflexivity|].
  exact (proj1 (every_run_leaves_a_prefix sample_repr sample_urlopen
           sample_disk sample_full_disk sample_stem sample_timestamp
           (py "animals.csv") sample_set) eq_refl).
Defined.

Lemma run_stops_at_the_first_failure_witness :
  let run := fetch_data_io sample_repr sample_urlopen sample_disk
               sample_full_disk sample_stem sample_timestamp
               (py "animals.csv") sample_set in
  let e := OtherError (py "[Errno 28] No space left on device") in
  aborted run.2 = Some e
  ∧ (sample_disk 0 = Some e
     ∨ (sample_disk 0 = None ∧ ∃ route, sample_set !! flushes run.1 = Some route
        ∧ (row_of_result sample_repr
             (fetch_taxon_data sample_repr sample_urlopen route (flushes run.1))
           = Raise e
           ∨ ∃ row,
               row_of_result sample_repr
                 (fetch_taxon_data sample_repr sample_urlopen route (flushes run.1))
               = Ok row
               ∧ (sample_disk (S (flushes run.1)) = Some e
                  ∨ (sample_disk (S (flushes run.1)) = None
                     ∧ sample_full_disk (flushes run.1) = Some e))))).
Proof.
  intros run e.
  assert (Hexc : aborted run.2 = Some e) by (vm_compute; reflexivity).
  split; [exact Hexc|].
  exact (run_stops_at_the_first_failure sample_repr sample_urlopen
           sample_disk sample_full_disk sample_stem sample_timestamp
           (py "animals.csv") sample_set e Hexc).
Defined.

Lemma empty_message_aborts_the_run_witness :
  let run := fetch_data_io sample_repr silent_urlopen sample_disk sample_flush
               sample_stem sample_timestamp (py "animals.csv") sample_set in
  fetch_taxon_data sample_repr silent_urlopen (py "ELEMENT_GLOBAL.2.100925") 0
  = failure (API_HOST ++ API_PATH ++ py "ELEMENT_GLOBAL.2.100925") []
  ∧ aborted run.2 ≠ None
  ∧ (rows_written (final run.2) ≤ 0)%nat.
Proof.
  intros run. split; [reflexivity|].
  destruct (empty_message_aborts_the_run sample_repr silent_urlopen sample_disk
              sample_flush sample_stem sample_timestamp (py "animals.csv")
              sample_set 0 (py "ELEMENT_GLOBAL.2.100925") eq_refl eq_refl)
    as (Habort & Hrows & _).
  split; [exact Habort|exact Hrows].
Defined.

Lemma main_requests_the_loaded_identifiers_witness :
  sample_exists (py "plants.csv") = false
  ∧ main_io sample_repr sample_urlopen sample_disk sample_exists sample_rows
      sample_flush sample_stem sample_timestamp sample_not_found
      (py "plants.csv")
    = ([Printed (py "Error: Data file not found: plants.csv")], Exit 1).
Proof.
  split; [reflexivity|].
  exact (proj1 (main_requests_the_loaded_identifiers sample_repr sample_urlopen
                  sample_disk sample_exists sample_rows sample_flush
                  sample_stem sample_timestamp sample_not_found
                  (py "plants.csv")) eq_refl).
Defined.

Lemma row_building_raises_only_on_empty_message_witness :
  row_of_result sample_repr
    (fetch_taxon_data sample_repr silent_urlopen (py "ELEMENT_GLOBAL.2.100925") 0)
  = Raise (AttributeError (py "'NoneType' object has no attribute 'get'"))
  ∧ fetch_taxon_data sample_repr silent_urlopen (py "ELEMENT_GLOBAL.2.100925") 0
    = failure (API_HOST ++ API_PATH ++ py "ELEMENT_GLOBAL.2.100925") [].
Proof.
  split; [reflexivity|].
  exact (proj1 (row_building_raises_only_on_empty_message sample_repr
                  silent_urlopen (py "ELEMENT_GLOBAL.2.100925") 0 _ eq_refl)).
Defined.

Lemma non_object_body_is_a_failure_witness :
  Json.loads (py "[1, 2]") = Ok (PList [PInt 1; PInt 2])
  ∧ fetch_taxon_data sample_repr array_urlopen (py "ELEMENT_GLOBAL.2.100925") 0
    = failure (API_HOST ++ API_PATH ++ py "ELEMENT_GLOBAL.2.100925")
        (py "'list' object has no attribute 'get'").
Proof.
  assert (Hloads : Json.loads (py "[1, 2]") = Ok (PList [PInt 1; PInt 2]))
    by (vm_compute; reflexivity).
  split; [exact Hloads|].
  exact (proj1 (non_object_body_is_a_failure sample_repr array_urlopen
                  (py "ELEMENT_GLOBAL.2.100925") 0
                  (mk_response 200 (py "OK") (Ok (py "[1, 2]")))
                  (py "[1, 2]") (PList [PInt 1; PInt 2])
                  eq_refl eq_refl eq_refl Hloads eq_refl)).
Defined.


Lemma written_rows_read_back_witness :
  Forall (Forall (λ cell, Z.of_nat (length cell) ≤ Csv.field_limit)) sample_output
  ∧ Csv.write_rows sample_output
    = py "url,elementGlobalId" ++ [13; 10]
      ++ py "u," ++ [34; 34; 34; 97; 34; 34; 44; 13; 10; 98; 34; 44; 13; 10]
      ++ [34; 34; 13; 10] ++ [13; 10]
  ∧ Csv.reader (Csv.split_lines (Csv.write_rows sample_output)) = Ok sample_output.
Proof.
  assert (Hcells : Forall (Forall (λ cell, Z.of_nat (length cell) ≤ Csv.field_limit))
                     sample_output)
    by (apply (bool_decide_unpack _); vm_compute; reflexivity).
  split; [exact Hcells|]. split; [vm_compute; reflexivity|].
  exact (written_rows_read_back sample_output Hcells).
Defined.

Lemma plain_file_gives_an_identifier_per_line_witness :
  sample_exists (py "animals.csv") = true
  ∧ Forall (λ c, c ≠ 34) sample_text
  ∧ load_species_from_csv sample_exists sample_reader (py "animals.csv")
    = inr sample_set.
Proof.
  assert (Hquotes : Forall (λ c, c ≠ 34) sample_text)
    by (apply (bool_decide_unpack _); vm_compute; reflexivity).
  assert (Hlines : Forall (λ line, Z.of_nat (length line) ≤ Csv.field_limit)
                     (text_lines [] (Csv.universal_newlines sample_text)))
    by (apply (bool_decide_unpack _); vm_compute; reflexivity).
  split; [reflexivity|]. split; [exact Hquotes|].
  etrans; [exact (plain_file_gives_an_identifier_per_line sample_exists
                    sample_reader (py "animals.csv") sample_text eq_refl eq_refl
                    Hquotes Hlines)|].
  vm_compute. reflexivity.
Defined.
